(** * rl4water: a shallow embedding of the simulation core

    The development follows the Python sources
    [core/models/facility.py], [core/models/reservoir.py],
    [core/models/power_plant.py], [core/models/irrigation_district.py] and
    [core/envs/water_management_system.py].

    Conventions of the embedding.
    - Python floats are idealised as exact rationals ([Q]); equality of
      computed quantities is [Qeq] ([==]).  An operation whose IEEE result
      would be [nan] or [inf] ends in the outcome [NonFinite].
    - [datetime] is a count of microseconds (its resolution); subtracting two
      datetimes gives a [timedelta], again in microseconds.
    - A [relativedelta] is represented by its action on datetimes, because
      calendar components (months, years, absolute fields) shift a date by
      an amount that depends on the date.
    - Python exceptions are the [Raise] outcomes of the [result] monad.
    - Objects mutated in place become explicit state: every method returns
      the new object next to its Python return value. *)

From Stdlib Require Import QArith Qminmax Lqa Lia ZArith.
From stdpp Require Import base option list strings.

(** ** Outcomes of a Python call *)

Inductive exn : Set :=
  | IndexError | KeyError | ValueError | TypeError | AttributeError
  | ZeroDivisionError
  | NonFinite   (* an IEEE nan/inf would be produced *)
  | OutOfFuel.  (* the loop did not finish within the given number of turns *)

Inductive result (A : Type) : Type :=
  | Ok (a : A)
  | Raise (e : exn).
Arguments Ok {A} a.
Arguments Raise {A} e.

Definition result_bind {A B} (m : result A) (k : A -> result B) : result B :=
  match m with
  | Ok a => k a
  | Raise e => Raise e
  end.

#[global] Instance result_ret : MRet result := fun A a => Ok a.
#[global] Instance result_mbind : MBind result :=
  fun A B k m => result_bind m k.

Definition is_Ok {A} (m : result A) : Prop := exists a, m = Ok a.

(** ** Python sequences *)

Module Py.

(** [l[i]] for a Python integer [i]: a negative index counts from the end,
    an index outside [-len, len) raises [IndexError]. *)
Definition norm_index {A} (l : list A) (i : Z) : option nat :=
  let n := Z.of_nat (length l) in
  if (0 <=? i)%Z then (if (i <? n)%Z then Some (Z.to_nat i) else None)
  else if (- n <=? i)%Z then Some (Z.to_nat (n + i)) else None.

Definition getitem {A} (l : list A) (i : Z) : result A :=
  match norm_index l i with
  | Some k => match l !! k with Some a => Ok a | None => Raise IndexError end
  | None => Raise IndexError
  end.

(** [l[i] = v] *)
Definition setitem {A} (l : list A) (i : Z) (v : A) : result (list A) :=
  match norm_index l i with
  | Some k => Ok (<[k := v]> l)
  | None => Raise IndexError
  end.

(** [l[-1] if l else None] *)
Definition last_or_none {A} (l : list A) : option A := last l.

(** [np.sum] and [np.mean] over exact rationals. *)
Definition sum (l : list Q) : Q := foldr Qplus 0%Q l.

Definition mean (l : list Q) : result Q :=
  match l with
  | [] => Raise NonFinite
  | _ => Ok (sum l / inject_Z (Z.of_nat (length l)))%Q
  end.

(** A [dict] keeps insertion order; assigning to a present key replaces the
    value in place. *)
Fixpoint dict_set {V} (d : list (string * V)) (k : string) (v : V)
  : list (string * V) :=
  match d with
  | [] => [(k, v)]
  | (k', v') :: d' =>
      if String.eqb k' k then (k', v) :: d' else (k', v') :: dict_set d' k v
  end.

Fixpoint dict_get {V} (d : list (string * V)) (k : string) : result V :=
  match d with
  | [] => Raise KeyError
  | (k', v') :: d' => if String.eqb k' k then Ok v' else dict_get d' k
  end.

End Py.

(** ** Dates *)

Definition datetime := Z.
Definition timedelta := Z.

Record relativedelta := { shift : datetime -> datetime }.

(** [date + delta] *)
Definition date_add (d : datetime) (delta : relativedelta) : datetime :=
  shift delta d.

(** Deltas made only of fixed-length components. *)
Definition rd_microseconds (n : Z) : relativedelta :=
  {| shift := fun d => (d + n)%Z |}.
Definition rd_seconds (n : Z) : relativedelta := rd_microseconds (n * 1000000).
Definition rd_minutes (n : Z) : relativedelta := rd_seconds (n * 60).
Definition rd_hours (n : Z) : relativedelta := rd_seconds (n * 3600).

(** [timedelta.total_seconds()] *)
Definition total_seconds (td : timedelta) : Q := (td # 1000000)%Q.

(** ** Interpolation *)

Module Interp.
Local Open Scope Q_scope.

(** One segment of the curve: the line through [(x0, y0)] and [(x1, y1)]. *)
Definition segment (x x0 y0 x1 y1 : Q) : Q :=
  let slope := (y1 - y0) / (x1 - x0) in
  slope * (x - x0) + y0.

(** The value inside the segment [x0 <= x < x1]: a query on the breakpoint
    answers with its ordinate, without arithmetic. *)
Definition on_segment (x x0 y0 x1 y1 : Q) : Q :=
  if Qeq_bool x0 x then y0 else segment x x0 y0 x1 y1.

(** Search for the segment [x0 <= x < x1] from the left; the last
    breakpoint answers with its own ordinate. *)
Fixpoint scan (x x0 y0 : Q) (rest : list (Q * Q)) : Q :=
  match rest with
  | [] => y0
  | (x1, y1) :: rest' =>
      if Qlt_le_dec x x1
      then on_segment x x0 y0 x1 y1
      else scan x x1 y1 rest'
  end.

(** Modelled from the spec: numpy's compiled [interp], which
    [Reservoir.modified_interp] and [Reservoir.storage_to_minmax] call, is
    not among the sources.  Section 4.1: for a strictly increasing sequence
    of [xp] breakpoints and a matching sequence of [fp] values, the
    linearly interpolated value at [x]; outside the breakpoint range the
    boundary value, unless explicit [left]/[right] values are supplied.
    An empty curve or sequences of different lengths raise [ValueError]. *)
Definition compiled_interp (x : Q) (xp fp : list Q) (left right : option Q)
  : result Q :=
  if negb (length xp =? length fp)%nat then Raise ValueError
  else
    match zip xp fp with
    | [] => Raise ValueError
    | (x0, y0) :: rest =>
        let xn := default x0 (last xp) in
        let yn := default y0 (last fp) in
        if Qlt_le_dec x x0 then Ok (default y0 left)
        else if Qlt_le_dec xn x then Ok (default yn right)
        else Ok (scan x x0 y0 rest)
    end.

End Interp.

(** ** Values shared by the node classes *)

(** A float that may be infinite ([float("inf")], [np.inf]). *)
Inductive xfloat : Set :=
  | Finite (q : Q)
  | PosInf
  | NegInf.

(** [x > c] for a finite [x]. *)
Definition gt_xfloat (x : Q) (c : xfloat) : bool :=
  match c with
  | Finite q => negb (Qle_bool x q)
  | PosInf => false
  | NegInf => true
  end.

(** What a constructor argument bound to [objective_function] can hold: a
    callable or, when it is bound by position to a capacity, a number. *)
Inductive pyobj : Type :=
  | PyFunction (f : Q -> Q)
  | PyNumber (x : xfloat).

(** [f(x)] *)
Definition py_call (f : pyobj) (x : Q) : result Q :=
  match f with
  | PyFunction g => Ok (g x)
  | PyNumber _ => Raise TypeError
  end.

(** A gymnasium [Box]. *)
Record Box := { low : xfloat; high : xfloat; shape : list nat }.

(** [np.prod(space.shape)] *)
Definition shape_prod (s : list nat) : nat := foldr Nat.mul 1%nat s.

(** The [info] dictionaries of the three node classes. *)
Inductive info : Type :=
  | ReservoirInfo (name : string) (stored_water : Q)
      (current_level current_release : option Q) (evaporation_rates : list Q)
  | PowerPlantInfo (name : string)
      (inflow outflow monthly_production water_usage total_production : Q)
  | IrrigationInfo (name : string)
      (inflow outflow demand total_deficit : Q) (list_deficits : list Q).

(** The tuple returned by a node's [step]. *)
Record step_result := {
  sr_observation : option Q;
  sr_reward : Q;
  sr_terminated : bool;
  sr_truncated : bool;
  sr_info : info
}.

(** [x + y] where [x] may still be [None]. *)
Definition require {A} (o : option A) : result A :=
  match o with
  | Some a => Ok a
  | None => Raise TypeError
  end.

(** The inflow ledger, shared word for word by [Facility] and
    [ControlledFacility]. *)
Module Ledger.
Local Open Scope Z_scope.

Definition get (ledger : list Q) (timestep : Z) : result Q :=
  Py.getitem ledger timestep.

Definition set_inflow (all_inflow : list Q) (timestep : Z) (inflow : Q)
  : result (list Q) :=
  if Z.of_nat (length all_inflow) =? timestep then
    Ok (all_inflow ++ [inflow])
  else if Z.of_nat (length all_inflow) >? timestep then
    old ← Py.getitem all_inflow timestep;
    Py.setitem all_inflow timestep (old + inflow)%Q
  else Raise IndexError.
End Ledger.

(** ** [Facility] *)

Module Facility.

Record t := {
  name : string;
  all_inflow : list Q;
  all_outflow : list Q;
  objective_name : string;
  current_date : option datetime;
  timestep_size : option relativedelta;
  timestep : nat;
  split_release : option (list Q)
}.

(** [Facility.__init__]; the objective function is kept by the subclass
    records, where its arity is known. *)
Definition init (name : string) (objective_name : string) : t :=
  {| name := name; all_inflow := []; all_outflow := [];
     objective_name := objective_name;
     current_date := None; timestep_size := None; timestep := 0;
     split_release := None |}.

Definition with_all_inflow (l : list Q) (f : t) : t :=
  {| name := name f; all_inflow := l; all_outflow := all_outflow f;
     objective_name := objective_name f; current_date := current_date f;
     timestep_size := timestep_size f; timestep := timestep f;
     split_release := split_release f |}.

Definition with_all_outflow (l : list Q) (f : t) : t :=
  {| name := name f; all_inflow := all_inflow f; all_outflow := l;
     objective_name := objective_name f; current_date := current_date f;
     timestep_size := timestep_size f; timestep := timestep f;
     split_release := split_release f |}.

Definition with_timestep (n : nat) (f : t) : t :=
  {| name := name f; all_inflow := all_inflow f;
     all_outflow := all_outflow f;
     objective_name := objective_name f; current_date := current_date f;
     timestep_size := timestep_size f; timestep := n;
     split_release := split_release f |}.

Definition with_current_date (d : option datetime) (f : t) : t :=
  {| name := name f; all_inflow := all_inflow f;
     all_outflow := all_outflow f;
     objective_name := objective_name f; current_date := d;
     timestep_size := timestep_size f; timestep := timestep f;
     split_release := split_release f |}.

Definition with_timestep_size (d : option relativedelta) (f : t) : t :=
  {| name := name f; all_inflow := all_inflow f;
     all_outflow := all_outflow f;
     objective_name := objective_name f; current_date := current_date f;
     timestep_size := d; timestep := timestep f;
     split_release := split_release f |}.

Definition get_inflow (self : t) (timestep : Z) : result Q :=
  Ledger.get (all_inflow self) timestep.

Definition set_inflow (self : t) (timestep : Z) (inflow : Q) : result t :=
  l ← Ledger.set_inflow (all_inflow self) timestep inflow;
  Ok (with_all_inflow l self).

Definition get_outflow (self : t) (timestep : Z) : result Q :=
  Ledger.get (all_outflow self) timestep.

(** [Facility.reset] *)
Definition reset (self : t) : t :=
  with_all_outflow [] (with_all_inflow [] (with_timestep 0 self)).

(** The abstract methods and overridable hooks of the class.  [S] is the
    state of the subclass, [base] its [Facility] part. *)
Class Methods (S : Type) := {
  base : S -> t;
  with_base : t -> S -> S;
  determine_reward : S -> result (S * Q);
  determine_consumption : S -> result Q;
  is_terminated : S -> bool;
  is_truncated : S -> bool;
  determine_info : S -> result info
}.

Section Step.
Context {S : Type} (M : Methods S).

Definition determine_outflow (self : S) : result Q :=
  i ← get_inflow (base self) (Z.of_nat (timestep (base self)));
  c ← determine_consumption self;
  Ok (i - c)%Q.

Definition step (self : S) : result (S * step_result) :=
  out ← determine_outflow self;
  let self := with_base
                (with_all_outflow (all_outflow (base self) ++ [out])
                                  (base self)) self in
  '(self, rew) ← determine_reward self;
  let term := is_terminated self in
  let trunc := is_truncated self in
  inf ← determine_info self;
  let self := with_base
                (with_timestep (Datatypes.S (timestep (base self)))
                               (base self)) self in
  Ok (self, {| sr_observation := None; sr_reward := rew;
               sr_terminated := term; sr_truncated := trunc;
               sr_info := inf |}).
End Step.

End Facility.

(** ** [ControlledFacility] *)

Module ControlledFacility.

Record t := {
  name : string;
  all_inflow : list Q;
  all_outflow : list Q;
  observation_space : Box;
  action_space : Box;
  objective_function : pyobj;
  objective_name : string;
  max_capacity : xfloat;
  current_date : option datetime;
  timestep_size : option relativedelta;
  timestep : nat;
  should_split_release : bool;
  split_release : option (list Q)
}.

(** [ControlledFacility.__init__], its parameters in the order of the
    source: [name, observation_space, action_space, objective_function,
    objective_name, max_capacity]. *)
Definition init (name : string) (observation_space action_space : Box)
    (objective_function : pyobj) (objective_name : string)
    (max_capacity : xfloat) : t :=
  {| name := name; all_inflow := []; all_outflow := [];
     observation_space := observation_space;
     action_space := action_space;
     objective_function := objective_function;
     objective_name := objective_name;
     max_capacity := max_capacity;
     current_date := None; timestep_size := None; timestep := 0;
     should_split_release := (1 <? shape_prod (shape action_space))%nat;
     split_release := None |}.

(** Defaults of the two trailing parameters. *)
Definition default_objective_name : string := EmptyString.
Definition default_max_capacity : xfloat := PosInf.

Definition with_all_inflow (l : list Q) (f : t) : t :=
  {| name := name f; all_inflow := l; all_outflow := all_outflow f;
     observation_space := observation_space f;
     action_space := action_space f;
     objective_function := objective_function f;
     objective_name := objective_name f; max_capacity := max_capacity f;
     current_date := current_date f; timestep_size := timestep_size f;
     timestep := timestep f;
     should_split_release := should_split_release f;
     split_release := split_release f |}.

Definition with_all_outflow (l : list Q) (f : t) : t :=
  {| name := name f; all_inflow := all_inflow f; all_outflow := l;
     observation_space := observation_space f;
     action_space := action_space f;
     objective_function := objective_function f;
     objective_name := objective_name f; max_capacity := max_capacity f;
     current_date := current_date f; timestep_size := timestep_size f;
     timestep := timestep f;
     should_split_release := should_split_release f;
     split_release := split_release f |}.

Definition with_objective (fn : pyobj) (nm : string) (f : t) : t :=
  {| name := name f; all_inflow := all_inflow f;
     all_outflow := all_outflow f;
     observation_space := observation_space f;
     action_space := action_space f;
     objective_function := fn;
     objective_name := nm; max_capacity := max_capacity f;
     current_date := current_date f; timestep_size := timestep_size f;
     timestep := timestep f;
     should_split_release := should_split_release f;
     split_release := split_release f |}.

Definition with_current_date (d : option datetime) (f : t) : t :=
  {| name := name f; all_inflow := all_inflow f;
     all_outflow := all_outflow f;
     observation_space := observation_space f;
     action_space := action_space f;
     objective_function := objective_function f;
     objective_name := objective_name f; max_capacity := max_capacity f;
     current_date := d; timestep_size := timestep_size f;
     timestep := timestep f;
     should_split_release := should_split_release f;
     split_release := split_release f |}.

Definition with_timestep_size (d : option relativedelta) (f : t) : t :=
  {| name := name f; all_inflow := all_inflow f;
     all_outflow := all_outflow f;
     observation_space := observation_space f;
     action_space := action_space f;
     objective_function := objective_function f;
     objective_name := objective_name f; max_capacity := max_capacity f;
     current_date := current_date f; timestep_size := d;
     timestep := timestep f;
     should_split_release := should_split_release f;
     split_release := split_release f |}.

Definition with_timestep (n : nat) (f : t) : t :=
  {| name := name f; all_inflow := all_inflow f;
     all_outflow := all_outflow f;
     observation_space := observation_space f;
     action_space := action_space f;
     objective_function := objective_function f;
     objective_name := objective_name f; max_capacity := max_capacity f;
     current_date := current_date f; timestep_size := timestep_size f;
     timestep := n;
     should_split_release := should_split_release f;
     split_release := split_release f |}.

Definition with_split_release (sr : option (list Q)) (f : t) : t :=
  {| name := name f; all_inflow := all_inflow f;
     all_outflow := all_outflow f;
     observation_space := observation_space f;
     action_space := action_space f;
     objective_function := objective_function f;
     objective_name := objective_name f; max_capacity := max_capacity f;
     current_date := current_date f; timestep_size := timestep_size f;
     timestep := timestep f;
     should_split_release := should_split_release f;
     split_release := sr |}.

Definition get_inflow (self : t) (timestep : Z) : result Q :=
  Ledger.get (all_inflow self) timestep.

Definition set_inflow (self : t) (timestep : Z) (inflow : Q) : result t :=
  l ← Ledger.set_inflow (all_inflow self) timestep inflow;
  Ok (with_all_inflow l self).

Definition get_outflow (self : t) (timestep : Z) : result Q :=
  Ledger.get (all_outflow self) timestep.

(** [ControlledFacility.reset] *)
Definition reset (self : t) : t :=
  with_all_outflow [] (with_all_inflow [] (with_timestep 0 self)).

(** The abstract methods of the class; [fuel] bounds the turns of the
    loops a subclass runs in [determine_outflow]. *)
Class Methods (S : Type) := {
  base : S -> t;
  with_base : t -> S -> S;
  determine_reward : S -> result Q;
  determine_outflow : nat -> S -> list Q -> result (S * Q);
  determine_observation : S -> Q;
  is_terminated : S -> bool;
  is_truncated : S -> bool;
  determine_info : S -> result info
}.

Section Step.
Context {S : Type} (M : Methods S).

Definition step (fuel : nat) (self : S) (action : list Q)
  : result (S * step_result) :=
  '(self, out) ← determine_outflow fuel self action;
  let self := with_base
                (with_all_outflow (all_outflow (base self) ++ [out])
                                  (base self)) self in
  let obs := determine_observation self in
  rew ← determine_reward self;
  let term := is_terminated self in
  let trunc := is_truncated self in
  inf ← determine_info self;
  let self := with_base
                (with_timestep (Datatypes.S (timestep (base self)))
                               (base self)) self in
  Ok (self, {| sr_observation := Some obs; sr_reward := rew;
               sr_terminated := term; sr_truncated := trunc;
               sr_info := inf |}).
End Step.

End ControlledFacility.

(** [x < y] on rationals, as a boolean. *)
Definition Qlt_bool (x y : Q) : bool := negb (Qle_bool y x).

(** ** [Reservoir] *)

Module Reservoir.
Local Open Scope Q_scope.

Record t := {
  cf : ControlledFacility.t;
  stored_water : Q;
  evap_rates : list Q;
  storage_to_minmax_rel : list (list Q);
  storage_to_level_rel : list (list Q);
  storage_to_surface_rel : list (list Q);
  storage_vector : list Q;
  level_vector : list Q;
  release_vector : list Q;
  integration_timestep_size : relativedelta
}.

Definition with_cf (c : ControlledFacility.t) (r : t) : t :=
  {| cf := c; stored_water := stored_water r; evap_rates := evap_rates r;
     storage_to_minmax_rel := storage_to_minmax_rel r;
     storage_to_level_rel := storage_to_level_rel r;
     storage_to_surface_rel := storage_to_surface_rel r;
     storage_vector := storage_vector r; level_vector := level_vector r;
     release_vector := release_vector r;
     integration_timestep_size := integration_timestep_size r |}.

(** The histories and the current volume, written together at the end of
    [determine_outflow] and by [reset]. *)
Definition with_histories (sw : Q) (sv lv rv : list Q) (r : t) : t :=
  {| cf := cf r; stored_water := sw; evap_rates := evap_rates r;
     storage_to_minmax_rel := storage_to_minmax_rel r;
     storage_to_level_rel := storage_to_level_rel r;
     storage_to_surface_rel := storage_to_surface_rel r;
     storage_vector := sv; level_vector := lv; release_vector := rv;
     integration_timestep_size := integration_timestep_size r |}.

(** [Reservoir.__init__].  The call
    [super().__init__(name, observation_space, action_space, max_capacity)]
    passes [max_capacity] as the fourth positional argument, which the
    base class binds to [objective_function]; the base class's own
    [max_capacity] keeps its default.  The objective is assigned again
    afterwards. *)
Definition init (name : string) (observation_space action_space : Box)
    (objective_function : pyobj)
    (integration_timestep_size : relativedelta)
    (evap_rates : list Q)
    (storage_to_minmax_rel storage_to_level_rel storage_to_surface_rel
      : list (list Q))
    (objective_name : string) (max_capacity : xfloat) (stored_water : Q)
  : t :=
  let super :=
    ControlledFacility.init name observation_space action_space
      (PyNumber max_capacity)
      ControlledFacility.default_objective_name
      ControlledFacility.default_max_capacity in
  {| cf := ControlledFacility.with_objective
             objective_function objective_name super;
     stored_water := stored_water;
     evap_rates := evap_rates;
     storage_to_minmax_rel := storage_to_minmax_rel;
     storage_to_level_rel := storage_to_level_rel;
     storage_to_surface_rel := storage_to_surface_rel;
     storage_vector := [] ++ [stored_water];
     level_vector := [];
     release_vector := [];
     integration_timestep_size := integration_timestep_size |}.

Definition modified_interp (x : Q) (xp fp : list Q) (left right : option Q)
  : result Q :=
  Interp.compiled_interp x xp fp left right.

Definition storage_to_level (self : t) (s : Q) : result Q :=
  xp ← Py.getitem (storage_to_level_rel self) 0%Z;
  fp ← Py.getitem (storage_to_level_rel self) 1%Z;
  modified_interp s xp fp None None.

Definition storage_to_surface (self : t) (s : Q) : result Q :=
  xp ← Py.getitem (storage_to_surface_rel self) 0%Z;
  fp ← Py.getitem (storage_to_surface_rel self) 1%Z;
  modified_interp s xp fp None None.

Definition storage_to_minmax (self : t) (s : Q) : result (Q * Q) :=
  xp ← Py.getitem (storage_to_minmax_rel self) 0%Z;
  fmin ← Py.getitem (storage_to_minmax_rel self) 1%Z;
  lo ← Interp.compiled_interp s xp fmin None None;
  xp' ← Py.getitem (storage_to_minmax_rel self) 0%Z;
  fmax ← Py.getitem (storage_to_minmax_rel self) 2%Z;
  hi ← Interp.compiled_interp s xp' fmax None None;
  Ok (lo, hi).

Definition determine_month (self : t) : nat :=
  (ControlledFacility.timestep (cf self) mod 12)%nat.

(** The variables the [while] loop of [determine_outflow] updates. *)
Record loop_state := {
  ls_date : datetime;          (* self.current_date *)
  ls_storage : Q;              (* current_storage *)
  ls_sub_releases : list Q     (* sub_releases *)
}.

(** [min(max_possible_release, max(min_possible_release, total_action))] *)
Definition clamp_release (lo hi total_action : Q) : Q :=
  Qmin hi (Qmax lo total_action).

(** One turn of the loop. *)
Definition loop_body (self : t) (final_date : datetime)
    (evaporatio_rate_per_second total_action : Q) (st : loop_state)
  : result loop_state :=
  let next_date :=
    Z.min final_date
          (date_add (ls_date st) (integration_timestep_size self)) in
  let integration_time_seconds :=
    total_seconds (next_date - ls_date st)%Z in
  surface ← storage_to_surface self (ls_storage st);
  let evaporation :=
    surface * (evaporatio_rate_per_second * integration_time_seconds) in
  '(min_possible_release, max_possible_release) ←
    storage_to_minmax self (ls_storage st);
  let release_per_second :=
    clamp_release min_possible_release max_possible_release total_action in
  inflow ← ControlledFacility.get_inflow (cf self)
             (Z.of_nat (ControlledFacility.timestep (cf self)));
  let total_addition := inflow * integration_time_seconds in
  Ok {| ls_date := next_date;
        ls_storage :=
          ls_storage st
          + (total_addition - evaporation
             - release_per_second * integration_time_seconds);
        ls_sub_releases := ls_sub_releases st ++ [release_per_second] |}.

(** [while self.current_date < final_date: ...] *)
Fixpoint integrate (fuel : nat) (self : t) (final_date : datetime)
    (rate total_action : Q) (st : loop_state) : result loop_state :=
  if (ls_date st <? final_date)%Z then
    match fuel with
    | O => Raise OutOfFuel
    | S fuel' =>
        st' ← loop_body self final_date rate total_action st;
        integrate fuel' self final_date rate total_action st'
    end
  else Ok st.

(** The loop states in which a turn of the loop starts, in order: the
    sub-increments of one macro timestep. *)
Fixpoint increments (fuel : nat) (self : t) (final_date : datetime)
    (rate total_action : Q) (st : loop_state) : list loop_state :=
  if (ls_date st <? final_date)%Z then
    match fuel with
    | O => []
    | S fuel' =>
        st :: match loop_body self final_date rate total_action st with
              | Ok st' =>
                  increments fuel' self final_date rate total_action st'
              | Raise _ => []
              end
    end
  else [].

(** The division in [evap_rates[month] / (100 * timestep_seconds)]. *)
Definition evaporation_rate_per_second (rate timestep_seconds : Q)
  : result Q :=
  if Qeq_bool (100 * timestep_seconds) 0 then Raise NonFinite
  else Ok (rate / (100 * timestep_seconds)).

(** The values [determine_outflow] computes before its loop: the final
    date, the length of the macro timestep in seconds, the evaporation
    rate per second, the storage and the summed action. *)
Record loop_setup := {
  su_final_date : datetime;
  su_timestep_seconds : Q;
  su_rate : Q;
  su_total_action : Q;
  su_start : loop_state
}.

Definition setup (self : t) (actions : list Q) : result loop_setup :=
  let total_action := Py.sum actions in
  current_storage ← Py.getitem (storage_vector self) (-1)%Z;
  let sub_releases := [] in
  current_date ← require (ControlledFacility.current_date (cf self));
  timestep_size ← require (ControlledFacility.timestep_size (cf self));
  let final_date := date_add current_date timestep_size in
  let timestep_seconds := total_seconds (final_date - current_date)%Z in
  month_rate ← Py.getitem (evap_rates self)
                 (Z.of_nat (determine_month self));
  rate ← evaporation_rate_per_second month_rate timestep_seconds;
  Ok {| su_final_date := final_date;
        su_timestep_seconds := timestep_seconds;
        su_rate := rate;
        su_total_action := total_action;
        su_start := {| ls_date := current_date;
                       ls_storage := current_storage;
                       ls_sub_releases := sub_releases |} |}.

Definition determine_outflow (fuel : nat) (self : t) (actions : list Q)
  : result (t * Q) :=
  su ← setup self actions;
  st ← integrate fuel self (su_final_date su) (su_rate su)
         (su_total_action su) (su_start su);
  let current_storage := ls_storage st in
  level ← storage_to_level self current_storage;
  average_release ← Py.mean (ls_sub_releases st);
  let split :=
    if ControlledFacility.should_split_release (cf self)
       && negb (Qeq_bool (su_total_action su) 0)
    then Some (map (fun action => action / su_total_action su) actions)
    else ControlledFacility.split_release (cf self) in
  let c := ControlledFacility.with_split_release split
             (ControlledFacility.with_current_date (Some (ls_date st))
                (cf self)) in
  Ok (with_cf c
        (with_histories current_storage
           (storage_vector self ++ [current_storage])
           (level_vector self ++ [level])
           (release_vector self ++ [average_release]) self),
      average_release).

Definition determine_reward (self : t) : result Q :=
  level ← storage_to_level self (stored_water self);
  py_call (ControlledFacility.objective_function (cf self)) level.

Definition determine_info (self : t) : result info :=
  Ok (ReservoirInfo (ControlledFacility.name (cf self))
        (stored_water self)
        (Py.last_or_none (level_vector self))
        (Py.last_or_none (release_vector self))
        (evap_rates self)).

Definition determine_observation (self : t) : Q := stored_water self.

Definition is_terminated (self : t) : bool :=
  gt_xfloat (stored_water self) (ControlledFacility.max_capacity (cf self))
  || Qlt_bool (stored_water self) 0.

#[global] Instance methods : ControlledFacility.Methods t := {|
  ControlledFacility.base := cf;
  ControlledFacility.with_base := with_cf;
  ControlledFacility.determine_reward := determine_reward;
  ControlledFacility.determine_outflow := determine_outflow;
  ControlledFacility.determine_observation := determine_observation;
  ControlledFacility.is_terminated := is_terminated;
  ControlledFacility.is_truncated := fun _ => false;
  ControlledFacility.determine_info := determine_info
|}.

Definition step (fuel : nat) (self : t) (action : list Q)
  : result (t * step_result) :=
  ControlledFacility.step methods fuel self action.

Definition set_inflow (self : t) (timestep : Z) (inflow : Q) : result t :=
  c ← ControlledFacility.set_inflow (cf self) timestep inflow;
  Ok (with_cf c self).

(** [Reservoir.reset] *)
Definition reset (self : t) : result t :=
  let self := with_cf (ControlledFacility.reset (cf self)) self in
  stored_water ← Py.getitem (storage_vector self) 0%Z;
  Ok (with_histories stored_water [stored_water] [] [] self).

End Reservoir.

(** ** [PowerPlant] *)

Module PowerPlant.
Local Open Scope Q_scope.

(** [scipy.constants.g], the standard acceleration of gravity. *)
Definition g : Q := 980665 # 100000.

(** The plant reads its reservoir through a reference it does not own: the
    position of the reservoir among the nodes of the system.  Methods that
    follow the reference receive the object it designates. *)
Record t := {
  fac : Facility.t;
  objective_function : Q -> Q;
  efficiency : Q;
  max_turbine_flow : Q;
  head_start_level : Q;
  min_turbine_flow : Q;
  max_capacity : xfloat;
  reservoir : option nat;
  water_usage : Q;
  production_vector : list Q
}.

Definition with_fac (f : Facility.t) (p : t) : t :=
  {| fac := f; objective_function := objective_function p;
     efficiency := efficiency p; max_turbine_flow := max_turbine_flow p;
     head_start_level := head_start_level p;
     min_turbine_flow := min_turbine_flow p;
     max_capacity := max_capacity p; reservoir := reservoir p;
     water_usage := water_usage p;
     production_vector := production_vector p |}.

Definition with_production_vector (v : list Q) (p : t) : t :=
  {| fac := fac p; objective_function := objective_function p;
     efficiency := efficiency p; max_turbine_flow := max_turbine_flow p;
     head_start_level := head_start_level p;
     min_turbine_flow := min_turbine_flow p;
     max_capacity := max_capacity p; reservoir := reservoir p;
     water_usage := water_usage p;
     production_vector := v |}.

Definition init (name : string) (objective_function : Q -> Q)
    (objective_name : string)
    (efficiency min_turbine_flow max_turbine_flow head_start_level : Q)
    (max_capacity : xfloat) (reservoir : option nat) (water_usage : Q)
  : t :=
  {| fac := Facility.init name objective_name;
     objective_function := objective_function;
     efficiency := efficiency;
     max_turbine_flow := max_turbine_flow;
     head_start_level := head_start_level;
     min_turbine_flow := min_turbine_flow;
     max_capacity := max_capacity;
     reservoir := reservoir;
     water_usage := water_usage;
     production_vector := [] |}.

Definition determine_turbine_flow (self : t) : result Q :=
  inflow ← Facility.get_inflow (fac self)
             (Z.of_nat (Facility.timestep (fac self)));
  Ok (Qmax (min_turbine_flow self) (Qmin (max_turbine_flow self) inflow)).

(** [min(self.max_capacity, x)] for a finite [x]. *)
Definition cap (c : xfloat) (x : Q) : result Q :=
  match c with
  | Finite q => Ok (Qmin q x)
  | PosInf => Ok x
  | NegInf => Raise NonFinite
  end.

Definition determine_production (res : option Reservoir.t) (self : t)
  : result (t * Q) :=
  let m3_to_kg_factor := 1000 in
  let w_Mw_conversion := 1 # 1000000 in
  turbine_flow ← determine_turbine_flow self;
  r ← match res with Some r => Ok r | None => Raise AttributeError end;
  let water_level := default 0 (Py.last_or_none (Reservoir.level_vector r)) in
  let head := Qmax 0 (water_level - head_start_level self) in
  power_in_mw ←
    cap (max_capacity self)
        (turbine_flow * head * m3_to_kg_factor * g * efficiency self
         * w_Mw_conversion);
  current_date ← require (Facility.current_date (fac self));
  timestep_size ← require (Facility.timestep_size (fac self));
  let final_date := date_add current_date timestep_size in
  let timestep_hours :=
    total_seconds (final_date - current_date)%Z / 3600 in
  let production := power_in_mw * timestep_hours in
  Ok (with_production_vector (production_vector self ++ [production]) self,
      production).

Definition determine_reward (res : option Reservoir.t) (self : t)
  : result (t * Q) :=
  '(self, production) ← determine_production res self;
  Ok (self, objective_function self production).

Definition determine_consumption (self : t) : result Q :=
  turbine_flow ← determine_turbine_flow self;
  Ok (turbine_flow * water_usage self).

Definition determine_info (self : t) : result info :=
  inflow ← Facility.get_inflow (fac self)
             (Z.of_nat (Facility.timestep (fac self)));
  outflow ← Facility.get_outflow (fac self)
              (Z.of_nat (Facility.timestep (fac self)));
  monthly ← Py.getitem (production_vector self) (-1)%Z;
  Ok (PowerPlantInfo (Facility.name (fac self)) inflow outflow monthly
        (water_usage self) (Py.sum (production_vector self))).

Definition methods (res : option Reservoir.t) : Facility.Methods t := {|
  Facility.base := fac;
  Facility.with_base := with_fac;
  Facility.determine_reward := determine_reward res;
  Facility.determine_consumption := determine_consumption;
  Facility.is_terminated := fun _ => false;
  Facility.is_truncated := fun _ => false;
  Facility.determine_info := determine_info
|}.

Definition step (res : option Reservoir.t) (self : t)
  : result (t * step_result) :=
  Facility.step (methods res) self.

Definition set_inflow (self : t) (timestep : Z) (inflow : Q) : result t :=
  f ← Facility.set_inflow (fac self) timestep inflow;
  Ok (with_fac f self).

Definition reset (self : t) : t :=
  with_production_vector [] (with_fac (Facility.reset (fac self)) self).

End PowerPlant.

(** ** [IrrigationDistrict] *)

Module IrrigationDistrict.
Local Open Scope Q_scope.

Record t := {
  fac : Facility.t;
  objective_function : Q -> Q -> Q;
  all_demand : list Q;
  total_deficit : Q;
  all_deficit : list Q
}.

Definition with_fac (f : Facility.t) (d : t) : t :=
  {| fac := f; objective_function := objective_function d;
     all_demand := all_demand d; total_deficit := total_deficit d;
     all_deficit := all_deficit d |}.

Definition with_deficit (total : Q) (all : list Q) (d : t) : t :=
  {| fac := fac d; objective_function := objective_function d;
     all_demand := all_demand d; total_deficit := total;
     all_deficit := all |}.

Definition init (name : string) (all_demand : list Q)
    (objective_function : Q -> Q -> Q) (objective_name : string) : t :=
  {| fac := Facility.init name objective_name;
     objective_function := objective_function;
     all_demand := all_demand;
     total_deficit := 0;
     all_deficit := [] |}.

(** [self.all_demand[self.timestep % len(self.all_demand)]] *)
Definition get_current_demand (self : t) : result Q :=
  match length (all_demand self) with
  | O => Raise ZeroDivisionError
  | n => Py.getitem (all_demand self)
           (Z.of_nat (Facility.timestep (fac self) mod n))
  end.

Definition determine_consumption (self : t) : result Q :=
  demand ← get_current_demand self;
  inflow ← Facility.get_inflow (fac self)
             (Z.of_nat (Facility.timestep (fac self)));
  Ok (Qmin demand inflow).

Definition determine_deficit (self : t) : result (t * Q) :=
  consumption ← determine_consumption self;
  demand ← get_current_demand self;
  let deficit := demand - consumption in
  Ok (with_deficit (total_deficit self + deficit)
                   (all_deficit self ++ [deficit]) self,
      deficit).

Definition determine_reward (self : t) : result (t * Q) :=
  demand ← get_current_demand self;
  inflow ← Facility.get_inflow (fac self)
             (Z.of_nat (Facility.timestep (fac self)));
  Ok (self, objective_function self demand inflow).

Definition is_truncated (self : t) : bool :=
  (length (all_demand self) <=? Facility.timestep (fac self))%nat.

Definition determine_info (self : t) : result info :=
  inflow ← Facility.get_inflow (fac self)
             (Z.of_nat (Facility.timestep (fac self)));
  outflow ← Facility.get_outflow (fac self)
              (Z.of_nat (Facility.timestep (fac self)));
  demand ← get_current_demand self;
  Ok (IrrigationInfo (Facility.name (fac self)) inflow outflow demand
        (total_deficit self) (all_deficit self)).

#[global] Instance methods : Facility.Methods t := {|
  Facility.base := fac;
  Facility.with_base := with_fac;
  Facility.determine_reward := determine_reward;
  Facility.determine_consumption := determine_consumption;
  Facility.is_terminated := fun _ => false;
  Facility.is_truncated := is_truncated;
  Facility.determine_info := determine_info
|}.

Definition step (self : t) : result (t * step_result) :=
  Facility.step methods self.

Definition set_inflow (self : t) (timestep : Z) (inflow : Q) : result t :=
  f ← Facility.set_inflow (fac self) timestep inflow;
  Ok (with_fac f self).

Definition reset (self : t) : t :=
  with_deficit 0 [] (with_fac (Facility.reset (fac self)) self).

End IrrigationDistrict.

(** ** [WaterManagementSystem] *)

Module WaterManagementSystem.

(** The members of [water_systems].  The class [Flow] (and its subclass
    [Inflow]) of [core/models/flow.py] is not among the sources: its state
    is the type parameter [Flow]. *)
Inductive node (Flow : Type) : Type :=
  | NReservoir (r : Reservoir.t)          (* a ControlledFacility *)
  | NPowerPlant (p : PowerPlant.t)        (* a Facility *)
  | NIrrigation (d : IrrigationDistrict.t) (* a Facility *)
  | NFlow (f : Flow).
Arguments NReservoir {Flow} r.
Arguments NPowerPlant {Flow} p.
Arguments NIrrigation {Flow} d.
Arguments NFlow {Flow} f.

(** What the orchestrator uses of a [Flow]: its name, the two attributes
    it assigns, [step] and [reset].  A flow's [step] runs on the nodes of
    the system, which it reaches through its sources and destinations; it
    returns its own new state, the nodes, and the [terminated],
    [truncated] and [info] components of its tuple. *)
Class FlowOps (Flow FlowInfo : Type) := {
  flow_name : Flow -> string;
  flow_set_current_date : datetime -> Flow -> Flow;
  flow_set_timestep_size : relativedelta -> Flow -> Flow;
  flow_step :
    Flow -> list (node Flow) ->
    result (Flow * list (node Flow) * (bool * bool * FlowInfo));
  flow_reset : Flow -> Flow
}.

Inductive info_entry (FlowInfo : Type) : Type :=
  | InfoDate (d : datetime)
  | InfoNode (i : info)
  | InfoFlow (i : FlowInfo).
Arguments InfoDate {FlowInfo} d.
Arguments InfoNode {FlowInfo} i.
Arguments InfoFlow {FlowInfo} i.

Record t (Flow : Type) := {
  water_systems : list (node Flow);
  rewards : list (string * Q);
  start_date : datetime;
  current_date : datetime;
  timestep_size : relativedelta;
  timestep : nat;
  observation : list Q
}.
Arguments water_systems {Flow} _.
Arguments rewards {Flow} _.
Arguments start_date {Flow} _.
Arguments current_date {Flow} _.
Arguments timestep_size {Flow} _.
Arguments timestep {Flow} _.
Arguments observation {Flow} _.

(** What one node hands to the loop of [step]. *)
Record outcome (FlowInfo : Type) := {
  o_name : string;
  o_controlled : bool;              (* isinstance(_, ControlledFacility) *)
  o_objective : option string;      (* objective_name; None for a Flow *)
  o_observation : option Q;
  o_reward : Q;
  o_terminated : bool;
  o_truncated : bool;
  o_info : info_entry FlowInfo
}.
Arguments o_name {FlowInfo} _.
Arguments o_controlled {FlowInfo} _.
Arguments o_objective {FlowInfo} _.
Arguments o_observation {FlowInfo} _.
Arguments o_reward {FlowInfo} _.
Arguments o_terminated {FlowInfo} _.
Arguments o_truncated {FlowInfo} _.
Arguments o_info {FlowInfo} _.

(** The local variables of [step]. *)
Record accum (FlowInfo : Type) := {
  final_reward : list (string * Q);
  final_observation : list (string * Q);
  final_terminated : bool;
  final_truncated : bool;
  final_info : list (string * info_entry FlowInfo)
}.
Arguments final_reward {FlowInfo} _.
Arguments final_observation {FlowInfo} _.
Arguments final_terminated {FlowInfo} _.
Arguments final_truncated {FlowInfo} _.
Arguments final_info {FlowInfo} _.

Section Orchestrator.
Context {Flow FlowInfo : Type} {ops : FlowOps Flow FlowInfo}.

(** [water_system.current_date = d] *)
Definition set_current_date (d : datetime) (n : node Flow) : node Flow :=
  match n with
  | NReservoir r =>
      NReservoir
        (Reservoir.with_cf
           (ControlledFacility.with_current_date (Some d)
              (Reservoir.cf r)) r)
  | NPowerPlant p =>
      NPowerPlant
        (PowerPlant.with_fac
           (Facility.with_current_date (Some d) (PowerPlant.fac p)) p)
  | NIrrigation i =>
      NIrrigation
        (IrrigationDistrict.with_fac
           (Facility.with_current_date (Some d)
              (IrrigationDistrict.fac i)) i)
  | NFlow f => NFlow (flow_set_current_date d f)
  end.

(** [water_system.timestep_size = d] *)
Definition set_timestep_size (d : relativedelta) (n : node Flow)
  : node Flow :=
  match n with
  | NReservoir r =>
      NReservoir
        (Reservoir.with_cf
           (ControlledFacility.with_timestep_size (Some d)
              (Reservoir.cf r)) r)
  | NPowerPlant p =>
      NPowerPlant
        (PowerPlant.with_fac
           (Facility.with_timestep_size (Some d) (PowerPlant.fac p)) p)
  | NIrrigation i =>
      NIrrigation
        (IrrigationDistrict.with_fac
           (Facility.with_timestep_size (Some d)
              (IrrigationDistrict.fac i)) i)
  | NFlow f => NFlow (flow_set_timestep_size d f)
  end.

(** [water_system.set_inflow(timestep, inflow)], for the flows that
    write into a destination. *)
Definition node_set_inflow (n : node Flow) (timestep : Z) (inflow : Q)
  : result (node Flow) :=
  match n with
  | NReservoir r =>
      r' ← Reservoir.set_inflow r timestep inflow; Ok (NReservoir r')
  | NPowerPlant p =>
      p' ← PowerPlant.set_inflow p timestep inflow; Ok (NPowerPlant p')
  | NIrrigation i =>
      i' ← IrrigationDistrict.set_inflow i timestep inflow;
      Ok (NIrrigation i')
  | NFlow _ => Raise AttributeError
  end.

(** [water_system.reset()] *)
Definition node_reset (n : node Flow) : result (node Flow) :=
  match n with
  | NReservoir r => r' ← Reservoir.reset r; Ok (NReservoir r')
  | NPowerPlant p => Ok (NPowerPlant (PowerPlant.reset p))
  | NIrrigation i => Ok (NIrrigation (IrrigationDistrict.reset i))
  | NFlow f => Ok (NFlow (flow_reset f))
  end.

(** The object behind a plant's [reservoir] attribute. *)
Definition resolve (nodes : list (node Flow)) (p : PowerPlant.t)
  : option Reservoir.t :=
  match PowerPlant.reservoir p with
  | None => None
  | Some k =>
      match nodes !! k with
      | Some (NReservoir r) => Some r
      | _ => None
      end
  end.

Definition _determine_observation (nodes : list (node Flow)) : list Q :=
  omap (fun n => match n with
                 | NReservoir r => Some (Reservoir.determine_observation r)
                 | _ => None
                 end) nodes.

(** [WaterManagementSystem.__init__] *)
Definition init (water_systems : list (node Flow))
    (rewards : list (string * Q)) (start_date : datetime)
    (timestep_size : relativedelta) : t Flow :=
  {| water_systems :=
       map (fun n => set_timestep_size timestep_size
                       (set_current_date start_date n)) water_systems;
     rewards := rewards;
     start_date := start_date;
     current_date := start_date;
     timestep_size := timestep_size;
     timestep := 0;
     observation := _determine_observation water_systems |}.

(** [for water_system in self.water_systems: ... water_system.reset()] *)
Fixpoint reset_nodes (d : datetime) (nodes : list (node Flow))
  : result (list (node Flow)) :=
  match nodes with
  | [] => Ok []
  | n :: rest =>
      n' ← node_reset (set_current_date d n);
      rest' ← reset_nodes d rest;
      Ok (n' :: rest')
  end.

(** [WaterManagementSystem.reset]; the second component is the
    observation it returns. *)
Definition reset (self : t Flow) : result (t Flow * list Q) :=
  let current_date := start_date self in
  let timestep := 0%nat in
  let observation := _determine_observation (water_systems self) in
  let rewards := map (fun kv => (kv.1, 0%Q)) (rewards self) in
  nodes ← reset_nodes (start_date self) (water_systems self);
  Ok ({| water_systems := nodes;
         rewards := rewards;
         start_date := start_date self;
         current_date := current_date;
         timestep_size := timestep_size self;
         timestep := timestep;
         observation := observation |},
      observation).

Definition of_step_result (name : string) (controlled : bool)
    (objective_name : string) (r : step_result) : outcome FlowInfo :=
  {| o_name := name; o_controlled := controlled;
     o_objective := Some objective_name;
     o_observation := sr_observation r;
     o_reward := sr_reward r;
     o_terminated := sr_terminated r; o_truncated := sr_truncated r;
     o_info := InfoNode (sr_info r) |}.

(** The first half of the loop body: assign the date to the node at
    position [i] and call its [step]. *)
Definition step_node (fuel : nat) (action : list (string * list Q))
    (date : datetime) (i : nat) (nodes : list (node Flow))
  : result (list (node Flow) * outcome FlowInfo) :=
  match set_current_date date <$> nodes !! i with
  | None => Raise IndexError
  | Some (NReservoir r) =>
      let nm := ControlledFacility.name (Reservoir.cf r) in
      a ← Py.dict_get action nm;
      '(r', res) ← Reservoir.step fuel r a;
      Ok (<[i := NReservoir r']> nodes,
          of_step_result nm true
            (ControlledFacility.objective_name (Reservoir.cf r')) res)
  | Some (NPowerPlant p) =>
      '(p', res) ← PowerPlant.step (resolve nodes p) p;
      Ok (<[i := NPowerPlant p']> nodes,
          of_step_result (Facility.name (PowerPlant.fac p')) false
            (Facility.objective_name (PowerPlant.fac p')) res)
  | Some (NIrrigation d) =>
      '(d', res) ← IrrigationDistrict.step d;
      Ok (<[i := NIrrigation d']> nodes,
          of_step_result (Facility.name (IrrigationDistrict.fac d')) false
            (Facility.objective_name (IrrigationDistrict.fac d')) res)
  | Some (NFlow f) =>
      '(f', nodes', (term, trunc, inf)) ←
        flow_step f (<[i := NFlow f]> nodes);
      Ok (<[i := NFlow f']> nodes',
          {| o_name := flow_name f'; o_controlled := false;
             o_objective := None; o_observation := None;
             o_reward := 0%Q;
             o_terminated := term; o_truncated := trunc;
             o_info := InfoFlow inf |})
  end.

Definition _is_truncated : bool := false.

(** The second half of the loop body: fold the node's tuple into the
    local variables of [step]. *)
Definition accumulate (acc : accum FlowInfo) (o : outcome FlowInfo)
  : result (accum FlowInfo) :=
  let final_observation :=
    if o_controlled o then
      match o_observation o with
      | Some obs => Py.dict_set (final_observation acc) (o_name o) obs
      | None => final_observation acc
      end
    else final_observation acc in
  final_reward ←
    match o_objective o with
    | Some objective_name =>
        if negb (String.eqb objective_name EmptyString) then
          old ← Py.dict_get (final_reward acc) objective_name;
          Ok (Py.dict_set (final_reward acc) objective_name
                (old + o_reward o)%Q)
        else Ok (final_reward acc)
    | None => Ok (final_reward acc)
    end;
  Ok {| final_reward := final_reward;
        final_observation := final_observation;
        final_terminated := final_terminated acc || o_terminated o;
        final_truncated :=
          final_truncated acc || o_truncated o || _is_truncated;
        final_info := Py.dict_set (final_info acc) (o_name o) (o_info o)
     |}.

(** [for water_system in self.water_systems: ...] over the positions
    [i, i+1, ..., i+count-1], with the [break]. *)
Fixpoint run (fuel : nat) (action : list (string * list Q))
    (date : datetime) (i count : nat) (nodes : list (node Flow))
    (acc : accum FlowInfo)
  : result (list (node Flow) * accum FlowInfo) :=
  match count with
  | O => Ok (nodes, acc)
  | S count' =>
      '(nodes, o) ← step_node fuel action date i nodes;
      acc ← accumulate acc o;
      if final_terminated acc || final_truncated acc
      then Ok (nodes, acc)
      else run fuel action date (S i) count' nodes acc
  end.

(** The tuple returned by [step]. *)
Record step_output := {
  out_observation : list Q;
  out_reward : list Q;
  out_terminated : bool;
  out_truncated : bool;
  out_info : list (string * info_entry FlowInfo)
}.

(** The local variables of [step] before its loop. *)
Definition initial_accum (self : t Flow) : accum FlowInfo :=
  {| final_reward := map (fun kv => (kv.1, 0%Q)) (rewards self);
     final_observation := [];
     final_terminated := false;
     final_truncated := false;
     final_info := [("date"%string, InfoDate (current_date self))] |}.

(** [WaterManagementSystem.step] *)
Definition step (fuel : nat) (self : t Flow)
    (action : list (string * list Q)) : result (t Flow * step_output) :=
  '(nodes, acc) ←
    run fuel action (current_date self) 0
        (length (water_systems self)) (water_systems self)
        (initial_accum self);
  Ok ({| water_systems := nodes;
         rewards := rewards self;
         start_date := start_date self;
         current_date :=
           date_add (current_date self) (timestep_size self);
         timestep := S (timestep self);
         timestep_size := timestep_size self;
         observation := observation self |},
      {| out_observation := map snd (final_observation acc);
         out_reward := map snd (final_reward acc);
         out_terminated := final_terminated acc;
         out_truncated := final_truncated acc;
         out_info := final_info acc |}).

(** What a step of a node advances: the outflow history and the local
    step counter of a facility; for a flow, whose fields are not known, the
    flow itself. *)
Definition node_progress (n : node Flow) : (list Q * nat) + Flow :=
  match n with
  | NReservoir r =>
      inl (ControlledFacility.all_outflow (Reservoir.cf r),
           ControlledFacility.timestep (Reservoir.cf r))
  | NPowerPlant p =>
      inl (Facility.all_outflow (PowerPlant.fac p),
           Facility.timestep (PowerPlant.fac p))
  | NIrrigation d =>
      inl (Facility.all_outflow (IrrigationDistrict.fac d),
           Facility.timestep (IrrigationDistrict.fac d))
  | NFlow f => inr f
  end.

(** Modelled from the spec: the [step] of [Flow], whose module
    [core/models/flow.py] is not among the sources.  Section 2: a flow takes
    the outflow of its sources and distributes it, by fixed weights, as
    inflow to its destinations at the same timestep index.  Its step
    therefore neither adds nor removes nodes, and leaves the outflow
    histories and step counters of the facilities, and the other flows, as
    they are. *)
Definition flows_only_route : Prop :=
  forall f nodes f' nodes' res,
    flow_step f nodes = Ok (f', nodes', res) ->
    length nodes' = length nodes
    /\ forall j, node_progress <$> nodes' !! j = node_progress <$> nodes !! j.

(** A node as [reset] leaves it, compared with the node before: the ledgers
    and histories are empty, the counters and totals are zero, and the
    storage history of a reservoir is cut back to its first entry. *)
Definition at_episode_zero (start : datetime) (before after : node Flow)
  : Prop :=
  match before, after with
  | NReservoir r, NReservoir r' =>
      Reservoir.storage_vector r' = take 1 (Reservoir.storage_vector r)
      /\ Some (Reservoir.stored_water r') = head (Reservoir.storage_vector r)
      /\ Reservoir.level_vector r' = []
      /\ Reservoir.release_vector r' = []
      /\ ControlledFacility.all_inflow (Reservoir.cf r') = []
      /\ ControlledFacility.all_outflow (Reservoir.cf r') = []
      /\ ControlledFacility.timestep (Reservoir.cf r') = 0%nat
  | NPowerPlant p, NPowerPlant p' =>
      PowerPlant.production_vector p' = []
      /\ Facility.all_inflow (PowerPlant.fac p') = []
      /\ Facility.all_outflow (PowerPlant.fac p') = []
      /\ Facility.timestep (PowerPlant.fac p') = 0%nat
  | NIrrigation d, NIrrigation d' =>
      IrrigationDistrict.total_deficit d' = 0%Q
      /\ IrrigationDistrict.all_deficit d' = []
      /\ Facility.all_inflow (IrrigationDistrict.fac d') = []
      /\ Facility.all_outflow (IrrigationDistrict.fac d') = []
      /\ Facility.timestep (IrrigationDistrict.fac d') = 0%nat
  | NFlow f, NFlow f' => f' = flow_reset (flow_set_current_date start f)
  | _, _ => False
  end.

End Orchestrator.

End WaterManagementSystem.


(** ** Statements about the inflow ledger *)

(** What [set_inflow(timestep, inflow)] does to an object whose inflow
    history is [ledger self], [update l self] being the object with the
    history replaced by [l]:
    - at the current length the value is appended;
    - at a position already written the value is added to the slot, where
      a negative position counts from the end as Python indices do;
    - anywhere else the call raises [IndexError], before any assignment. *)
Definition inflow_contract {S : Type} (ledger : S -> list Q)
    (update : list Q -> S -> S)
    (set_inflow : S -> Z -> Q -> result S) : Prop :=
  forall (self : S) (timestep : Z) (inflow : Q),
    let n := Z.of_nat (length (ledger self)) in
    (timestep = n ->
       set_inflow self timestep inflow
       = Ok (update (ledger self ++ [inflow]) self)) /\
    ((0 <= timestep < n)%Z ->
       exists old,
         ledger self !! Z.to_nat timestep = Some old /\
         set_inflow self timestep inflow
         = Ok (update (<[Z.to_nat timestep := (old + inflow)%Q]> (ledger self))
                      self)) /\
    ((- n <= timestep < 0)%Z ->
       exists old,
         ledger self !! Z.to_nat (n + timestep) = Some old /\
         set_inflow self timestep inflow
         = Ok (update (<[Z.to_nat (n + timestep) := (old + inflow)%Q]>
                         (ledger self)) self)) /\
    ((n < timestep \/ timestep < - n)%Z ->
       set_inflow self timestep inflow = Raise IndexError).

(** Two writes to the slot that is empty at [timestep]: 5, then 3. *)
Definition write_5_then_3 {S : Type} (set_inflow : S -> Z -> Q -> result S)
    (self : S) (timestep : Z) : result S :=
  self' ← set_inflow self timestep 5%Q;
  set_inflow self' timestep 3%Q.


(** ** Scenarios *)

Module Scenario.
Local Open Scope Q_scope.

(** An irrigation district with the two-month demand schedule [100, 80],
    rewarded by the (negated) shortfall. *)
Definition district : IrrigationDistrict.t :=
  IrrigationDistrict.init "district" [100; 80]
    (fun demand inflow => - Qmax 0 (demand - inflow)) "deficit".

(** A district driven through an inflow sequence: at each tick the upstream
    edge writes the inflow of the tick, the deficit is recorded with
    [determine_deficit], and the node is stepped. *)
Fixpoint drive_district (d : IrrigationDistrict.t) (inflows : list Q)
  : result IrrigationDistrict.t :=
  match inflows with
  | [] => Ok d
  | q :: rest =>
      d ← IrrigationDistrict.set_inflow d
            (Z.of_nat (Facility.timestep (IrrigationDistrict.fac d))) q;
      '(d, _) ← IrrigationDistrict.determine_deficit d;
      '(d, _) ← IrrigationDistrict.step d;
      drive_district d rest
  end.

(** The single reservoir of the end-to-end scenario: level linear from 0 to
    100 over the storages 0 to 1000, releases bounded by the constant curve
    [0, 50], no evaporation, sub-steps of 15 minutes; constructed with the
    capacity 1000 and the storage 100. *)
Definition box : Box :=
  {| low := Finite 0; high := Finite 1000; shape := [1%nat] |}.

Definition reservoir : Reservoir.t :=
  Reservoir.init "reservoir" box box (PyFunction (fun level => level))
    (rd_minutes 15) (replicate 12 0)
    [[0; 1000]; [0; 0]; [50; 50]]
    [[0; 1000]; [0; 100]]
    [[0; 1000]; [0; 10]]
    "level" (Finite 1000) 100.

(** The reservoir once the orchestrator has assigned its clock (start of
    the epoch, timestep of one hour) and an edge has written the inflow 30
    for its first step. *)
Definition clocked : Reservoir.t :=
  Reservoir.with_cf
    (ControlledFacility.with_timestep_size (Some (rd_hours 1))
       (ControlledFacility.with_current_date (Some 0%Z)
          (Reservoir.cf reservoir))) reservoir.

Definition ready : Reservoir.t :=
  Reservoir.with_cf
    (ControlledFacility.with_all_inflow [30] (Reservoir.cf clocked)) clocked.

(** The reservoir with the histories its first step leaves (release 20 out
    of an inflow of 30 over one hour), and a plant below it that is fed 20
    for its first step. *)
Definition levelled : Reservoir.t :=
  Reservoir.with_histories 36100 [100; 36100] [100] [20] ready.

Definition plant : PowerPlant.t :=
  PowerPlant.with_fac
    (Facility.with_all_inflow [20]
       (Facility.with_timestep_size (Some (rd_hours 1))
          (Facility.with_current_date (Some 0%Z)
             (Facility.init "plant" "energy"))))
    (PowerPlant.init "plant" (fun production => production) "energy"
       (79 # 100) 0 50 0 (Finite 1000000) (Some 0%nat) 0).

(** Systems without routing edges. *)
#[global] Instance no_flows
  : WaterManagementSystem.FlowOps Empty_set Empty_set := {|
  WaterManagementSystem.flow_name := fun f : Empty_set => match f with end;
  WaterManagementSystem.flow_set_current_date := fun _ f => f;
  WaterManagementSystem.flow_set_timestep_size := fun _ f => f;
  WaterManagementSystem.flow_step :=
    fun (f : Empty_set) _ => match f with end;
  WaterManagementSystem.flow_reset := fun f => f
|}.

(** The reservoir of the scenario, fed 30 for its first step before the
    system is assembled around it. *)
Definition fed : Reservoir.t :=
  Reservoir.with_cf
    (ControlledFacility.with_all_inflow [30] (Reservoir.cf reservoir))
    reservoir.

Definition system : WaterManagementSystem.t Empty_set :=
  WaterManagementSystem.init [WaterManagementSystem.NReservoir fed]
    [("level"%string, 0)] 0%Z (rd_hours 1).

(** Modelled from the spec: a pure inflow edge (section 3: an edge without
    sources), the class [Inflow] of [core/models/flow.py] not being among
    the sources.  At each step it writes the entry of its record for the
    current timestep index into its destination with [set_inflow]. *)
Record feed := {
  feed_name : string;
  feed_destination : nat;       (* position of the destination node *)
  feed_record : list Q;
  feed_timestep : nat
}.

Definition feed_step (f : feed)
    (nodes : list (WaterManagementSystem.node feed))
  : result (feed * list (WaterManagementSystem.node feed)
            * (bool * bool * Q)) :=
  v ← Py.getitem (feed_record f) (Z.of_nat (feed_timestep f));
  match nodes !! feed_destination f with
  | None => Raise IndexError
  | Some n =>
      n' ← WaterManagementSystem.node_set_inflow n
             (Z.of_nat (feed_timestep f)) v;
      Ok ({| feed_name := feed_name f;
             feed_destination := feed_destination f;
             feed_record := feed_record f;
             feed_timestep := S (feed_timestep f) |},
          <[feed_destination f := n']> nodes,
          (false, false, v))
  end.

#[global] Instance feed_ops : WaterManagementSystem.FlowOps feed Q := {|
  WaterManagementSystem.flow_name := feed_name;
  WaterManagementSystem.flow_set_current_date := fun _ f => f;
  WaterManagementSystem.flow_set_timestep_size := fun _ f => f;
  WaterManagementSystem.flow_step := feed_step;
  WaterManagementSystem.flow_reset :=
    fun f => {| feed_name := feed_name f;
                feed_destination := feed_destination f;
                feed_record := feed_record f;
                feed_timestep := 0 |}
|}.

(** A chain of five nodes: an edge feeding 60 to a district, an edge
    feeding nothing to the reservoir, the district, the reservoir, from
    which 50 is released, and a second district, which no edge feeds. *)
Definition chain_system : WaterManagementSystem.t feed :=
  WaterManagementSystem.init
    [WaterManagementSystem.NFlow
       {| feed_name := "to_district"; feed_destination := 2;
          feed_record := [60]; feed_timestep := 0 |};
     WaterManagementSystem.NFlow
       {| feed_name := "to_reservoir"; feed_destination := 3;
          feed_record := [0]; feed_timestep := 0 |};
     WaterManagementSystem.NIrrigation district;
     WaterManagementSystem.NReservoir reservoir;
     WaterManagementSystem.NIrrigation district]
    [("deficit"%string, 0); ("level"%string, 0)] 0%Z (rd_hours 1).

End Scenario.


(** ** Histories of a reservoir *)

(** The states a reservoir whose storage was seeded with [seed] can be in:
    it is constructed, the orchestrator assigns its clock attributes, flows
    write its inflow, it is stepped and it is reset. *)
Inductive reachable (seed : Q) : Reservoir.t -> Prop :=
  | reach_init name observation_space action_space objective_function
      integration_timestep_size evap_rates storage_to_minmax_rel
      storage_to_level_rel storage_to_surface_rel objective_name
      max_capacity :
      reachable seed
        (Reservoir.init name observation_space action_space
           objective_function integration_timestep_size evap_rates
           storage_to_minmax_rel storage_to_level_rel storage_to_surface_rel
           objective_name max_capacity seed)
  | reach_current_date r d :
      reachable seed r ->
      reachable seed
        (Reservoir.with_cf
           (ControlledFacility.with_current_date d (Reservoir.cf r)) r)
  | reach_timestep_size r d :
      reachable seed r ->
      reachable seed
        (Reservoir.with_cf
           (ControlledFacility.with_timestep_size d (Reservoir.cf r)) r)
  | reach_set_inflow r t v r' :
      reachable seed r ->
      Reservoir.set_inflow r t v = Ok r' ->
      reachable seed r'
  | reach_step r fuel action r' res :
      reachable seed r ->
      Reservoir.step fuel r action = Ok (r', res) ->
      reachable seed r'
  | reach_reset r r' :
      reachable seed r ->
      Reservoir.reset r = Ok r' ->
      reachable seed r'.

(** The invariant of the storage history. *)
Definition storage_invariant (seed : Q) (r : Reservoir.t) : Prop :=
  length (Reservoir.storage_vector r)
  = S (ControlledFacility.timestep (Reservoir.cf r))
  /\ Reservoir.storage_vector r !! 0%nat = Some seed
  /\ last (Reservoir.storage_vector r) = Some (Reservoir.stored_water r).


(** ** Statements about curves *)

(** Consecutive entries of [x0 :: l] are related by [R]. *)
Fixpoint chain (R : Q -> Q -> Prop) (x0 : Q) (l : list Q) : Prop :=
  match l with
  | [] => True
  | x1 :: l' => R x0 x1 /\ chain R x1 l'
  end.

Definition strictly_increasing (l : list Q) : Prop :=
  match l with
  | [] => True
  | x0 :: l' => chain Qlt x0 l'
  end.

Definition non_decreasing (l : list Q) : Prop :=
  match l with
  | [] => True
  | x0 :: l' => chain Qle x0 l'
  end.

(** Two outcomes that agree: the same exception, or equal numbers. *)
Definition same_outcome (a b : result Q) : Prop :=
  match a, b with
  | Ok x, Ok y => (x == y)%Q
  | Raise e, Raise e' => e = e'
  | _, _ => False
  end.

(** A supplied [left] value does not exceed the first ordinate, a supplied
    [right] value is not below the last one. *)
Definition clamps_in_order (fp : list Q) (left right : option Q) : Prop :=
  (forall l y0, left = Some l -> head fp = Some y0 -> (l <= y0)%Q)
  /\ (forall r yn, right = Some r -> last fp = Some yn -> (yn <= r)%Q).


(** ** Statements about the integration loop *)

(** The dates of the loop of [determine_outflow] do not depend on the
    storage: [fuel] turns are enough when the date reaches [final_date]
    within them. *)
Fixpoint dates_reach (fuel : nat) (integration_timestep_size : relativedelta)
    (final_date d : datetime) : bool :=
  if (d <? final_date)%Z then
    match fuel with
    | O => false
    | S fuel' =>
        dates_reach fuel' integration_timestep_size final_date
          (Z.min final_date (date_add d integration_timestep_size))
    end
  else true.

(** The action [a] lies within the feasible release bounds at the storage
    of the loop state [st]. *)
Definition within_bounds (r : Reservoir.t) (a : Q)
    (st : Reservoir.loop_state) : Prop :=
  forall lo hi,
    Reservoir.storage_to_minmax r (Reservoir.ls_storage st) = Ok (lo, hi) ->
    (lo <= a <= hi)%Q.

(** A curve numpy accepts. *)
Definition valid_curve (xp fp : list Q) : Prop :=
  xp <> [] /\ length xp = length fp.

(** A reservoir that is configured and fed for its next step: the clock is
    assigned and the timestep has a positive length that the sub-steps
    cover within [fuel] turns, the inflow [q] of the step is written, the
    evaporation table has the month, the curves are valid and the
    objective is callable. *)
Record steppable (fuel : nat) (r : Reservoir.t) (d : datetime)
    (ts : relativedelta) (q : Q) : Prop := {
  st_date : ControlledFacility.current_date (Reservoir.cf r) = Some d;
  st_size : ControlledFacility.timestep_size (Reservoir.cf r) = Some ts;
  st_positive : (d < date_add d ts)%Z;
  st_fuel :
    dates_reach fuel (Reservoir.integration_timestep_size r)
                (date_add d ts) d = true;
  st_inflow :
    ControlledFacility.all_inflow (Reservoir.cf r)
      !! ControlledFacility.timestep (Reservoir.cf r) = Some q;
  st_evap :
    is_Some (Reservoir.evap_rates r !! Reservoir.determine_month r);
  st_storage : Reservoir.storage_vector r <> [];
  st_level :
    exists xp fp,
      Reservoir.storage_to_level_rel r !! 0%nat = Some xp
      /\ Reservoir.storage_to_level_rel r !! 1%nat = Some fp
      /\ valid_curve xp fp;
  st_surface :
    exists xp fp,
      Reservoir.storage_to_surface_rel r !! 0%nat = Some xp
      /\ Reservoir.storage_to_surface_rel r !! 1%nat = Some fp
      /\ valid_curve xp fp;
  st_minmax :
    exists xp fmin fmax,
      Reservoir.storage_to_minmax_rel r !! 0%nat = Some xp
      /\ Reservoir.storage_to_minmax_rel r !! 1%nat = Some fmin
      /\ Reservoir.storage_to_minmax_rel r !! 2%nat = Some fmax
      /\ valid_curve xp fmin /\ valid_curve xp fmax;
  st_objective :
    exists f,
      ControlledFacility.objective_function (Reservoir.cf r) = PyFunction f
}.


(** ** Further statements *)

(** Two successive writes to the inflow slot of [timestep]. *)
Definition write_twice {S : Type} (set_inflow : S -> Z -> Q -> result S)
    (self : S) (timestep : Z) (first second : Q) : result S :=
  self' ← set_inflow self timestep first;
  set_inflow self' timestep second.


(** Further objects for the examples. *)
Module Fixtures.
Local Open Scope Q_scope.

(** The district of the scenario once 130 has been written for its first
    step: 30 more than it demands. *)
Definition district_fed : IrrigationDistrict.t :=
  IrrigationDistrict.with_fac
    (Facility.with_all_inflow [130]
       (IrrigationDistrict.fac Scenario.district)) Scenario.district.

(** A district without a demand schedule, fed 10. *)
Definition district_without_schedule : IrrigationDistrict.t :=
  IrrigationDistrict.with_fac
    (Facility.with_all_inflow [10]
       (Facility.init "idle" "deficit"))
    (IrrigationDistrict.init "idle" [] (fun demand inflow => 0) "deficit").

End Fixtures.


(** More objects for the examples. *)
Module Fixtures2.
Local Open Scope Q_scope.

(** The reservoir of the scenario with an action of two components, given
    its clock and fed 30 for its first step. *)
Definition splitter : Reservoir.t :=
  let r :=
    Reservoir.init "splitter"
      Scenario.box {| low := Finite 0; high := Finite 50; shape := [2%nat] |}
      (PyFunction (fun level => level))
      (rd_minutes 15) (replicate 12 0)
      [[0; 1000]; [0; 0]; [50; 50]]
      [[0; 1000]; [0; 100]]
      [[0; 1000]; [0; 10]]
      "level" PosInf 100 in
  Reservoir.with_cf
    (ControlledFacility.with_all_inflow [30]
       (ControlledFacility.with_timestep_size (Some (rd_hours 1))
          (ControlledFacility.with_current_date (Some 0%Z)
             (Reservoir.cf r)))) r.

(** The reservoir of the scenario with sub-steps of 25 minutes, which do
    not divide the hour. *)
Definition uneven : Reservoir.t :=
  let r :=
    Reservoir.init "uneven" Scenario.box Scenario.box
      (PyFunction (fun level => level))
      (rd_minutes 25) (replicate 12 0)
      [[0; 1000]; [0; 0]; [50; 50]]
      [[0; 1000]; [0; 100]]
      [[0; 1000]; [0; 10]]
      "level" PosInf 100 in
  Reservoir.with_cf
    (ControlledFacility.with_all_inflow [30]
       (ControlledFacility.with_timestep_size (Some (rd_hours 1))
          (ControlledFacility.with_current_date (Some 0%Z)
             (Reservoir.cf r)))) r.

End Fixtures2.


(** The upper release bound at the storage of [st] is at most [H]. *)
Definition release_capped (r : Reservoir.t) (H : Q)
    (st : Reservoir.loop_state) : Prop :=
  forall lo hi,
    Reservoir.storage_to_minmax r (Reservoir.ls_storage st) = Ok (lo, hi) ->
    (hi <= H)%Q.

(** The release bounds at the storage of [st] are in order, and the lower
    one is at least [L]. *)
Definition release_floored (r : Reservoir.t) (L : Q)
    (st : Reservoir.loop_state) : Prop :=
  forall lo hi,
    Reservoir.storage_to_minmax r (Reservoir.ls_storage st) = Ok (lo, hi) ->
    (L <= lo <= hi)%Q.


(** A facility whose [step] has run once: one outflow is appended to its
    history and its local step counter is one higher.  Of an edge, whose
    fields are not known, nothing is said. *)
Definition stepped_once {Flow : Type}
    (before after : (list Q * nat) + Flow) : Prop :=
  match before, after with
  | inl (outflows, t), inl (outflows', t') =>
      t' = S t /\ exists q, outflows' = outflows ++ [q]
  | inr _, inr _ => True
  | _, _ => False
  end.

(** The first entry of the storage history of each reservoir, in the order
    of the nodes. *)
Definition first_storages {Flow : Type}
    (nodes : list (WaterManagementSystem.node Flow)) : list Q :=
  omap (fun n => match n with
                 | WaterManagementSystem.NReservoir r =>
                     head (Reservoir.storage_vector r)
                 | _ => None
                 end) nodes.


(* ===================================================================== *)
(** * Properties *)
(* ===================================================================== *)

(** ** The [result] monad *)

Lemma bind_Ok {A B} (m : result A) (k : A -> result B) (b : B) :
  m ≫= k = Ok b <-> exists a, m = Ok a /\ k a = Ok b.
Proof.
  unfold mbind, result_mbind, result_bind.
  destruct m as [a|e]; split.
  - intros H. exists a. auto.
  - intros (a' & Ha & Hk). congruence.
  - discriminate.
  - intros (a' & Ha & _). discriminate.
Qed.

Lemma bind_Ok_l {A B} (m : result A) (k : A -> result B) (a : A) :
  m = Ok a -> m ≫= k = k a.
Proof. intros ->. reflexivity. Qed.

Lemma bind_Raise_l {A B} (m : result A) (k : A -> result B) (e : exn) :
  m = Raise e -> m ≫= k = Raise e.
Proof. intros ->. reflexivity. Qed.

(** Split a hypothesis [m ≫= k = Ok b] into its two halves. *)
Tactic Notation "inv_bind" hyp(H) "as" ident(a) ident(Ha) :=
  apply bind_Ok in H; destruct H as (a & Ha & H).

(** ** Python indexing *)

Lemma norm_index_nonneg {A} (l : list A) (i : Z) :
  (0 <= i < Z.of_nat (length l))%Z ->
  Py.norm_index l i = Some (Z.to_nat i).
Proof.
  intros [H0 H1]. unfold Py.norm_index.
  destruct (Z.leb_spec 0 i); [|lia].
  destruct (Z.ltb_spec i (Z.of_nat (length l))); [reflexivity|lia].
Qed.

Lemma norm_index_negative {A} (l : list A) (i : Z) :
  (- Z.of_nat (length l) <= i < 0)%Z ->
  Py.norm_index l i = Some (Z.to_nat (Z.of_nat (length l) + i)).
Proof.
  intros [H0 H1]. unfold Py.norm_index.
  destruct (Z.leb_spec 0 i); [lia|].
  destruct (Z.leb_spec (- Z.of_nat (length l)) i); [reflexivity|lia].
Qed.

Lemma norm_index_out {A} (l : list A) (i : Z) :
  (i < - Z.of_nat (length l) \/ Z.of_nat (length l) <= i)%Z ->
  Py.norm_index l i = None.
Proof.
  intros H. unfold Py.norm_index.
  destruct (Z.leb_spec 0 i).
  - destruct (Z.ltb_spec i (Z.of_nat (length l))); [lia|reflexivity].
  - destruct (Z.leb_spec (- Z.of_nat (length l)) i); [lia|reflexivity].
Qed.

Lemma norm_index_lt {A} (l : list A) (i : Z) (k : nat) :
  Py.norm_index l i = Some k -> (k < length l)%nat.
Proof.
  unfold Py.norm_index.
  destruct (Z.leb_spec 0 i).
  - destruct (Z.ltb_spec i (Z.of_nat (length l))); [|discriminate].
    intros [= <-]. lia.
  - destruct (Z.leb_spec (- Z.of_nat (length l)) i); [|discriminate].
    intros [= <-]. lia.
Qed.

Lemma getitem_nat {A} (l : list A) (k : nat) (a : A) :
  l !! k = Some a -> Py.getitem l (Z.of_nat k) = Ok a.
Proof.
  intros H. unfold Py.getitem.
  rewrite norm_index_nonneg.
  - rewrite Nat2Z.id, H. reflexivity.
  - apply lookup_lt_Some in H. lia.
Qed.

Lemma getitem_nat_inv {A} (l : list A) (k : nat) (a : A) :
  Py.getitem l (Z.of_nat k) = Ok a -> l !! k = Some a.
Proof.
  unfold Py.getitem, Py.norm_index.
  destruct (Z.leb_spec 0 (Z.of_nat k)); [|lia].
  destruct (Z.ltb_spec (Z.of_nat k) (Z.of_nat (length l))); [|discriminate].
  rewrite Nat2Z.id. destruct (l !! k); [congruence|discriminate].
Qed.

Lemma getitem_last {A} (l : list A) (a : A) :
  Py.getitem (l ++ [a]) (-1)%Z = Ok a.
Proof.
  unfold Py.getitem. rewrite norm_index_negative.
  - rewrite length_app. simpl.
    replace (Z.to_nat (Z.of_nat (length l + 1) + -1)) with (length l) by lia.
    rewrite lookup_app_r by lia. rewrite Nat.sub_diag. reflexivity.
  - rewrite length_app. simpl. lia.
Qed.

Lemma getitem_last_inv {A} (l : list A) (a : A) :
  Py.getitem l (-1)%Z = Ok a -> last l = Some a.
Proof.
  destruct l as [|x l0] using rev_ind.
  - discriminate.
  - rewrite getitem_last. intros [= ->]. apply last_snoc.
Qed.

(** ** The inflow ledger *)

Lemma ledger_set_inflow_append (l : list Q) (v : Q) :
  Ledger.set_inflow l (Z.of_nat (length l)) v = Ok (l ++ [v]).
Proof. unfold Ledger.set_inflow. rewrite Z.eqb_refl. reflexivity. Qed.

Lemma ledger_set_inflow_slot (l : list Q) (t : Z) (k : nat) (v : Q) :
  t <> Z.of_nat (length l) ->
  Py.norm_index l t = Some k ->
  exists old, l !! k = Some old /\
              Ledger.set_inflow l t v = Ok (<[k := (old + v)%Q]> l).
Proof.
  intros Hne Hk. pose proof (norm_index_lt _ _ _ Hk) as Hlt.
  destruct (lookup_lt_is_Some_2 l k Hlt) as [old Hold].
  exists old. split; [exact Hold|].
  unfold Ledger.set_inflow.
  destruct (Z.eqb_spec (Z.of_nat (length l)) t) as [E|_]; [congruence|].
  assert (Hgt : (Z.of_nat (length l) >? t)%Z = true).
  { apply Z.gtb_lt. unfold Py.norm_index in Hk.
    destruct (Z.leb_spec 0 t).
    - destruct (Z.ltb_spec t (Z.of_nat (length l))); [lia|discriminate].
    - lia. }
  rewrite Hgt. unfold Py.getitem, Py.setitem. rewrite Hk, Hold. reflexivity.
Qed.

Lemma ledger_set_inflow_fault (l : list Q) (t : Z) (v : Q) :
  (Z.of_nat (length l) < t \/ t < - Z.of_nat (length l))%Z ->
  Ledger.set_inflow l t v = Raise IndexError.
Proof.
  intros H. unfold Ledger.set_inflow.
  destruct (Z.eqb_spec (Z.of_nat (length l)) t) as [E|_]; [lia|].
  destruct (Z.gtb_spec (Z.of_nat (length l)) t) as [Hgt|_]; [|reflexivity].
  unfold Py.getitem. rewrite norm_index_out by lia. reflexivity.
Qed.

Lemma ledger_contract :
  inflow_contract (fun l : list Q => l) (fun l _ => l) Ledger.set_inflow.
Proof.
  intros l t v n. subst n. repeat split.
  - intros ->. apply ledger_set_inflow_append.
  - intros H. apply ledger_set_inflow_slot; [lia|].
    apply norm_index_nonneg. exact H.
  - intros H. apply ledger_set_inflow_slot; [lia|].
    apply norm_index_negative. exact H.
  - apply ledger_set_inflow_fault.
Qed.

(** C4.  For both node classes, [set_inflow(t, v)] appends [v] when [t] is
    the current length of the inflow history, adds [v] into the slot when
    [t] designates a slot already written (so that 5 and then 3 written to
    the slot that is empty at [t] leave 8 there), and raises [IndexError]
    when [t] exceeds the length; the fault is raised before any assignment,
    so the history of the object is the one it had. *)
Theorem set_inflow_appends_accumulates_or_faults :
  inflow_contract Facility.all_inflow Facility.with_all_inflow
                  Facility.set_inflow
  /\ inflow_contract ControlledFacility.all_inflow
                     ControlledFacility.with_all_inflow
                     ControlledFacility.set_inflow
  /\ (forall f : Facility.t,
        exists f', write_5_then_3 Facility.set_inflow f
                     (Z.of_nat (length (Facility.all_inflow f))) = Ok f'
                   /\ exists x, Facility.all_inflow f'
                                = Facility.all_inflow f ++ [x]
                                /\ (x == 8)%Q)
  /\ (forall c : ControlledFacility.t,
        exists c', write_5_then_3 ControlledFacility.set_inflow c
                     (Z.of_nat (length (ControlledFacility.all_inflow c)))
                   = Ok c'
                   /\ exists x, ControlledFacility.all_inflow c'
                                = ControlledFacility.all_inflow c ++ [x]
                                /\ (x == 8)%Q).
Proof.
  split; [|split; [|split]].
  - intros f t v n.
    destruct (ledger_contract (Facility.all_inflow f) t v)
      as (Ha & Hb & Hc & Hd).
    unfold Facility.set_inflow. repeat split.
    + intros E. rewrite (Ha E). reflexivity.
    + intros E. destruct (Hb E) as (old & Hold & ->). eauto.
    + intros E. destruct (Hc E) as (old & Hold & ->). eauto.
    + intros E. rewrite (Hd E). reflexivity.
  - intros c t v n.
    destruct (ledger_contract (ControlledFacility.all_inflow c) t v)
      as (Ha & Hb & Hc & Hd).
    unfold ControlledFacility.set_inflow. repeat split.
    + intros E. rewrite (Ha E). reflexivity.
    + intros E. destruct (Hb E) as (old & Hold & ->). eauto.
    + intros E. destruct (Hc E) as (old & Hold & ->). eauto.
    + intros E. rewrite (Hd E). reflexivity.
  - intros f. unfold write_5_then_3, Facility.set_inflow.
    rewrite ledger_set_inflow_append. simpl.
    destruct (ledger_set_inflow_slot (Facility.all_inflow f ++ [5%Q])
                (Z.of_nat (length (Facility.all_inflow f)))
                (length (Facility.all_inflow f)) 3%Q)
      as (old & Hold & ->).
    { rewrite length_app. simpl. lia. }
    { rewrite norm_index_nonneg, Nat2Z.id; [reflexivity|].
      rewrite length_app. simpl. lia. }
    rewrite lookup_app_r, Nat.sub_diag in Hold by lia.
    injection Hold as <-. simpl.
    eexists; split; [reflexivity|]. simpl.
    exists (5 + 3)%Q. split; [|reflexivity].
    replace (length (Facility.all_inflow f))
      with (length (Facility.all_inflow f) + 0)%nat at 1 by lia.
    rewrite insert_app_r. reflexivity.
  - intros c. unfold write_5_then_3, ControlledFacility.set_inflow.
    rewrite ledger_set_inflow_append. simpl.
    destruct (ledger_set_inflow_slot
                (ControlledFacility.all_inflow c ++ [5%Q])
                (Z.of_nat (length (ControlledFacility.all_inflow c)))
                (length (ControlledFacility.all_inflow c)) 3%Q)
      as (old & Hold & ->).
    { rewrite length_app. simpl. lia. }
    { rewrite norm_index_nonneg, Nat2Z.id; [reflexivity|].
      rewrite length_app. simpl. lia. }
    rewrite lookup_app_r, Nat.sub_diag in Hold by lia.
    injection Hold as <-. simpl.
    eexists; split; [reflexivity|]. simpl.
    exists (5 + 3)%Q. split; [|reflexivity].
    replace (length (ControlledFacility.all_inflow c))
      with (length (ControlledFacility.all_inflow c) + 0)%nat at 1 by lia.
    rewrite insert_app_r. reflexivity.
Qed.

(** Witness of C4: a history [1, 2] written at position 1, and an empty
    history written at position 1. *)
Lemma set_inflow_appends_accumulates_or_faults_witness :
  Facility.set_inflow
    (Facility.with_all_inflow [1%Q; 2%Q] (Facility.init "n" "")) 1 5%Q
  = Ok (Facility.with_all_inflow [1%Q; (2 + 5)%Q] (Facility.init "n" ""))
  /\ Facility.set_inflow (Facility.init "n" "") 1 5%Q = Raise IndexError.
Proof.
  destruct set_inflow_appends_accumulates_or_faults as (HF & _).
  split.
  - destruct (HF (Facility.with_all_inflow [1%Q; 2%Q] (Facility.init "n" ""))
                 1%Z 5%Q) as (_ & Hb & _).
    destruct Hb as (old & Hold & Heq); [simpl; lia|].
    simpl in Hold. injection Hold as <-. exact Heq.
  - destruct (HF (Facility.init "n" "") 1%Z 5%Q) as (_ & _ & _ & Hd).
    apply Hd. simpl. lia.
Defined.

(** ** Irrigation districts *)

Lemma Qmin_diff_nonneg (a b : Q) : (0 <= a - Qmin a b)%Q.
Proof.
  pose proof (Q.le_min_l a b) as H. lra.
Qed.

Lemma district_current_demand (d : IrrigationDistrict.t) (demand : Q) :
  IrrigationDistrict.all_demand d
    !! (Facility.timestep (IrrigationDistrict.fac d)
        mod length (IrrigationDistrict.all_demand d))%nat = Some demand ->
  IrrigationDistrict.get_current_demand d = Ok demand.
Proof.
  intros H. unfold IrrigationDistrict.get_current_demand.
  destruct (length (IrrigationDistrict.all_demand d)) as [|n] eqn:E.
  - apply lookup_lt_Some in H. lia.
  - apply getitem_nat. exact H.
Qed.

Lemma district_demand_outflow_frame (d : IrrigationDistrict.t) (l : list Q) :
  IrrigationDistrict.get_current_demand
    (IrrigationDistrict.with_fac
       (Facility.with_all_outflow l (IrrigationDistrict.fac d)) d)
  = IrrigationDistrict.get_current_demand d.
Proof. reflexivity. Qed.

Lemma facility_get_inflow_outflow_frame (f : Facility.t) (l : list Q) (t : Z) :
  Facility.get_inflow (Facility.with_all_outflow l f) t
  = Facility.get_inflow f t.
Proof. reflexivity. Qed.

(** C9 (amended).  At local step [t] the consumption of a district is
    [min(demand[t mod schedule length], inflow[t])]; [determine_deficit]
    appends [demand - consumption], which is never negative, to the deficit
    history and adds it to the running total, so that the schedule
    [100, 80] with inflows [60, 90] gives the deficits [40, 0] and the total
    40; [step] reports truncation exactly when the local step counter it
    starts from has reached the length of the schedule. *)
Theorem district_consumption_deficit_truncation :
  (forall (d : IrrigationDistrict.t) (demand inflow : Q),
     let t := Facility.timestep (IrrigationDistrict.fac d) in
     let deficit := (demand - Qmin demand inflow)%Q in
     IrrigationDistrict.all_demand d
       !! (t mod length (IrrigationDistrict.all_demand d))%nat
       = Some demand ->
     Facility.all_inflow (IrrigationDistrict.fac d) !! t = Some inflow ->
     IrrigationDistrict.determine_consumption d = Ok (Qmin demand inflow)
     /\ IrrigationDistrict.determine_deficit d
        = Ok (IrrigationDistrict.with_deficit
                (IrrigationDistrict.total_deficit d + deficit)%Q
                (IrrigationDistrict.all_deficit d ++ [deficit]) d,
              deficit)
     /\ (0 <= deficit)%Q
     /\ ((t <= length (Facility.all_outflow (IrrigationDistrict.fac d)))%nat ->
         exists d' res,
           IrrigationDistrict.step d = Ok (d', res)
           /\ (sr_truncated res = true
               <-> (length (IrrigationDistrict.all_demand d) <= t)%nat)
           /\ Facility.timestep (IrrigationDistrict.fac d') = S t
           /\ Facility.all_outflow (IrrigationDistrict.fac d')
              = Facility.all_outflow (IrrigationDistrict.fac d)
                  ++ [(inflow - Qmin demand inflow)%Q]))
  /\ (exists d,
        Scenario.drive_district Scenario.district [60%Q; 90%Q] = Ok d
        /\ Forall2 Qeq (IrrigationDistrict.all_deficit d) [40%Q; 0%Q]
        /\ (IrrigationDistrict.total_deficit d == 40)%Q).
Proof.
  split.
  - intros d demand inflow t deficit Hdem Hin.
    pose proof (district_current_demand d demand Hdem) as Hcur.
    assert (Hget : Facility.get_inflow (IrrigationDistrict.fac d)
                     (Z.of_nat t) = Ok inflow).
    { apply getitem_nat. exact Hin. }
    assert (Hcons : IrrigationDistrict.determine_consumption d
                    = Ok (Qmin demand inflow)).
    { unfold IrrigationDistrict.determine_consumption.
      rewrite Hcur. simpl. fold t. rewrite Hget. reflexivity. }
    split; [exact Hcons|]. split; [|split].
    + unfold IrrigationDistrict.determine_deficit.
      rewrite Hcons. simpl. rewrite Hcur. reflexivity.
    + apply Qmin_diff_nonneg.
    + intros Hout.
      destruct (lookup_lt_is_Some_2
                  (Facility.all_outflow (IrrigationDistrict.fac d)
                     ++ [(inflow - Qmin demand inflow)%Q]) t)
        as [o Ho].
      { rewrite length_app. simpl. lia. }
      unfold IrrigationDistrict.step, Facility.step, Facility.determine_outflow.
      cbn [Facility.base Facility.with_base Facility.determine_reward
           Facility.determine_consumption Facility.is_terminated
           Facility.is_truncated Facility.determine_info
           IrrigationDistrict.methods].
      fold t. rewrite Hget. simpl. rewrite Hcons. simpl.
      unfold IrrigationDistrict.determine_reward.
      rewrite district_demand_outflow_frame, Hcur. simpl.
      rewrite facility_get_inflow_outflow_frame. fold t. rewrite Hget. simpl.
      unfold IrrigationDistrict.determine_info.
      rewrite district_demand_outflow_frame, Hcur. simpl.
      rewrite facility_get_inflow_outflow_frame. fold t. rewrite Hget. simpl.
      unfold Facility.get_outflow, Ledger.get. simpl. fold t.
      rewrite (getitem_nat _ _ _ Ho). simpl.
      eexists _, _. split; [reflexivity|]. simpl.
      split; [|split; reflexivity].
      unfold IrrigationDistrict.is_truncated. simpl. fold t.
      apply Nat.leb_le.
  - eexists. split; [vm_compute; reflexivity|]. split.
    + repeat constructor.
    + reflexivity.
Qed.

(** Counterexample to C9 as stated: on the schedule [100, 80] with the
    inflows [60, 90] the recorded deficits are not [40, -10] and their total
    is not 30. *)
Lemma district_deficits_are_not_40_minus_10 :
  ~ (exists d,
       Scenario.drive_district Scenario.district [60%Q; 90%Q] = Ok d
       /\ Forall2 Qeq (IrrigationDistrict.all_deficit d) [40%Q; (-10)%Q]
       /\ (IrrigationDistrict.total_deficit d == 30)%Q).
Proof.
  intros (d & Hd & _ & Htot).
  vm_compute in Hd. injection Hd as <-.
  vm_compute in Htot. discriminate.
Qed.

(** Witness of C9: the district of the scenario once 60 has been written
    for its first step. *)
Lemma district_consumption_deficit_truncation_witness :
  exists d,
    IrrigationDistrict.set_inflow Scenario.district 0 60%Q = Ok d
    /\ IrrigationDistrict.determine_consumption d = Ok (Qmin 100 60)
    /\ exists d' res, IrrigationDistrict.step d = Ok (d', res)
                      /\ sr_truncated res = false.
Proof.
  eexists. split; [reflexivity|].
  destruct district_consumption_deficit_truncation as [H _].
  match goal with
  | |- IrrigationDistrict.determine_consumption ?d = _ /\ _ =>
      destruct (H d 100%Q 60%Q eq_refl eq_refl) as (Hc & _ & _ & Hs)
  end.
  split; [exact Hc|].
  destruct Hs as (d' & res & Hstep & Htr & _); [simpl; lia|].
  exists d', res. split; [exact Hstep|].
  destruct (sr_truncated res); [|reflexivity].
  destruct Htr as [Htr _]. specialize (Htr eq_refl). simpl in Htr. lia.
Defined.

(** ** One step of a reservoir *)

(** What a successful [Reservoir.step] has computed and written. *)
Lemma reservoir_step_inv (fuel : nat) (r r' : Reservoir.t) (action : list Q)
    (res : step_result) :
  Reservoir.step fuel r action = Ok (r', res) ->
  exists su st level avg,
    Reservoir.setup r action = Ok su
    /\ Reservoir.integrate fuel r (Reservoir.su_final_date su)
         (Reservoir.su_rate su) (Reservoir.su_total_action su)
         (Reservoir.su_start su) = Ok st
    /\ Reservoir.storage_to_level r (Reservoir.ls_storage st) = Ok level
    /\ Py.mean (Reservoir.ls_sub_releases st) = Ok avg
    /\ (exists r1, Reservoir.determine_outflow fuel r action = Ok (r1, avg))
    /\ Reservoir.storage_vector r'
       = Reservoir.storage_vector r ++ [Reservoir.ls_storage st]
    /\ Reservoir.stored_water r' = Reservoir.ls_storage st
    /\ Reservoir.level_vector r' = Reservoir.level_vector r ++ [level]
    /\ Reservoir.release_vector r' = Reservoir.release_vector r ++ [avg]
    /\ ControlledFacility.timestep (Reservoir.cf r')
       = S (ControlledFacility.timestep (Reservoir.cf r))
    /\ ControlledFacility.all_outflow (Reservoir.cf r')
       = ControlledFacility.all_outflow (Reservoir.cf r) ++ [avg]
    /\ ControlledFacility.all_inflow (Reservoir.cf r')
       = ControlledFacility.all_inflow (Reservoir.cf r)
    /\ ControlledFacility.max_capacity (Reservoir.cf r')
       = ControlledFacility.max_capacity (Reservoir.cf r)
    /\ sr_observation res = Some (Reservoir.ls_storage st)
    /\ sr_terminated res = Reservoir.is_terminated r'
    /\ sr_truncated res = false.
Proof.
  unfold Reservoir.step, ControlledFacility.step.
  cbn [ControlledFacility.base ControlledFacility.with_base
       ControlledFacility.determine_reward
       ControlledFacility.determine_outflow
       ControlledFacility.determine_observation
       ControlledFacility.is_terminated ControlledFacility.is_truncated
       ControlledFacility.determine_info Reservoir.methods].
  intros H. inv_bind H as x Hout. destruct x as [r1 out].
  inv_bind H as rew Hrew. inv_bind H as inf Hinf. injection H as <- <-.
  unfold Reservoir.determine_outflow in Hout.
  inv_bind Hout as su Hsu.
  inv_bind Hout as st Hst.
  inv_bind Hout as level Hlevel.
  inv_bind Hout as avg Havg.
  injection Hout as <- <-.
  exists su, st, level, avg.
  repeat split; try reflexivity; try assumption.
  eexists. unfold Reservoir.determine_outflow.
  rewrite Hsu. simpl. rewrite Hst. simpl. rewrite Hlevel. simpl.
  rewrite Havg. reflexivity.
Qed.

(** What a successful [Reservoir.determine_outflow] has computed, written
    and returned. *)
Lemma determine_outflow_inv (fuel : nat) (r r' : Reservoir.t)
    (action : list Q) (out : Q) :
  Reservoir.determine_outflow fuel r action = Ok (r', out) ->
  exists su st level,
    Reservoir.setup r action = Ok su
    /\ Reservoir.integrate fuel r (Reservoir.su_final_date su)
         (Reservoir.su_rate su) (Reservoir.su_total_action su)
         (Reservoir.su_start su) = Ok st
    /\ Reservoir.storage_to_level r (Reservoir.ls_storage st) = Ok level
    /\ Py.mean (Reservoir.ls_sub_releases st) = Ok out
    /\ Reservoir.storage_vector r'
       = Reservoir.storage_vector r ++ [Reservoir.ls_storage st]
    /\ Reservoir.stored_water r' = Reservoir.ls_storage st
    /\ Reservoir.level_vector r' = Reservoir.level_vector r ++ [level]
    /\ Reservoir.release_vector r' = Reservoir.release_vector r ++ [out].
Proof.
  unfold Reservoir.determine_outflow. intros H.
  inv_bind H as su Hsu. inv_bind H as st Hst.
  inv_bind H as level Hlevel. inv_bind H as avg Havg.
  injection H as <- <-.
  exists su, st, level. repeat split; try reflexivity; assumption.
Qed.

Lemma reservoir_set_inflow_inv (r r' : Reservoir.t) (t : Z) (v : Q) :
  Reservoir.set_inflow r t v = Ok r' ->
  exists l,
    Ledger.set_inflow (ControlledFacility.all_inflow (Reservoir.cf r)) t v
    = Ok l
    /\ r' = Reservoir.with_cf
              (ControlledFacility.with_all_inflow l (Reservoir.cf r)) r.
Proof.
  unfold Reservoir.set_inflow, ControlledFacility.set_inflow. intros H.
  inv_bind H as c Hc. inv_bind Hc as l Hl.
  injection Hc as <-. injection H as <-. eauto.
Qed.

(** ** The storage history *)

Lemma storage_invariant_init name observation_space action_space
    objective_function integration_timestep_size evap_rates
    storage_to_minmax_rel storage_to_level_rel storage_to_surface_rel
    objective_name max_capacity seed :
  storage_invariant seed
    (Reservoir.init name observation_space action_space objective_function
       integration_timestep_size evap_rates storage_to_minmax_rel
       storage_to_level_rel storage_to_surface_rel objective_name
       max_capacity seed).
Proof. repeat split. Qed.

Lemma storage_invariant_step seed fuel r action r' res :
  storage_invariant seed r ->
  Reservoir.step fuel r action = Ok (r', res) ->
  storage_invariant seed r'.
Proof.
  intros (Hlen & Hhead & Hlast) Hstep.
  apply reservoir_step_inv in Hstep.
  destruct Hstep as (su & st & level & avg & _ & _ & _ & _ & _
                     & Hsv & Hsw & _ & _ & Hts & _).
  unfold storage_invariant. rewrite Hsv, Hsw, Hts. repeat split.
  - rewrite length_app, Hlen. simpl. lia.
  - rewrite lookup_app_l; [exact Hhead|]. rewrite Hlen. lia.
  - apply last_snoc.
Qed.

Lemma storage_invariant_reset seed r :
  storage_invariant seed r ->
  exists r', Reservoir.reset r = Ok r' /\ storage_invariant seed r'
             /\ Reservoir.storage_vector r' = [seed]
             /\ Reservoir.stored_water r' = seed
             /\ Reservoir.level_vector r' = []
             /\ Reservoir.release_vector r' = []
             /\ ControlledFacility.timestep (Reservoir.cf r') = 0%nat
             /\ ControlledFacility.all_inflow (Reservoir.cf r') = []
             /\ ControlledFacility.all_outflow (Reservoir.cf r') = [].
Proof.
  intros (Hlen & Hhead & Hlast).
  unfold Reservoir.reset.
  cbn [Reservoir.storage_vector Reservoir.with_cf].
  pose proof (getitem_nat _ 0%nat seed Hhead) as H0.
  change (Z.of_nat 0) with 0%Z in H0. rewrite H0. simpl.
  eexists. split; [reflexivity|]. repeat split.
Qed.

(** C7.  After construction, after every step and after every reset of a
    reservoir, [storage_vector] has one entry more than the local step
    count, its first entry is the storage the reservoir was constructed
    with, and [stored_water] is its last entry; a reset of such a reservoir
    always succeeds. *)
Theorem storage_vector_one_ahead_of_step_count (seed : Q) (r : Reservoir.t) :
  reachable seed r ->
  length (Reservoir.storage_vector r)
  = S (ControlledFacility.timestep (Reservoir.cf r))
  /\ Reservoir.storage_vector r !! 0%nat = Some seed
  /\ last (Reservoir.storage_vector r) = Some (Reservoir.stored_water r)
  /\ exists r', Reservoir.reset r = Ok r'.
Proof.
  intros Hreach.
  assert (Hinv : storage_invariant seed r).
  { induction Hreach as [ | r d _ IH | r d _ IH | r t v r' _ IH Hset
                          | r fuel action r' res _ IH Hstep
                          | r r' _ IH Hreset ].
    - apply storage_invariant_init.
    - exact IH.
    - exact IH.
    - apply reservoir_set_inflow_inv in Hset.
      destruct Hset as (l & _ & ->). exact IH.
    - eapply storage_invariant_step; eassumption.
    - destruct (storage_invariant_reset seed r IH) as (r2 & Hr2 & Hinv2 & _).
      rewrite Hreset in Hr2. injection Hr2 as <-. exact Hinv2. }
  destruct Hinv as (Hlen & Hhead & Hlast).
  repeat split; try assumption.
  destruct (storage_invariant_reset seed r) as (r2 & Hr2 & _).
  - repeat split; assumption.
  - eauto.
Qed.

Lemma scenario_ready_reachable : reachable 100 Scenario.ready.
Proof.
  apply (reach_set_inflow 100 Scenario.clocked 0 30); [|reflexivity].
  apply (reach_timestep_size 100
           (Reservoir.with_cf
              (ControlledFacility.with_current_date (Some 0%Z)
                 (Reservoir.cf Scenario.reservoir)) Scenario.reservoir)
           (Some (rd_hours 1))).
  apply reach_current_date, reach_init.
Qed.

(** Witness of C7: the reservoir of the scenario after one step. *)
Lemma storage_vector_one_ahead_of_step_count_witness :
  exists r res,
    Reservoir.step 4 Scenario.ready [20%Q] = Ok (r, res)
    /\ length (Reservoir.storage_vector r) = 2%nat
    /\ last (Reservoir.storage_vector r) = Some (Reservoir.stored_water r).
Proof.
  destruct (Reservoir.step 4 Scenario.ready [20%Q]) as [[r res]|e] eqn:E;
    [|vm_compute in E; discriminate].
  exists r, res. split; [reflexivity|].
  assert (Hr : reachable 100 r).
  { eapply reach_step; [apply scenario_ready_reachable|exact E]. }
  destruct (storage_vector_one_ahead_of_step_count 100 r Hr)
    as (Hlen & _ & Hlast & _).
  split; [|exact Hlast].
  rewrite Hlen.
  apply reservoir_step_inv in E.
  destruct E as (su & st & level & avg
                 & _ & _ & _ & _ & _ & _ & _ & _ & _ & Hts & _).
  rewrite Hts. reflexivity.
Defined.

(** ** Termination of a reservoir *)

(** The capacity given to the constructor does not reach the object. *)
Lemma reservoir_init_max_capacity name observation_space action_space
    objective_function integration_timestep_size evap_rates
    storage_to_minmax_rel storage_to_level_rel storage_to_surface_rel
    objective_name max_capacity stored_water :
  ControlledFacility.max_capacity
    (Reservoir.cf
       (Reservoir.init name observation_space action_space
          objective_function integration_timestep_size evap_rates
          storage_to_minmax_rel storage_to_level_rel storage_to_surface_rel
          objective_name max_capacity stored_water))
  = PosInf.
Proof. reflexivity. Qed.

(** With the capacity the object holds, [is_terminated] answers whether the
    storage is negative. *)
Lemma reservoir_is_terminated_unbounded (r : Reservoir.t) :
  ControlledFacility.max_capacity (Reservoir.cf r) = PosInf ->
  Reservoir.is_terminated r = Qlt_bool (Reservoir.stored_water r) 0.
Proof. intros H. unfold Reservoir.is_terminated. rewrite H. reflexivity. Qed.

(** [is_terminated] for a reservoir whose object holds a finite capacity. *)
Lemma reservoir_is_terminated_spec (r : Reservoir.t) (M : Q) :
  ControlledFacility.max_capacity (Reservoir.cf r) = Finite M ->
  Reservoir.is_terminated r = true
  <-> (M < Reservoir.stored_water r \/ Reservoir.stored_water r < 0)%Q.
Proof.
  intros H. unfold Reservoir.is_terminated, Qlt_bool. rewrite H. simpl.
  rewrite orb_true_iff, !negb_true_iff.
  split; intros [H1|H1]; [left|right|left|right].
  - apply Qnot_le_lt. intros Hle. apply Qle_bool_iff in Hle. congruence.
  - apply Qnot_le_lt. intros Hle. apply Qle_bool_iff in Hle. congruence.
  - destruct (Qle_bool (Reservoir.stored_water r) M) eqn:E; [|reflexivity].
    apply Qle_bool_iff in E. lra.
  - destruct (Qle_bool 0 (Reservoir.stored_water r)) eqn:E; [|reflexivity].
    apply Qle_bool_iff in E. lra.
Qed.

(** C2, evaluated.  The reservoir of the scenario is constructed with
    [max_capacity] 1000; one step with inflow 30 and release 20 over an hour
    takes its storage from 100 to 36100, above the capacity, and the step
    reports [terminated = False]. *)
Theorem reservoir_above_capacity_not_terminated :
  exists r res,
    Reservoir.step 4 Scenario.ready [20%Q] = Ok (r, res)
    /\ (Reservoir.stored_water r == 36100)%Q
    /\ (1000 < Reservoir.stored_water r)%Q
    /\ sr_terminated res = false
    /\ Reservoir.is_terminated r = false.
Proof.
  destruct (Reservoir.step 4 Scenario.ready [20%Q]) as [[r res]|e] eqn:E;
    [|vm_compute in E; discriminate].
  exists r, res. split; [reflexivity|].
  vm_compute in E. injection E as <- <-.
  repeat split; reflexivity.
Qed.

(** ** Symbolic execution *)

(** Reduce the binds on [Ok] values and the field accesses on updated
    records, and nothing else. *)
Ltac norm :=
  cbn [mbind result_mbind result_bind mret result_ret require
       fst snd default from_option
       Facility.name Facility.all_inflow Facility.all_outflow
       Facility.objective_name Facility.current_date Facility.timestep_size
       Facility.timestep Facility.split_release
       Facility.with_all_inflow Facility.with_all_outflow
       Facility.with_timestep Facility.with_current_date
       Facility.with_timestep_size Facility.reset Facility.init
       Facility.base Facility.with_base Facility.determine_reward
       Facility.determine_consumption Facility.is_terminated
       Facility.is_truncated Facility.determine_info
       ControlledFacility.name ControlledFacility.all_inflow
       ControlledFacility.all_outflow ControlledFacility.observation_space
       ControlledFacility.action_space ControlledFacility.objective_function
       ControlledFacility.objective_name ControlledFacility.max_capacity
       ControlledFacility.current_date ControlledFacility.timestep_size
       ControlledFacility.timestep ControlledFacility.should_split_release
       ControlledFacility.split_release
       ControlledFacility.with_all_inflow ControlledFacility.with_all_outflow
       ControlledFacility.with_objective ControlledFacility.with_current_date
       ControlledFacility.with_timestep_size ControlledFacility.with_timestep
       ControlledFacility.with_split_release ControlledFacility.reset
       ControlledFacility.init
       ControlledFacility.base ControlledFacility.with_base
       ControlledFacility.determine_reward
       ControlledFacility.determine_outflow
       ControlledFacility.determine_observation
       ControlledFacility.is_terminated ControlledFacility.is_truncated
       ControlledFacility.determine_info
       Reservoir.cf Reservoir.stored_water Reservoir.evap_rates
       Reservoir.storage_to_minmax_rel Reservoir.storage_to_level_rel
       Reservoir.storage_to_surface_rel Reservoir.storage_vector
       Reservoir.level_vector Reservoir.release_vector
       Reservoir.integration_timestep_size
       Reservoir.with_cf Reservoir.with_histories Reservoir.methods
       Reservoir.ls_date Reservoir.ls_storage Reservoir.ls_sub_releases
       Reservoir.su_final_date Reservoir.su_timestep_seconds
       Reservoir.su_rate Reservoir.su_total_action Reservoir.su_start
       PowerPlant.fac PowerPlant.objective_function PowerPlant.efficiency
       PowerPlant.max_turbine_flow PowerPlant.head_start_level
       PowerPlant.min_turbine_flow PowerPlant.max_capacity
       PowerPlant.reservoir PowerPlant.water_usage
       PowerPlant.production_vector
       PowerPlant.with_fac PowerPlant.with_production_vector
       PowerPlant.methods
       IrrigationDistrict.fac IrrigationDistrict.objective_function
       IrrigationDistrict.all_demand IrrigationDistrict.total_deficit
       IrrigationDistrict.all_deficit
       IrrigationDistrict.with_fac IrrigationDistrict.with_deficit
       IrrigationDistrict.methods
       sr_observation sr_reward sr_terminated sr_truncated sr_info].

Tactic Notation "norm" "in" hyp(H) :=
  cbn [mbind result_mbind result_bind mret result_ret require
       fst snd default from_option
       Facility.name Facility.all_inflow Facility.all_outflow
       Facility.objective_name Facility.current_date Facility.timestep_size
       Facility.timestep Facility.split_release
       Facility.with_all_inflow Facility.with_all_outflow
       Facility.with_timestep Facility.with_current_date
       Facility.with_timestep_size Facility.reset Facility.init
       Facility.base Facility.with_base Facility.determine_reward
       Facility.determine_consumption Facility.is_terminated
       Facility.is_truncated Facility.determine_info
       ControlledFacility.name ControlledFacility.all_inflow
       ControlledFacility.all_outflow ControlledFacility.observation_space
       ControlledFacility.action_space ControlledFacility.objective_function
       ControlledFacility.objective_name ControlledFacility.max_capacity
       ControlledFacility.current_date ControlledFacility.timestep_size
       ControlledFacility.timestep ControlledFacility.should_split_release
       ControlledFacility.split_release
       ControlledFacility.with_all_inflow ControlledFacility.with_all_outflow
       ControlledFacility.with_objective ControlledFacility.with_current_date
       ControlledFacility.with_timestep_size ControlledFacility.with_timestep
       ControlledFacility.with_split_release ControlledFacility.reset
       ControlledFacility.init
       ControlledFacility.base ControlledFacility.with_base
       ControlledFacility.determine_reward
       ControlledFacility.determine_outflow
       ControlledFacility.determine_observation
       ControlledFacility.is_terminated ControlledFacility.is_truncated
       ControlledFacility.determine_info
       Reservoir.cf Reservoir.stored_water Reservoir.evap_rates
       Reservoir.storage_to_minmax_rel Reservoir.storage_to_level_rel
       Reservoir.storage_to_surface_rel Reservoir.storage_vector
       Reservoir.level_vector Reservoir.release_vector
       Reservoir.integration_timestep_size
       Reservoir.with_cf Reservoir.with_histories Reservoir.methods
       Reservoir.ls_date Reservoir.ls_storage Reservoir.ls_sub_releases
       Reservoir.su_final_date Reservoir.su_timestep_seconds
       Reservoir.su_rate Reservoir.su_total_action Reservoir.su_start
       PowerPlant.fac PowerPlant.objective_function PowerPlant.efficiency
       PowerPlant.max_turbine_flow PowerPlant.head_start_level
       PowerPlant.min_turbine_flow PowerPlant.max_capacity
       PowerPlant.reservoir PowerPlant.water_usage
       PowerPlant.production_vector
       PowerPlant.with_fac PowerPlant.with_production_vector
       PowerPlant.methods
       IrrigationDistrict.fac IrrigationDistrict.objective_function
       IrrigationDistrict.all_demand IrrigationDistrict.total_deficit
       IrrigationDistrict.all_deficit
       IrrigationDistrict.with_fac IrrigationDistrict.with_deficit
       IrrigationDistrict.methods
       sr_observation sr_reward sr_terminated sr_truncated sr_info] in H.

(** ** Power plants *)

Lemma clamp_between (lo hi x : Q) :
  (lo <= hi)%Q ->
  (lo <= Qmax lo (Qmin hi x) <= hi)%Q
  /\ ((lo <= x <= hi)%Q -> (Qmax lo (Qmin hi x) == x)%Q)
  /\ ((x <= lo)%Q -> (Qmax lo (Qmin hi x) == lo)%Q)
  /\ ((hi <= x)%Q -> (Qmax lo (Qmin hi x) == hi)%Q).
Proof.
  intros Hle.
  destruct (Q.max_spec lo (Qmin hi x)) as [[H1 H2]|[H1 H2]];
    destruct (Q.min_spec hi x) as [[H3 H4]|[H3 H4]];
    rewrite H2; rewrite H4 in *; repeat split; intros; try lra.
Qed.

(** C8.  A step of a power plant records, and hands to the objective
    function, the production
    [min(max_capacity, turbine_flow * head * 1000 * g * efficiency * 1e-6)]
    times the number of hours of the timestep, where [turbine_flow] is the
    inflow of the step clamped into [min_turbine_flow, max_turbine_flow]
    and [head] is [max(0, level - head_start_level)] for the last level the
    reservoir recorded, or for the level 0 when it has recorded none. *)
Theorem power_plant_step_production (p : PowerPlant.t) (r : Reservoir.t)
    (q : Q) (d : datetime) (ts : relativedelta) :
  let t := Facility.timestep (PowerPlant.fac p) in
  let turbine_flow :=
    Qmax (PowerPlant.min_turbine_flow p)
         (Qmin (PowerPlant.max_turbine_flow p) q) in
  let level := default 0%Q (last (Reservoir.level_vector r)) in
  let head := Qmax 0 (level - PowerPlant.head_start_level p)%Q in
  let raw :=
    (turbine_flow * head * 1000 * PowerPlant.g * PowerPlant.efficiency p
     * (1 # 1000000))%Q in
  let power :=
    match PowerPlant.max_capacity p with
    | Finite M => Qmin M raw
    | _ => raw
    end in
  let hours := (total_seconds (date_add d ts - d)%Z / 3600)%Q in
  Facility.all_inflow (PowerPlant.fac p) !! t = Some q ->
  Facility.current_date (PowerPlant.fac p) = Some d ->
  Facility.timestep_size (PowerPlant.fac p) = Some ts ->
  (t <= length (Facility.all_outflow (PowerPlant.fac p)))%nat ->
  PowerPlant.max_capacity p <> NegInf ->
  exists p' res,
    PowerPlant.step (Some r) p = Ok (p', res)
    /\ PowerPlant.production_vector p'
       = PowerPlant.production_vector p ++ [(power * hours)%Q]
    /\ sr_reward res = PowerPlant.objective_function p (power * hours)%Q
    /\ ((PowerPlant.min_turbine_flow p <= PowerPlant.max_turbine_flow p)%Q ->
        (PowerPlant.min_turbine_flow p <= turbine_flow
         <= PowerPlant.max_turbine_flow p)%Q
        /\ ((PowerPlant.min_turbine_flow p <= q
             <= PowerPlant.max_turbine_flow p)%Q -> (turbine_flow == q)%Q)).
Proof.
  intros t turbine_flow level head raw power hours Hin Hd Hts Hout Hcap.
  assert (Hget : Py.getitem (Facility.all_inflow (PowerPlant.fac p))
                   (Z.of_nat t) = Ok q) by (apply getitem_nat; exact Hin).
  destruct (lookup_lt_is_Some_2
              (Facility.all_outflow (PowerPlant.fac p)
                 ++ [(q - turbine_flow * PowerPlant.water_usage p)%Q]) t)
    as [o Ho].
  { rewrite length_app. simpl. lia. }
  apply getitem_nat in Ho.
  assert (Hcapped : PowerPlant.cap (PowerPlant.max_capacity p) raw = Ok power).
  { subst power. destruct (PowerPlant.max_capacity p); try reflexivity.
    congruence. }
  exists (PowerPlant.with_fac
            (Facility.with_timestep (S t)
               (Facility.with_all_outflow
                  (Facility.all_outflow (PowerPlant.fac p)
                     ++ [(q - turbine_flow * PowerPlant.water_usage p)%Q])
                  (PowerPlant.fac p)))
            (PowerPlant.with_production_vector
               (PowerPlant.production_vector p ++ [(power * hours)%Q]) p)).
  eexists.
  split; [|split; [reflexivity|split]].
  - unfold PowerPlant.step, Facility.step, Facility.determine_outflow,
      PowerPlant.methods, Facility.get_inflow, Ledger.get.
    norm. fold t. rewrite Hget. norm.
    unfold PowerPlant.determine_consumption,
      PowerPlant.determine_turbine_flow, Facility.get_inflow, Ledger.get.
    fold t. rewrite Hget. norm. fold turbine_flow.
    unfold PowerPlant.determine_reward, PowerPlant.determine_production,
      PowerPlant.determine_turbine_flow, Facility.get_inflow, Ledger.get,
      Py.last_or_none.
    norm. fold t. rewrite Hget. norm.
    fold turbine_flow. fold level. fold head. fold raw.
    rewrite Hcapped. norm. rewrite Hd, Hts. norm. fold hours.
    unfold PowerPlant.determine_info, Facility.get_inflow,
      Facility.get_outflow, Ledger.get.
    norm. fold t. rewrite Hget. norm. rewrite Ho. norm.
    rewrite getitem_last. norm. reflexivity.
  - reflexivity.
  - intros Hle.
    destruct (clamp_between (PowerPlant.min_turbine_flow p)
                (PowerPlant.max_turbine_flow p) q Hle) as (H1 & H2 & _).
    split; assumption.
Qed.

(** Witness of C8: a plant fed 20 below a reservoir whose last recorded
    level is 100, over a timestep of one hour. *)
Lemma power_plant_step_production_witness :
  exists p' res,
    PowerPlant.step (Some Scenario.levelled) Scenario.plant = Ok (p', res)
    /\ (sr_reward res == 15494507 # 1000000)%Q.
Proof.
  destruct (power_plant_step_production Scenario.plant Scenario.levelled
              20%Q 0%Z (rd_hours 1))
    as (p' & res & Hstep & _ & Hrew & _).
  - reflexivity.
  - reflexivity.
  - reflexivity.
  - simpl. lia.
  - simpl. discriminate.
  - exists p', res. split; [exact Hstep|].
    rewrite Hrew. vm_compute. reflexivity.
Defined.

(** ** Interpolation *)

Section Segment.
Local Open Scope Q_scope.
Variables x0 y0 x1 y1 : Q.
Hypothesis Hx : x0 < x1.

Lemma segment_start : Interp.segment x0 x0 y0 x1 y1 == y0.
Proof. unfold Interp.segment. ring. Qed.

Lemma segment_end : Interp.segment x1 x0 y0 x1 y1 == y1.
Proof. unfold Interp.segment. field. lra. Qed.

Lemma segment_proper (x x' : Q) :
  x == x' -> Interp.segment x x0 y0 x1 y1 == Interp.segment x' x0 y0 x1 y1.
Proof. intros H. unfold Interp.segment. rewrite H. reflexivity. Qed.

Lemma slope_nonneg : y0 <= y1 -> 0 <= (y1 - y0) / (x1 - x0).
Proof.
  intros Hy. unfold Qdiv. apply Qmult_le_0_compat; [lra|].
  apply Qlt_le_weak, Qinv_lt_0_compat. lra.
Qed.

Lemma segment_mono (x x' : Q) :
  y0 <= y1 -> x <= x' ->
  Interp.segment x x0 y0 x1 y1 <= Interp.segment x' x0 y0 x1 y1.
Proof.
  intros Hy Hxx. unfold Interp.segment.
  pose proof (slope_nonneg Hy) as Hs.
  set (s := (y1 - y0) / (x1 - x0)) in *.
  assert (0 <= s * (x' - x)) by (apply Qmult_le_0_compat; lra).
  lra.
Qed.

Lemma on_segment_eq (x : Q) :
  Interp.on_segment x x0 y0 x1 y1 == Interp.segment x x0 y0 x1 y1.
Proof.
  unfold Interp.on_segment. destruct (Qeq_bool x0 x) eqn:E; [|reflexivity].
  apply Qeq_bool_iff in E.
  rewrite <- (segment_proper x0 x E). symmetry. apply segment_start.
Qed.

End Segment.

Lemma on_segment_bounds (x x0 y0 x1 y1 : Q) :
  (x0 < x1)%Q -> (y0 <= y1)%Q -> (x0 <= x)%Q -> (x <= x1)%Q ->
  (y0 <= Interp.on_segment x x0 y0 x1 y1 <= y1)%Q.
Proof.
  intros Hx Hy H0 H1. rewrite on_segment_eq. split.
  - rewrite <- (segment_start x0 y0 x1 y1) at 1.
    apply segment_mono; assumption.
  - rewrite <- (segment_end x0 y0 x1 y1 Hx) at 2.
    apply segment_mono; assumption.
Qed.

Lemma on_segment_mono (x x' x0 y0 x1 y1 : Q) :
  (x0 < x1)%Q -> (y0 <= y1)%Q -> (x <= x')%Q ->
  (Interp.on_segment x x0 y0 x1 y1 <= Interp.on_segment x' x0 y0 x1 y1)%Q.
Proof.
  intros Hx Hy H. rewrite !on_segment_eq. apply segment_mono; assumption.
Qed.

Lemma on_segment_proper (x x' x0 y0 x1 y1 : Q) :
  (x == x')%Q ->
  (Interp.on_segment x x0 y0 x1 y1 == Interp.on_segment x' x0 y0 x1 y1)%Q.
Proof.
  intros H. rewrite !on_segment_eq. apply segment_proper. exact H.
Qed.

Lemma chain_le_last (y0 yn : Q) (ys : list Q) :
  chain Qle y0 ys -> last (y0 :: ys) = Some yn -> (y0 <= yn)%Q.
Proof.
  revert y0. induction ys as [|y1 ys IH]; intros y0 H Hlast.
  - injection Hlast as <-. lra.
  - destruct H as [H01 H]. rewrite last_cons_cons in Hlast.
    specialize (IH y1 H Hlast). lra.
Qed.

Lemma scan_lower (x x0 y0 : Q) (pts : list (Q * Q)) :
  chain Qlt x0 pts.*1 -> chain Qle y0 pts.*2 -> (x0 <= x)%Q ->
  (y0 <= Interp.scan x x0 y0 pts)%Q.
Proof.
  revert x0 y0. induction pts as [|[x1 y1] pts IH]; intros x0 y0 Hxs Hys H0.
  - simpl. lra.
  - destruct Hxs as [Hx Hxs]. destruct Hys as [Hy Hys].
    cbn [fst snd] in *. simpl.
    destruct (Qlt_le_dec x x1) as [Hlt|Hge].
    + apply on_segment_bounds; try assumption. lra.
    + specialize (IH x1 y1 Hxs Hys Hge). lra.
Qed.

Lemma scan_upper (x x0 y0 yn : Q) (pts : list (Q * Q)) :
  chain Qlt x0 pts.*1 -> chain Qle y0 pts.*2 -> (x0 <= x)%Q ->
  last (y0 :: pts.*2) = Some yn ->
  (Interp.scan x x0 y0 pts <= yn)%Q.
Proof.
  revert x0 y0. induction pts as [|[x1 y1] pts IH];
    intros x0 y0 Hxs Hys H0 Hlast.
  - injection Hlast as <-. simpl. lra.
  - destruct Hxs as [Hx Hxs]. destruct Hys as [Hy Hys].
    cbn [fmap list_fmap fst snd] in *. rewrite last_cons_cons in Hlast.
    simpl.
    destruct (Qlt_le_dec x x1) as [Hlt|Hge].
    + pose proof (chain_le_last y1 yn _ Hys Hlast).
      destruct (on_segment_bounds x x0 y0 x1 y1); try assumption; lra.
    + apply IH; assumption.
Qed.

Lemma scan_mono (x x' x0 y0 : Q) (pts : list (Q * Q)) :
  chain Qlt x0 pts.*1 -> chain Qle y0 pts.*2 -> (x0 <= x)%Q -> (x <= x')%Q ->
  (Interp.scan x x0 y0 pts <= Interp.scan x' x0 y0 pts)%Q.
Proof.
  revert x0 y0. induction pts as [|[x1 y1] pts IH];
    intros x0 y0 Hxs Hys H0 Hxx.
  - simpl. lra.
  - destruct Hxs as [Hx Hxs]. destruct Hys as [Hy Hys].
    cbn [fst snd] in *. simpl.
    destruct (Qlt_le_dec x x1) as [Hlt|Hge];
      destruct (Qlt_le_dec x' x1) as [Hlt'|Hge'].
    + apply on_segment_mono; assumption.
    + pose proof (scan_lower x' x1 y1 pts Hxs Hys Hge').
      destruct (on_segment_bounds x x0 y0 x1 y1); try assumption; lra.
    + lra.
    + apply IH; assumption.
Qed.

Lemma scan_proper (x x' x0 y0 : Q) (pts : list (Q * Q)) :
  (x == x')%Q -> (Interp.scan x x0 y0 pts == Interp.scan x' x0 y0 pts)%Q.
Proof.
  intros H. revert x0 y0.
  induction pts as [|[x1 y1] pts IH]; intros x0 y0; simpl.
  - reflexivity.
  - destruct (Qlt_le_dec x x1) as [Hlt|Hge];
      destruct (Qlt_le_dec x' x1) as [Hlt'|Hge']; try lra.
    + apply on_segment_proper. exact H.
    + apply IH.
Qed.

Lemma chain_lt_last (x0 xn : Q) (xs : list Q) :
  chain Qlt x0 xs -> last (x0 :: xs) = Some xn -> (x0 <= xn)%Q.
Proof.
  revert x0. induction xs as [|x1 xs IH]; intros x0 H Hlast.
  - injection Hlast as <-. lra.
  - destruct H as [H01 H]. rewrite last_cons_cons in Hlast.
    specialize (IH x1 H Hlast). lra.
Qed.

(** The three regions of a well-formed curve. *)
Lemma compiled_interp_regions (x x0 y0 xn yn : Q) (xs ys : list Q)
    (left right : option Q) :
  length xs = length ys ->
  last (x0 :: xs) = Some xn -> last (y0 :: ys) = Some yn ->
  Interp.compiled_interp x (x0 :: xs) (y0 :: ys) left right
  = if Qlt_le_dec x x0 then Ok (default y0 left)
    else if Qlt_le_dec xn x then Ok (default yn right)
    else Ok (Interp.scan x x0 y0 (zip xs ys)).
Proof.
  intros Hlen Hxn Hyn. unfold Interp.compiled_interp.
  cbn [length]. rewrite Hlen, Nat.eqb_refl. cbn [negb].
  change (zip (x0 :: xs) (y0 :: ys)) with ((x0, y0) :: zip xs ys).
  cbv iota beta. rewrite Hxn, Hyn. reflexivity.
Qed.

(** C10 (amended).  On a curve with strictly increasing breakpoints the
    interpolation always answers, and with the same value for equal
    queries; below the first breakpoint it returns the first ordinate (or
    the supplied left value), above the last breakpoint the last ordinate
    (or the supplied right value); and it is non-decreasing in the query
    when the ordinates are non-decreasing and the supplied left and right
    values, if any, do not lie above the first and below the last
    ordinate. *)
Theorem interpolation_clamped_and_monotone (xp fp : list Q)
    (left right : option Q) (x0 y0 xn yn : Q) :
  strictly_increasing xp ->
  length xp = length fp ->
  head xp = Some x0 -> head fp = Some y0 ->
  last xp = Some xn -> last fp = Some yn ->
  (forall x, exists y, Reservoir.modified_interp x xp fp left right = Ok y)
  /\ (forall x x',
        (x == x')%Q ->
        same_outcome (Reservoir.modified_interp x xp fp left right)
                     (Reservoir.modified_interp x' xp fp left right))
  /\ (forall x,
        (x < x0)%Q ->
        Reservoir.modified_interp x xp fp left right = Ok (default y0 left))
  /\ (forall x,
        (xn < x)%Q ->
        Reservoir.modified_interp x xp fp left right = Ok (default yn right))
  /\ (non_decreasing fp ->
      clamps_in_order fp left right ->
      forall x x' y y',
        (x <= x')%Q ->
        Reservoir.modified_interp x xp fp left right = Ok y ->
        Reservoir.modified_interp x' xp fp left right = Ok y' ->
        (y <= y')%Q).
Proof.
  intros Hinc Hlen Hx0 Hy0 Hxn Hyn.
  destruct xp as [|x0' xs]; [discriminate|].
  destruct fp as [|y0' ys]; [discriminate|].
  injection Hx0 as ->. injection Hy0 as ->.
  cbn [length] in Hlen. injection Hlen as Hlen.
  cbn [strictly_increasing] in Hinc.
  pose proof (chain_lt_last x0 xn xs Hinc Hxn) as Hx0n.
  unfold Reservoir.modified_interp.
  assert (Hreg := fun x => compiled_interp_regions x x0 y0 xn yn xs ys
                             left right Hlen Hxn Hyn).
  split; [|split; [|split; [|split]]].
  - intros x. rewrite Hreg.
    destruct (Qlt_le_dec x x0); [eauto|].
    destruct (Qlt_le_dec xn x); eauto.
  - intros x x' Hxx. rewrite !Hreg.
    destruct (Qlt_le_dec x x0); destruct (Qlt_le_dec x' x0); try lra.
    + simpl. reflexivity.
    + destruct (Qlt_le_dec xn x); destruct (Qlt_le_dec xn x'); try lra.
      * simpl. reflexivity.
      * simpl. apply scan_proper. exact Hxx.
  - intros x Hlt. rewrite Hreg.
    destruct (Qlt_le_dec x x0); [reflexivity|lra].
  - intros x Hgt. rewrite Hreg.
    destruct (Qlt_le_dec x x0); [lra|].
    destruct (Qlt_le_dec xn x); [reflexivity|lra].
  - intros Hnd [Hleft Hright] x x' y y' Hxx. rewrite !Hreg.
    cbn [non_decreasing] in Hnd.
    pose proof (chain_le_last y0 yn ys Hnd Hyn) as Hy0n.
    assert (HL : (default y0 left <= y0)%Q).
    { destruct left as [l|]; simpl; [|lra]. apply (Hleft l y0); reflexivity. }
    assert (HR : (yn <= default yn right)%Q).
    { destruct right as [r|]; simpl; [|lra]. apply (Hright r yn); auto. }
    assert (Hxs : chain Qlt x0 (zip xs ys).*1).
    { rewrite fst_zip by lia. exact Hinc. }
    assert (Hys : chain Qle y0 (zip xs ys).*2).
    { rewrite snd_zip by lia. exact Hnd. }
    assert (Hl : last (y0 :: (zip xs ys).*2) = Some yn).
    { rewrite snd_zip by lia. exact Hyn. }
    destruct (Qlt_le_dec x x0) as [A|A];
      destruct (Qlt_le_dec x' x0) as [A'|A']; try lra.
    + intros [= <-] [= <-]. lra.
    + destruct (Qlt_le_dec xn x') as [B'|B'].
      * intros [= <-] [= <-]. lra.
      * intros [= <-] [= <-].
        pose proof (scan_lower x' x0 y0 _ Hxs Hys A'). lra.
    + destruct (Qlt_le_dec xn x) as [B|B];
        destruct (Qlt_le_dec xn x') as [B'|B']; try lra.
      * intros [= <-] [= <-]. lra.
      * intros [= <-] [= <-].
        pose proof (scan_upper x x0 y0 yn _ Hxs Hys A Hl). lra.
      * intros [= <-] [= <-]. apply scan_mono; assumption.
Qed.

(** Counterexample to C10 as stated: with a left value of 5 supplied, the
    non-decreasing curve through (0, 0) and (1, 1) answers 5 at -1 and 0
    at 0. *)
Lemma interpolation_with_left_value_not_monotone :
  ~ (forall (xp fp : list Q) (left right : option Q) (x x' y y' : Q),
       strictly_increasing xp ->
       non_decreasing fp ->
       (x <= x')%Q ->
       Reservoir.modified_interp x xp fp left right = Ok y ->
       Reservoir.modified_interp x' xp fp left right = Ok y' ->
       (y <= y')%Q).
Proof.
  intros H.
  specialize (H [0%Q; 1%Q] [0%Q; 1%Q] (Some 5%Q) None (-1)%Q 0%Q 5%Q 0%Q).
  assert (Hbad : (5 <= 0)%Q).
  { apply H.
    - simpl. split; [reflexivity|exact I].
    - simpl. split; [discriminate|exact I].
    - discriminate.
    - reflexivity.
    - reflexivity. }
  apply Hbad. reflexivity.
Qed.

(** Witness of C10: the level curve of the scenario. *)
Lemma interpolation_clamped_and_monotone_witness :
  Reservoir.modified_interp (-5)%Q [0%Q; 1000%Q] [0%Q; 100%Q] None None
  = Ok 0%Q
  /\ Reservoir.modified_interp 2000%Q [0%Q; 1000%Q] [0%Q; 100%Q] None None
     = Ok 100%Q
  /\ forall y y',
       Reservoir.modified_interp 250%Q [0%Q; 1000%Q] [0%Q; 100%Q] None None
       = Ok y ->
       Reservoir.modified_interp 500%Q [0%Q; 1000%Q] [0%Q; 100%Q] None None
       = Ok y' ->
       (y <= y')%Q.
Proof.
  destruct (interpolation_clamped_and_monotone
              [0%Q; 1000%Q] [0%Q; 100%Q] None None 0%Q 0%Q 1000%Q 100%Q)
    as (_ & _ & Hlow & Hhigh & Hmono).
  - simpl. split; [reflexivity|exact I].
  - reflexivity.
  - reflexivity.
  - reflexivity.
  - reflexivity.
  - reflexivity.
  - split; [apply Hlow; reflexivity|].
    split; [apply Hhigh; reflexivity|].
    intros y y'. apply Hmono.
    + simpl. split; [discriminate|exact I].
    + split; intros; discriminate.
    + discriminate.
Defined.

(** ** The integration loop of a reservoir *)

Lemma total_seconds_split (a b c : datetime) :
  (total_seconds (c - a)%Z
   == total_seconds (c - b)%Z + total_seconds (b - a)%Z)%Q.
Proof.
  unfold total_seconds, Qeq, Qplus. simpl. lia.
Qed.

Lemma total_seconds_zero (a : datetime) : (total_seconds (a - a)%Z == 0)%Q.
Proof. unfold total_seconds, Qeq. simpl. lia. Qed.

Lemma sum_singleton (a : Q) : (Py.sum [a] == a)%Q.
Proof. unfold Py.sum. simpl. ring. Qed.

Lemma clamp_release_inside (lo hi total a : Q) :
  (total == a)%Q -> (lo <= a <= hi)%Q ->
  (Reservoir.clamp_release lo hi total == a)%Q.
Proof.
  intros Ht [Hlo Hhi]. unfold Reservoir.clamp_release.
  destruct (Q.min_spec hi (Qmax lo total)) as [[H1 H2]|[H1 H2]];
    destruct (Q.max_spec lo total) as [[H3 H4]|[H3 H4]];
    rewrite H2; rewrite H4 in *; lra.
Qed.

Lemma compiled_interp_total (x : Q) (xp fp : list Q) :
  valid_curve xp fp ->
  exists y, Interp.compiled_interp x xp fp None None = Ok y.
Proof.
  intros [Hne Hlen]. unfold Interp.compiled_interp.
  rewrite Hlen, Nat.eqb_refl. cbn [negb].
  destruct xp as [|x0 xs]; [congruence|].
  destruct fp as [|y0 ys]; [discriminate|].
  change (zip (x0 :: xs) (y0 :: ys)) with ((x0, y0) :: zip xs ys).
  cbv iota beta zeta.
  destruct (Qlt_le_dec x x0); [eauto|].
  destruct (Qlt_le_dec _ x); eauto.
Qed.

Lemma getitem_small {A} (l : list A) (k : nat) (a : A) (z : Z) :
  z = Z.of_nat k -> l !! k = Some a -> Py.getitem l z = Ok a.
Proof. intros ->. apply getitem_nat. Qed.

Section Steppable.
Variables (fuel : nat) (r : Reservoir.t) (d : datetime) (ts : relativedelta)
          (q : Q).
Hypothesis Hready : steppable fuel r d ts q.

Lemma storage_to_level_total (s : Q) :
  exists y, Reservoir.storage_to_level r s = Ok y.
Proof using Hready.
  destruct (st_level _ _ _ _ _ Hready) as (xp & fp & H0 & H1 & Hv).
  unfold Reservoir.storage_to_level, Reservoir.modified_interp.
  rewrite (getitem_small _ 0%nat xp 0%Z eq_refl H0). norm.
  rewrite (getitem_small _ 1%nat fp 1%Z eq_refl H1). norm.
  apply compiled_interp_total. exact Hv.
Qed.

Lemma storage_to_surface_total (s : Q) :
  exists y, Reservoir.storage_to_surface r s = Ok y.
Proof using Hready.
  destruct (st_surface _ _ _ _ _ Hready) as (xp & fp & H0 & H1 & Hv).
  unfold Reservoir.storage_to_surface, Reservoir.modified_interp.
  rewrite (getitem_small _ 0%nat xp 0%Z eq_refl H0). norm.
  rewrite (getitem_small _ 1%nat fp 1%Z eq_refl H1). norm.
  apply compiled_interp_total. exact Hv.
Qed.

Lemma storage_to_minmax_total (s : Q) :
  exists lo hi, Reservoir.storage_to_minmax r s = Ok (lo, hi).
Proof using Hready.
  destruct (st_minmax _ _ _ _ _ Hready)
    as (xp & fmin & fmax & H0 & H1 & H2 & Hv1 & Hv2).
  unfold Reservoir.storage_to_minmax.
  rewrite (getitem_small _ 0%nat xp 0%Z eq_refl H0). norm.
  rewrite (getitem_small _ 1%nat fmin 1%Z eq_refl H1). norm.
  destruct (compiled_interp_total s xp fmin Hv1) as [lo ->]. norm.
  rewrite (getitem_small _ 2%nat fmax 2%Z eq_refl H2). norm.
  destruct (compiled_interp_total s xp fmax Hv2) as [hi ->]. norm.
  eauto.
Qed.

Lemma get_inflow_ready :
  ControlledFacility.get_inflow (Reservoir.cf r)
    (Z.of_nat (ControlledFacility.timestep (Reservoir.cf r))) = Ok q.
Proof using Hready.
  apply getitem_nat. exact (st_inflow _ _ _ _ _ Hready).
Qed.

Lemma loop_body_total (final_date : datetime) (rate total : Q)
    (st : Reservoir.loop_state) :
  exists st', Reservoir.loop_body r final_date rate total st = Ok st'.
Proof using Hready.
  unfold Reservoir.loop_body.
  destruct (storage_to_surface_total (Reservoir.ls_storage st)) as [sf ->].
  destruct (storage_to_minmax_total (Reservoir.ls_storage st))
    as (lo & hi & ->).
  norm. rewrite get_inflow_ready. norm. eauto.
Qed.

End Steppable.

(** What one turn of the loop computes. *)
Lemma loop_body_inv (r : Reservoir.t) (final_date : datetime)
    (rate total : Q) (st st' : Reservoir.loop_state) :
  Reservoir.loop_body r final_date rate total st = Ok st' ->
  exists surface lo hi inflow,
    Reservoir.storage_to_surface r (Reservoir.ls_storage st) = Ok surface
    /\ Reservoir.storage_to_minmax r (Reservoir.ls_storage st) = Ok (lo, hi)
    /\ ControlledFacility.get_inflow (Reservoir.cf r)
         (Z.of_nat (ControlledFacility.timestep (Reservoir.cf r)))
       = Ok inflow
    /\ Reservoir.ls_date st'
       = Z.min final_date
           (date_add (Reservoir.ls_date st)
                     (Reservoir.integration_timestep_size r))
    /\ Reservoir.ls_storage st'
       = (Reservoir.ls_storage st
          + (inflow * total_seconds
                        (Reservoir.ls_date st' - Reservoir.ls_date st)%Z
             - surface
               * (rate * total_seconds
                           (Reservoir.ls_date st' - Reservoir.ls_date st)%Z)
             - Reservoir.clamp_release lo hi total
               * total_seconds
                   (Reservoir.ls_date st' - Reservoir.ls_date st)%Z))%Q
    /\ Reservoir.ls_sub_releases st'
       = Reservoir.ls_sub_releases st
           ++ [Reservoir.clamp_release lo hi total].
Proof.
  unfold Reservoir.loop_body. intros H.
  inv_bind H as surface Hsurface.
  inv_bind H as mm Hmm. destruct mm as [lo hi].
  inv_bind H as inflow Hinflow.
  injection H as <-.
  exists surface, lo, hi, inflow. repeat split; assumption.
Qed.

Lemma integrate_unfold_stop (n : nat) (r : Reservoir.t)
    (final_date : datetime) (rate total : Q) (st : Reservoir.loop_state) :
  (final_date <= Reservoir.ls_date st)%Z ->
  Reservoir.integrate n r final_date rate total st = Ok st
  /\ Reservoir.increments n r final_date rate total st = [].
Proof.
  intros H.
  assert (E : (Reservoir.ls_date st <? final_date)%Z = false)
    by (apply Z.ltb_ge; exact H).
  destruct n; simpl; rewrite E; split; reflexivity.
Qed.

Lemma integrate_unfold_turn (n : nat) (r : Reservoir.t)
    (final_date : datetime) (rate total : Q) (st : Reservoir.loop_state) :
  (Reservoir.ls_date st < final_date)%Z ->
  Reservoir.integrate (S n) r final_date rate total st
  = (Reservoir.loop_body r final_date rate total st
     ≫= Reservoir.integrate n r final_date rate total)
  /\ Reservoir.increments (S n) r final_date rate total st
     = st :: match Reservoir.loop_body r final_date rate total st with
             | Ok st' => Reservoir.increments n r final_date rate total st'
             | Raise _ => []
             end
  /\ Reservoir.integrate O r final_date rate total st = Raise OutOfFuel.
Proof.
  intros H.
  assert (E : (Reservoir.ls_date st <? final_date)%Z = true)
    by (apply Z.ltb_lt; exact H).
  simpl. rewrite E. repeat split.
Qed.

(** The releases the loop appends are the clamped actions at the storages
    of its successive states. *)
Lemma integrate_releases (n : nat) (r : Reservoir.t) (final_date : datetime)
    (rate total : Q) (st st' : Reservoir.loop_state) :
  Reservoir.integrate n r final_date rate total st = Ok st' ->
  exists rels,
    Reservoir.ls_sub_releases st' = Reservoir.ls_sub_releases st ++ rels
    /\ Forall2
         (fun s rel =>
            exists lo hi,
              Reservoir.storage_to_minmax r (Reservoir.ls_storage s)
              = Ok (lo, hi)
              /\ rel = Reservoir.clamp_release lo hi total)
         (Reservoir.increments n r final_date rate total st) rels.
Proof.
  revert st. induction n as [|n IH]; intros st H.
  - destruct (Z_lt_le_dec (Reservoir.ls_date st) final_date) as [Hlt|Hge].
    + destruct (integrate_unfold_turn 0 r final_date rate total st Hlt)
        as (_ & _ & E). congruence.
    + destruct (integrate_unfold_stop 0 r final_date rate total st Hge)
        as [E1 E2].
      rewrite E1 in H. injection H as <-. rewrite E2.
      exists []. rewrite app_nil_r. split; [reflexivity|constructor].
  - destruct (Z_lt_le_dec (Reservoir.ls_date st) final_date) as [Hlt|Hge].
    + destruct (integrate_unfold_turn n r final_date rate total st Hlt)
        as (E1 & E2 & _).
      rewrite E1 in H. rewrite E2. inv_bind H as st1 Hst1. rewrite Hst1.
      destruct (IH st1 H) as (rels & Hrels & Hall).
      destruct (loop_body_inv _ _ _ _ _ _ Hst1)
        as (surface & lo & hi & inflow & _ & Hmm & _ & _ & _ & Hsub).
      exists (Reservoir.clamp_release lo hi total :: rels). split.
      * rewrite Hrels, Hsub, <- app_assoc. reflexivity.
      * constructor; [eauto|exact Hall].
    + destruct (integrate_unfold_stop (S n) r final_date rate total st Hge)
        as [E1 E2].
      rewrite E1 in H. injection H as <-. rewrite E2.
      exists []. rewrite app_nil_r. split; [reflexivity|constructor].
Qed.

(** The list of increments is the run of the loop: it starts in the state
    the loop is entered with, and each state is followed by the one the
    loop body makes of it. *)
Lemma increments_run (n : nat) (r : Reservoir.t) (final_date : datetime)
    (rate total : Q) (st : Reservoir.loop_state) :
  let incs := Reservoir.increments n r final_date rate total st in
  (forall s, incs !! 0%nat = Some s -> s = st)
  /\ (forall i s s',
        incs !! i = Some s -> incs !! S i = Some s' ->
        Reservoir.loop_body r final_date rate total s = Ok s')
  /\ (forall s, s ∈ incs -> (Reservoir.ls_date s < final_date)%Z).
Proof.
  revert st. induction n as [|n IH]; intros st incs; subst incs.
  - simpl. destruct (_ <? _)%Z; repeat split; intros;
      try discriminate; try (exfalso; eapply not_elem_of_nil; eassumption).
    all: rewrite lookup_nil in *; discriminate.
  - destruct (Z_lt_le_dec (Reservoir.ls_date st) final_date) as [Hlt|Hge].
    + destruct (integrate_unfold_turn n r final_date rate total st Hlt)
        as (_ & E2 & _).
      rewrite E2. repeat split.
      * intros s [= <-]. reflexivity.
      * intros [|i] s s' Hs Hs'.
        -- injection Hs as <-. simpl in Hs'.
           destruct (Reservoir.loop_body r final_date rate total st)
             as [st1|e] eqn:E; [|discriminate].
           destruct (IH st1) as (Hhead & _). f_equal.
           symmetry. apply Hhead. exact Hs'.
        -- simpl in Hs, Hs'.
           destruct (Reservoir.loop_body r final_date rate total st)
             as [st1|e] eqn:E; [|discriminate].
           destruct (IH st1) as (_ & Hnext & _). eapply Hnext; eassumption.
      * intros s Hs. apply elem_of_cons in Hs. destruct Hs as [->|Hs].
        -- exact Hlt.
        -- destruct (Reservoir.loop_body r final_date rate total st)
             as [st1|e] eqn:E.
           ++ destruct (IH st1) as (_ & _ & Hin). apply Hin. exact Hs.
           ++ exfalso. eapply not_elem_of_nil. exact Hs.
    + destruct (integrate_unfold_stop (S n) r final_date rate total st Hge)
        as [_ E2].
      rewrite E2. repeat split; intros;
        try (exfalso; eapply not_elem_of_nil; eassumption).
      all: rewrite lookup_nil in *; discriminate.
Qed.

(** The loop leaves at the final date. *)
Lemma integrate_final_date (n : nat) (r : Reservoir.t) (final_date : datetime)
    (rate total : Q) (st st' : Reservoir.loop_state) :
  Reservoir.integrate n r final_date rate total st = Ok st' ->
  (Reservoir.ls_date st <= final_date)%Z ->
  Reservoir.ls_date st' = final_date.
Proof.
  revert st. induction n as [|n IH]; intros st H Hle.
  - destruct (Z_lt_le_dec (Reservoir.ls_date st) final_date) as [Hlt|Hge].
    + destruct (integrate_unfold_turn 0 r final_date rate total st Hlt)
        as (_ & _ & E). congruence.
    + destruct (integrate_unfold_stop 0 r final_date rate total st Hge)
        as [E1 _].
      rewrite E1 in H. injection H as <-. lia.
  - destruct (Z_lt_le_dec (Reservoir.ls_date st) final_date) as [Hlt|Hge].
    + destruct (integrate_unfold_turn n r final_date rate total st Hlt)
        as (E1 & _ & _).
      rewrite E1 in H. inv_bind H as st1 Hst1.
      apply (IH st1 H).
      destruct (loop_body_inv _ _ _ _ _ _ Hst1)
        as (surface & lo & hi & inflow & _ & _ & _ & Hd & _).
      rewrite Hd. lia.
    + destruct (integrate_unfold_stop (S n) r final_date rate total st Hge)
        as [E1 _].
      rewrite E1 in H. injection H as <-. lia.
Qed.

(** A loop that is entered runs at least one turn. *)
Lemma integrate_some_release (n : nat) (r : Reservoir.t)
    (final_date : datetime) (rate total : Q)
    (st st' : Reservoir.loop_state) :
  Reservoir.integrate n r final_date rate total st = Ok st' ->
  (Reservoir.ls_date st < final_date)%Z ->
  Reservoir.ls_sub_releases st' <> [].
Proof.
  intros H Hlt.
  destruct n as [|n].
  - destruct (integrate_unfold_turn 0 r final_date rate total st Hlt)
      as (_ & _ & E). congruence.
  - destruct (integrate_unfold_turn n r final_date rate total st Hlt)
      as (E1 & _ & _).
    rewrite E1 in H. inv_bind H as st1 Hst1.
    destruct (integrate_releases _ _ _ _ _ _ _ H) as (rels & -> & _).
    destruct (loop_body_inv _ _ _ _ _ _ Hst1)
      as (surface & lo & hi & inflow & _ & _ & _ & _ & _ & ->).
    intros E. apply app_eq_nil in E. destruct E as [E _].
    apply app_eq_nil in E. destruct E as [_ E]. discriminate.
Qed.

(** Mass balance of the loop: without evaporation, and with the action
    inside the bounds at every increment, the storage changes by the
    inflow minus the action over the time the loop covers. *)
Lemma integrate_mass_balance (n : nat) (r : Reservoir.t)
    (final_date : datetime) (rate total a q : Q)
    (st st' : Reservoir.loop_state) :
  (rate == 0)%Q -> (total == a)%Q ->
  ControlledFacility.get_inflow (Reservoir.cf r)
    (Z.of_nat (ControlledFacility.timestep (Reservoir.cf r))) = Ok q ->
  Reservoir.integrate n r final_date rate total st = Ok st' ->
  Forall (within_bounds r a)
         (Reservoir.increments n r final_date rate total st) ->
  (Reservoir.ls_storage st'
   == Reservoir.ls_storage st
      + (q - a) * total_seconds
                    (Reservoir.ls_date st' - Reservoir.ls_date st)%Z)%Q.
Proof.
  intros Hrate Htotal Hq. revert st.
  induction n as [|n IH]; intros st H Hb.
  - destruct (Z_lt_le_dec (Reservoir.ls_date st) final_date) as [Hlt|Hge].
    + destruct (integrate_unfold_turn 0 r final_date rate total st Hlt)
        as (_ & _ & E). congruence.
    + destruct (integrate_unfold_stop 0 r final_date rate total st Hge)
        as [E1 _].
      rewrite E1 in H. injection H as <-.
      rewrite total_seconds_zero. ring.
  - destruct (Z_lt_le_dec (Reservoir.ls_date st) final_date) as [Hlt|Hge].
    + destruct (integrate_unfold_turn n r final_date rate total st Hlt)
        as (E1 & E2 & _).
      rewrite E1 in H. rewrite E2 in Hb. inv_bind H as st1 Hst1.
      rewrite Hst1 in Hb. apply Forall_cons in Hb. destruct Hb as [Hb0 Hb].
      specialize (IH st1 H Hb).
      destruct (loop_body_inv _ _ _ _ _ _ Hst1)
        as (surface & lo & hi & inflow & _ & Hmm & Hin & _ & Hs & _).
      rewrite Hq in Hin. injection Hin as <-.
      pose proof (clamp_release_inside lo hi total a Htotal (Hb0 lo hi Hmm))
        as Hclamp.
      rewrite IH, Hs, Hclamp, Hrate.
      rewrite (total_seconds_split (Reservoir.ls_date st)
                 (Reservoir.ls_date st1) (Reservoir.ls_date st')).
      ring.
    + destruct (integrate_unfold_stop (S n) r final_date rate total st Hge)
        as [E1 _].
      rewrite E1 in H. injection H as <-.
      rewrite total_seconds_zero. ring.
Qed.

(** Enough fuel for the dates is enough fuel for the loop. *)
Lemma integrate_total (fuel : nat) (r : Reservoir.t) (d : datetime)
    (ts : relativedelta) (q : Q) (n : nat) (final_date : datetime)
    (rate total : Q) (st : Reservoir.loop_state) :
  steppable fuel r d ts q ->
  dates_reach n (Reservoir.integration_timestep_size r) final_date
              (Reservoir.ls_date st) = true ->
  exists st', Reservoir.integrate n r final_date rate total st = Ok st'.
Proof.
  intros Hready. revert st. induction n as [|n IH]; intros st Hn.
  - simpl in *. destruct (_ <? _)%Z; [discriminate|eauto].
  - simpl in *. destruct (_ <? _)%Z; [|eauto].
    destruct (loop_body_total fuel r d ts q Hready final_date rate total st)
      as [st1 Hst1].
    rewrite Hst1. norm. apply IH.
    destruct (loop_body_inv _ _ _ _ _ _ Hst1)
      as (surface & lo & hi & inflow & _ & _ & _ & Hd & _).
    rewrite Hd. exact Hn.
Qed.

Lemma getitem_minus_one {A} (l : list A) (a : A) :
  last l = Some a -> Py.getitem l (-1)%Z = Ok a.
Proof.
  intros H. apply last_Some in H. destruct H as [l' ->].
  apply getitem_last.
Qed.

Lemma Qeq_bool_positive (x : Q) : (0 < x)%Q -> Qeq_bool x 0 = false.
Proof.
  intros H. destruct (Qeq_bool x 0) eqn:E; [|reflexivity].
  apply Qeq_bool_iff in E. lra.
Qed.

Lemma total_seconds_positive (a b : datetime) :
  (a < b)%Z -> (0 < total_seconds (b - a)%Z)%Q.
Proof. intros H. unfold total_seconds, Qlt. simpl. lia. Qed.

(** The values computed before the loop, for a reservoir that is ready. *)
Lemma setup_ready (fuel : nat) (r : Reservoir.t) (d : datetime)
    (ts : relativedelta) (q s0 : Q) (actions : list Q) :
  steppable fuel r d ts q ->
  last (Reservoir.storage_vector r) = Some s0 ->
  exists m,
    Reservoir.evap_rates r !! Reservoir.determine_month r = Some m
    /\ Reservoir.setup r actions
       = Ok {| Reservoir.su_final_date := date_add d ts;
               Reservoir.su_timestep_seconds :=
                 total_seconds (date_add d ts - d)%Z;
               Reservoir.su_rate :=
                 (m / (100 * total_seconds (date_add d ts - d)%Z))%Q;
               Reservoir.su_total_action := Py.sum actions;
               Reservoir.su_start :=
                 {| Reservoir.ls_date := d;
                    Reservoir.ls_storage := s0;
                    Reservoir.ls_sub_releases := [] |} |}.
Proof.
  intros Hready Hlast.
  destruct (st_evap _ _ _ _ _ Hready) as [m Hm].
  exists m. split; [exact Hm|].
  unfold Reservoir.setup.
  rewrite (getitem_minus_one _ _ Hlast). norm.
  rewrite (st_date _ _ _ _ _ Hready), (st_size _ _ _ _ _ Hready). norm.
  rewrite (getitem_nat _ _ _ Hm). norm.
  unfold Reservoir.evaporation_rate_per_second.
  rewrite Qeq_bool_positive; [reflexivity|].
  pose proof (total_seconds_positive d (date_add d ts)
                (st_positive _ _ _ _ _ Hready)).
  lra.
Qed.

(** A reservoir that is ready can be stepped. *)
Lemma reservoir_step_total (fuel : nat) (r : Reservoir.t) (d : datetime)
    (ts : relativedelta) (q : Q) (actions : list Q) :
  steppable fuel r d ts q ->
  exists r' res, Reservoir.step fuel r actions = Ok (r', res).
Proof.
  intros Hready.
  destruct (Reservoir.storage_vector r) as [|x l] eqn:Esv using rev_ind.
  { destruct (st_storage _ _ _ _ _ Hready). exact Esv. }
  clear IHl.
  assert (Hlast : last (Reservoir.storage_vector r) = Some x)
    by (rewrite Esv; apply last_snoc).
  destruct (setup_ready fuel r d ts q x actions Hready Hlast)
    as (m & _ & Hsetup).
  destruct (integrate_total fuel r d ts q fuel (date_add d ts)
              (m / (100 * total_seconds (date_add d ts - d)%Z))%Q
              (Py.sum actions)
              {| Reservoir.ls_date := d; Reservoir.ls_storage := x;
                 Reservoir.ls_sub_releases := [] |} Hready
              (st_fuel _ _ _ _ _ Hready)) as [st Hst].
  destruct (storage_to_level_total fuel r d ts q Hready
              (Reservoir.ls_storage st)) as [level Hlevel].
  pose proof (integrate_some_release _ _ _ _ _ _ _ Hst
                (st_positive _ _ _ _ _ Hready)) as Hne.
  destruct (st_level _ _ _ _ _ Hready) as (xp & fp & H0 & H1 & Hv).
  destruct (compiled_interp_total (Reservoir.ls_storage st) xp fp Hv)
    as [lv Hlv].
  destruct (st_objective _ _ _ _ _ Hready) as [f Hf].
  unfold Reservoir.step, ControlledFacility.step. norm.
  unfold Reservoir.determine_outflow.
  rewrite Hsetup. norm. rewrite Hst. norm. rewrite Hlevel. norm.
  unfold Py.mean.
  destruct (Reservoir.ls_sub_releases st) as [|rel rels] eqn:Esub;
    [congruence|].
  norm.
  unfold Reservoir.determine_reward, Reservoir.storage_to_level,
    Reservoir.modified_interp.
  norm.
  rewrite (getitem_small _ 0%nat xp 0%Z eq_refl H0). norm.
  rewrite (getitem_small _ 1%nat fp 1%Z eq_refl H1). norm.
  rewrite Hlv. norm. rewrite Hf. unfold py_call. norm.
  unfold Reservoir.determine_info. norm. eauto.
Qed.

Lemma setup_inv (r : Reservoir.t) (actions : list Q)
    (su : Reservoir.loop_setup) :
  Reservoir.setup r actions = Ok su ->
  Reservoir.su_total_action su = Py.sum actions
  /\ Reservoir.ls_sub_releases (Reservoir.su_start su) = []
  /\ last (Reservoir.storage_vector r)
     = Some (Reservoir.ls_storage (Reservoir.su_start su)).
Proof.
  unfold Reservoir.setup. intros H.
  inv_bind H as s0 Hs0. inv_bind H as d Hd. inv_bind H as ts Hts.
  inv_bind H as m Hm. inv_bind H as rate Hrate. injection H as <-.
  norm. repeat split. symmetry.
  apply getitem_last_inv in Hs0. symmetry. exact Hs0.
Qed.

Lemma mean_not_sum (subs : list Q) (out : Q) :
  Py.mean subs = Ok out ->
  (1 < length subs)%nat -> ~ (Py.sum subs == 0)%Q ->
  ~ (out == Py.sum subs)%Q.
Proof.
  unfold Py.mean. destruct subs as [|x l] eqn:E; [discriminate|].
  rewrite <- E. intros [= <-] Hlen Hsum Heq.
  set (n := inject_Z (Z.of_nat (length subs))) in *.
  assert (Hn : (2 <= n)%Q).
  { subst n. change 2%Q with (inject_Z 2). rewrite <- Zle_Qle. lia. }
  revert Heq Hsum. generalize (Py.sum subs). intros S Heq Hsum.
  assert (Hmul : (S / n * n == S)%Q) by (field; lra).
  rewrite Heq in Hmul.
  apply Hsum. nra.
Qed.

(** C1.  A reservoir without evaporation is stepped once with the single
    action [a], which lies within the feasible release bounds at every
    sub-increment, under the inflow rate [q], over a macro timestep of [D]
    seconds: the step succeeds and the final storage is the initial storage
    [+ q * D - a * D]; every sub-increment takes the storage [s] to
    [s + q * len - evaporation - release * len] for its length [len], with
    no evaporation and the release [a]. *)
Theorem reservoir_mass_balance (fuel : nat) (r : Reservoir.t) (d : datetime)
    (ts : relativedelta) (q a s0 : Q) (su : Reservoir.loop_setup) :
  let D := total_seconds (date_add d ts - d)%Z in
  let incs :=
    Reservoir.increments fuel r (Reservoir.su_final_date su)
      (Reservoir.su_rate su) (Reservoir.su_total_action su)
      (Reservoir.su_start su) in
  steppable fuel r d ts q ->
  Forall (fun rate => (rate == 0)%Q) (Reservoir.evap_rates r) ->
  last (Reservoir.storage_vector r) = Some s0 ->
  Reservoir.setup r [a] = Ok su ->
  Forall (within_bounds r a) incs ->
  exists r' res,
    Reservoir.step fuel r [a] = Ok (r', res)
    /\ (Reservoir.stored_water r' == s0 + q * D - a * D)%Q
    /\ last (Reservoir.storage_vector r') = Some (Reservoir.stored_water r')
    /\ (forall s,
          s ∈ incs ->
          exists s' evaporation release,
            Reservoir.loop_body r (Reservoir.su_final_date su)
              (Reservoir.su_rate su) (Reservoir.su_total_action su) s
            = Ok s'
            /\ (evaporation == 0)%Q /\ (release == a)%Q
            /\ let len :=
                 total_seconds (Reservoir.ls_date s' - Reservoir.ls_date s)%Z
               in
               (Reservoir.ls_storage s'
                == Reservoir.ls_storage s + q * len - evaporation
                   - release * len)%Q).
Proof.
  intros D incs Hready Hevap Hlast Hsetup Hbounds.
  destruct (setup_ready fuel r d ts q s0 [a] Hready Hlast)
    as (m & Hm & Hsetup').
  rewrite Hsetup in Hsetup'. injection Hsetup' as ->.
  assert (Hm0 : (m == 0)%Q).
  { eapply (Forall_lookup_1 _ _ _ _ Hevap). exact Hm. }
  assert (Hrate : (m / (100 * D) == 0)%Q).
  { unfold Qdiv. rewrite Hm0. ring. }
  pose proof (get_inflow_ready fuel r d ts q Hready) as Hq.
  destruct (reservoir_step_total fuel r d ts q [a] Hready)
    as (r' & res & Hstep).
  exists r', res. split; [exact Hstep|].
  destruct (reservoir_step_inv _ _ _ _ _ Hstep)
    as (su' & st & level & avg & Hsu' & Hst & _ & _ & _
        & Hsv & Hsw & _).
  rewrite Hsetup in Hsu'. injection Hsu' as <-.
  cbn [Reservoir.su_final_date Reservoir.su_rate Reservoir.su_total_action
       Reservoir.su_start] in *.
  split; [|split].
  - rewrite Hsw.
    pose proof (integrate_mass_balance _ _ _ _ _ a q _ _ Hrate
                  (sum_singleton a) Hq Hst Hbounds) as Hmb.
    rewrite (integrate_final_date _ _ _ _ _ _ _ Hst) in Hmb.
    + cbn [Reservoir.ls_date Reservoir.ls_storage] in Hmb.
      rewrite Hmb. fold D. ring.
    + cbn [Reservoir.ls_date].
      pose proof (st_positive _ _ _ _ _ Hready). lia.
  - rewrite Hsv, Hsw. apply last_snoc.
  - intros s Hs.
    destruct (loop_body_total fuel r d ts q Hready (date_add d ts)
                (m / (100 * D))%Q (Py.sum [a]) s) as [s' Hs'].
    destruct (loop_body_inv _ _ _ _ _ _ Hs')
      as (surface & lo & hi & inflow & _ & Hmm & Hin & _ & Hstore & _).
    rewrite Hq in Hin. injection Hin as <-.
    pose proof (proj1 (Forall_forall _ _) Hbounds s Hs lo hi Hmm) as Hb.
    exists s',
      (surface
       * (m / (100 * D)
          * total_seconds (Reservoir.ls_date s' - Reservoir.ls_date s)%Z))%Q,
      (Reservoir.clamp_release lo hi (Py.sum [a])).
    split; [exact Hs'|]. split; [|split].
    + rewrite Hrate. ring.
    + apply clamp_release_inside; [apply sum_singleton|exact Hb].
    + cbv zeta. rewrite Hstore. ring.
Qed.

Lemma scenario_steppable :
  steppable 4 Scenario.ready 0%Z (rd_hours 1) 30%Q.
Proof.
  constructor.
  - reflexivity.
  - reflexivity.
  - reflexivity.
  - reflexivity.
  - reflexivity.
  - eexists. reflexivity.
  - discriminate.
  - exists [0%Q; 1000%Q], [0%Q; 100%Q].
    repeat split; discriminate.
  - exists [0%Q; 1000%Q], [0%Q; 10%Q].
    repeat split; discriminate.
  - exists [0%Q; 1000%Q], [0%Q; 0%Q], [50%Q; 50%Q].
    repeat split; discriminate.
  - eexists. reflexivity.
Qed.

(** Decide [within_bounds] at each state of a computed list of increments. *)
Ltac bounds_by_computation :=
  match goal with
  | |- Forall _ ?l =>
      let l' := eval vm_compute in l in
      change l with l'
  end;
  repeat (constructor;
          [ let lo := fresh "lo" in
            let hi := fresh "hi" in
            let H := fresh "H" in
            intros lo hi H; vm_compute in H; injection H as <- <-;
            split; vm_compute; discriminate | ]);
  try apply Forall_nil_2.

(** Witness of C1: the end-to-end scenario, with storage 100, inflow 30 and
    release 20 over one hour in four sub-steps. *)
Lemma reservoir_mass_balance_witness :
  exists r' res,
    Reservoir.step 4 Scenario.ready [20%Q] = Ok (r', res)
    /\ (Reservoir.stored_water r' == 100 + (30 - 20) * 3600)%Q.
Proof.
  destruct (reservoir_mass_balance 4 Scenario.ready 0%Z (rd_hours 1)
              30%Q 20%Q 100%Q
              {| Reservoir.su_final_date := 3600000000%Z;
                 Reservoir.su_timestep_seconds := total_seconds 3600000000%Z;
                 Reservoir.su_rate :=
                   (0 / (100 * total_seconds 3600000000%Z))%Q;
                 Reservoir.su_total_action := Py.sum [20%Q];
                 Reservoir.su_start :=
                   {| Reservoir.ls_date := 0%Z;
                      Reservoir.ls_storage := 100%Q;
                      Reservoir.ls_sub_releases := [] |} |})
    as (r' & res & Hstep & Hsw & _).
  - exact scenario_steppable.
  - simpl. repeat constructor.
  - reflexivity.
  - reflexivity.
  - bounds_by_computation.
  - exists r', res. split; [exact Hstep|].
    rewrite Hsw. vm_compute. reflexivity.
Defined.

Lemma mean_inv (subs : list Q) (out : Q) :
  Py.mean subs = Ok out ->
  subs <> []
  /\ out = (Py.sum subs / inject_Z (Z.of_nat (length subs)))%Q.
Proof.
  unfold Py.mean. destruct subs as [|x l]; [discriminate|].
  intros [= <-]. split; [discriminate|reflexivity].
Qed.

(** C5.  Whenever [determine_outflow] returns, the release of each
    sub-increment is the sum of the action components clamped into the
    bounds interpolated at the storage of that sub-increment, and the value
    returned, which is also the value appended to [release_vector], is the
    arithmetic mean of these releases, which differs from their sum as soon
    as there are several of them and the sum is not zero.  A reservoir that
    is ready for its step does return. *)
Theorem release_is_mean_of_clamped_sub_releases (fuel : nat)
    (r : Reservoir.t) (actions : list Q) :
  (forall r' out,
     Reservoir.determine_outflow fuel r actions = Ok (r', out) ->
     exists su subs,
       let incs :=
         Reservoir.increments fuel r (Reservoir.su_final_date su)
           (Reservoir.su_rate su) (Reservoir.su_total_action su)
           (Reservoir.su_start su) in
       Reservoir.setup r actions = Ok su
       /\ (forall s,
             incs !! 0%nat = Some s ->
             last (Reservoir.storage_vector r)
             = Some (Reservoir.ls_storage s))
       /\ (forall i s s',
             incs !! i = Some s -> incs !! S i = Some s' ->
             Reservoir.loop_body r (Reservoir.su_final_date su)
               (Reservoir.su_rate su) (Reservoir.su_total_action su) s
             = Ok s')
       /\ Forall2
            (fun s rel =>
               exists lo hi,
                 Reservoir.storage_to_minmax r (Reservoir.ls_storage s)
                 = Ok (lo, hi)
                 /\ rel = Qmin hi (Qmax lo (Py.sum actions)))
            incs subs
       /\ subs <> []
       /\ out = (Py.sum subs / inject_Z (Z.of_nat (length subs)))%Q
       /\ Reservoir.release_vector r' = Reservoir.release_vector r ++ [out]
       /\ ((1 < length subs)%nat -> ~ (Py.sum subs == 0)%Q ->
           ~ (out == Py.sum subs)%Q))
  /\ (forall d ts q,
        steppable fuel r d ts q ->
        exists r' out,
          Reservoir.determine_outflow fuel r actions = Ok (r', out)).
Proof.
  split.
  - intros r' out H.
    destruct (determine_outflow_inv _ _ _ _ _ H)
      as (su & st & level & Hsu & Hst & _ & Hmean & _ & _ & _ & Hrv).
    destruct (setup_inv _ _ _ Hsu) as (Htotal & Hnil & Hstart).
    destruct (integrate_releases _ _ _ _ _ _ _ Hst) as (rels & Hrels & Hall).
    rewrite Hnil in Hrels. simpl in Hrels.
    destruct (mean_inv _ _ Hmean) as [Hne Hout].
    destruct (increments_run fuel r (Reservoir.su_final_date su)
                (Reservoir.su_rate su) (Reservoir.su_total_action su)
                (Reservoir.su_start su)) as (Hhead & Hnext & _).
    exists su, (Reservoir.ls_sub_releases st). cbv zeta.
    split; [exact Hsu|]. split; [|split; [|split; [|split; [|split; [|split]]]]].
    + intros s Hs. rewrite (Hhead s Hs). exact Hstart.
    + exact Hnext.
    + rewrite Hrels, <- Htotal. exact Hall.
    + exact Hne.
    + exact Hout.
    + exact Hrv.
    + intros Hlen Hsum. eapply mean_not_sum; eassumption.
  - intros d ts q Hready.
    destruct (reservoir_step_total fuel r d ts q actions Hready)
      as (r' & res & Hstep).
    destruct (reservoir_step_inv _ _ _ _ _ Hstep)
      as (su & st & level & avg & _ & _ & _ & _ & [r1 Hr1] & _).
    eauto.
Qed.

(** Witness of C5: in the scenario the four sub-releases are 20 each and
    the reported release is 20, not 80. *)
Lemma release_is_mean_of_clamped_sub_releases_witness :
  exists r' out,
    Reservoir.determine_outflow 4 Scenario.ready [20%Q] = Ok (r', out)
    /\ (out == 20)%Q
    /\ exists x, Reservoir.release_vector r' = [x] /\ (x == 20)%Q.
Proof.
  destruct (release_is_mean_of_clamped_sub_releases 4 Scenario.ready [20%Q])
    as [Hval Htot].
  destruct (Htot 0%Z (rd_hours 1) 30%Q scenario_steppable)
    as (r' & out & Hout).
  exists r', out. split; [exact Hout|].
  destruct (Hval r' out Hout) as (su & subs & _ & _ & _ & _ & _ & _ & Hrv & _).
  assert (E : (out == 20)%Q).
  { vm_compute in Hout. injection Hout as _ <-. reflexivity. }
  split; [exact E|].
  exists out. split; [exact Hrv|exact E].
Defined.

(** ** The orchestrator *)

Section OrchestratorFacts.
Import WaterManagementSystem.
Context {Flow FlowInfo : Type} {ops : FlowOps Flow FlowInfo}.
Hypothesis Hflows : flows_only_route.

(** A node's step changes the progress of no other node. *)
Lemma step_node_frame (fuel : nat) (action : list (string * list Q))
    (date : datetime) (i : nat) (nodes nodes' : list (node Flow))
    (o : outcome FlowInfo) :
  step_node fuel action date i nodes = Ok (nodes', o) ->
  length nodes' = length nodes
  /\ (i < length nodes)%nat
  /\ forall j, j <> i ->
       node_progress <$> nodes' !! j = node_progress <$> nodes !! j.
Proof using Hflows.
  unfold step_node. intros H.
  destruct (nodes !! i) as [n|] eqn:En; [|discriminate].
  pose proof (lookup_lt_Some _ _ _ En) as Hlt.
  destruct n as [r|p|d|f]; cbn [fmap option_fmap option_map
                                 set_current_date] in H.
  - inv_bind H as a Ha. inv_bind H as x Hx. destruct x as [r' res].
    injection H as <- <-. split; [apply length_insert|]. split; [exact Hlt|].
    intros j Hj. rewrite list_lookup_insert_ne by congruence. reflexivity.
  - inv_bind H as x Hx. destruct x as [p' res].
    injection H as <- <-. split; [apply length_insert|]. split; [exact Hlt|].
    intros j Hj. rewrite list_lookup_insert_ne by congruence. reflexivity.
  - inv_bind H as x Hx. destruct x as [d' res].
    injection H as <- <-. split; [apply length_insert|]. split; [exact Hlt|].
    intros j Hj. rewrite list_lookup_insert_ne by congruence. reflexivity.
  - inv_bind H as x Hx. destruct x as [[f' nodes1] [[term trunc] inf]].
    injection H as <- <-.
    destruct (Hflows _ _ _ _ _ Hx) as [Hlen Hprog].
    rewrite length_insert in Hlen.
    split; [rewrite length_insert; exact Hlen|]. split; [exact Hlt|].
    intros j Hj. rewrite list_lookup_insert_ne by congruence.
    rewrite Hprog. rewrite list_lookup_insert_ne by congruence. reflexivity.
Qed.

Lemma accumulate_flags (acc acc' : accum FlowInfo) (o : outcome FlowInfo) :
  accumulate acc o = Ok acc' ->
  final_terminated acc' = final_terminated acc || o_terminated o
  /\ final_truncated acc' = final_truncated acc || o_truncated o.
Proof.
  unfold accumulate. intros H. inv_bind H as fr Hfr. injection H as <-.
  cbn [final_terminated final_truncated]. unfold _is_truncated.
  rewrite orb_false_r. split; reflexivity.
Qed.

(** The loop changes the progress of no node after the positions it
    covers. *)
Lemma run_frame (fuel : nat) (action : list (string * list Q))
    (date : datetime) (count i : nat) (nodes nodes' : list (node Flow))
    (acc acc' : accum FlowInfo) :
  run fuel action date i count nodes acc = Ok (nodes', acc') ->
  length nodes' = length nodes
  /\ forall j, (i + count <= j)%nat ->
       node_progress <$> nodes' !! j = node_progress <$> nodes !! j.
Proof using Hflows.
  revert i nodes acc. induction count as [|count IH]; intros i nodes acc H.
  - simpl in H. injection H as <- <-. split; reflexivity.
  - cbn [run] in H. inv_bind H as x Hx. destruct x as [nodes1 o].
    inv_bind H as acc1 Hacc1.
    destruct (step_node_frame _ _ _ _ _ _ _ Hx) as (Hlen1 & _ & Hprog1).
    destruct (final_terminated acc1 || final_truncated acc1).
    + injection H as <- <-. split; [exact Hlen1|].
      intros j Hj. apply Hprog1. lia.
    + destruct (IH _ _ _ H) as [Hlen Hprog]. split; [congruence|].
      intros j Hj. rewrite Hprog by lia. apply Hprog1. lia.
Qed.

(** A prefix of the loop that raised no flag is continued by the loop over
    the remaining positions. *)
Lemma run_continue (fuel : nat) (action : list (string * list Q))
    (date : datetime) (k m i : nat) (nodes nodes_k : list (node Flow))
    (acc acc_k : accum FlowInfo) :
  run fuel action date i k nodes acc = Ok (nodes_k, acc_k) ->
  final_terminated acc_k || final_truncated acc_k = false ->
  run fuel action date i (k + m) nodes acc
  = run fuel action date (i + k) m nodes_k acc_k.
Proof.
  revert i nodes acc. induction k as [|k IH]; intros i nodes acc H Hno.
  - simpl in H. injection H as <- <-. rewrite Nat.add_0_r. reflexivity.
  - cbn [run] in H. cbn [Nat.add run].
    inv_bind H as x Hx. destruct x as [nodes1 o].
    inv_bind H as acc1 Hacc1. rewrite Hx. norm. rewrite Hacc1. norm.
    destruct (final_terminated acc1 || final_truncated acc1) eqn:E.
    + injection H as <- <-. congruence.
    + rewrite (IH _ _ _ H Hno). f_equal. lia.
Qed.

End OrchestratorFacts.

Section ShortCircuit.
Import WaterManagementSystem.
Context {Flow FlowInfo : Type} {ops : FlowOps Flow FlowInfo}.

(** C6.  In a step of the system, let the loop have gone through the
    first [k] nodes without a flag, and let node [k] report terminated or
    truncated.  Then the step ends with the nodes as node [k] left them: no
    later node is stepped, so the outflow history and the local step
    counter of every later node are those it had before the step, while the
    global step counter advances by one and the clock by one
    [timestep_size]. *)
Theorem step_stops_at_first_flagged_node (fuel : nat) (self : t Flow)
    (action : list (string * list Q)) (k : nat)
    (nodes_k nodes' : list (node Flow)) (acc_k acc' : accum FlowInfo)
    (o : outcome FlowInfo) :
  flows_only_route ->
  run fuel action (current_date self) 0 k (water_systems self)
      (initial_accum self) = Ok (nodes_k, acc_k) ->
  final_terminated acc_k || final_truncated acc_k = false ->
  step_node fuel action (current_date self) k nodes_k = Ok (nodes', o) ->
  o_terminated o || o_truncated o = true ->
  accumulate acc_k o = Ok acc' ->
  exists self' out,
    step fuel self action = Ok (self', out)
    /\ water_systems self' = nodes'
    /\ (forall j, (k < j)%nat ->
          node_progress <$> water_systems self' !! j
          = node_progress <$> water_systems self !! j)
    /\ timestep self' = S (timestep self)
    /\ current_date self'
       = date_add (current_date self) (timestep_size self)
    /\ out_terminated out || out_truncated out = true.
Proof.
  intros Hflows Hprefix Hno Hnode Hflag Hacc.
  destruct (run_frame Hflows _ _ _ _ _ _ _ _ _ Hprefix) as [Hlen_k Hprog_k].
  destruct (step_node_frame Hflows _ _ _ _ _ _ _ Hnode)
    as (Hlen' & Hk & Hprog').
  destruct (accumulate_flags _ _ _ Hacc) as [Hterm Htrunc].
  assert (Hflagged : final_terminated acc' || final_truncated acc' = true).
  { rewrite Hterm, Htrunc.
    destruct (o_terminated o), (o_truncated o),
      (final_terminated acc_k), (final_truncated acc_k);
      simpl in *; congruence. }
  assert (Hrun : run fuel action (current_date self) 0
                   (length (water_systems self)) (water_systems self)
                   (initial_accum self) = Ok (nodes', acc')).
  { replace (length (water_systems self))
      with (k + S (length (water_systems self) - S k))%nat by lia.
    rewrite (run_continue _ _ _ _ _ _ _ _ _ _ Hprefix Hno).
    cbn [run Nat.add]. rewrite Hnode. norm. rewrite Hacc. norm.
    rewrite Hflagged. reflexivity. }
  unfold step. rewrite Hrun. norm.
  eexists _, _. split; [reflexivity|].
  cbn [water_systems timestep current_date out_terminated out_truncated].
  repeat split.
  - intros j Hj. rewrite Hprog' by lia. apply Hprog_k. lia.
  - exact Hflagged.
Qed.

End ShortCircuit.

Lemma node_set_inflow_progress {Flow : Type}
    (n n' : WaterManagementSystem.node Flow) (t : Z) (v : Q) :
  WaterManagementSystem.node_set_inflow n t v = Ok n' ->
  WaterManagementSystem.node_progress n'
  = WaterManagementSystem.node_progress n.
Proof.
  destruct n as [r|p|d|f]; cbn [WaterManagementSystem.node_set_inflow];
    intros H; [| | |discriminate].
  - inv_bind H as r' Hr'. injection H as <-.
    apply reservoir_set_inflow_inv in Hr'. destruct Hr' as (l & _ & ->).
    reflexivity.
  - inv_bind H as p' Hp'. injection H as <-.
    unfold PowerPlant.set_inflow, Facility.set_inflow in Hp'.
    inv_bind Hp' as f Hf. inv_bind Hf as l Hl.
    injection Hf as <-. injection Hp' as <-. reflexivity.
  - inv_bind H as d' Hd'. injection H as <-.
    unfold IrrigationDistrict.set_inflow, Facility.set_inflow in Hd'.
    inv_bind Hd' as f Hf. inv_bind Hf as l Hl.
    injection Hf as <-. injection Hd' as <-. reflexivity.
Qed.

(** The inflow edge of the scenarios only routes. *)
Lemma feed_only_routes :
  WaterManagementSystem.flows_only_route (ops := Scenario.feed_ops).
Proof.
  intros f nodes f' nodes' res H.
  cbn [WaterManagementSystem.flow_step Scenario.feed_ops] in H.
  unfold Scenario.feed_step in H.
  inv_bind H as v Hv.
  destruct (nodes !! Scenario.feed_destination f) as [n|] eqn:En;
    [|discriminate].
  inv_bind H as n' Hn'. injection H as <- <- <-.
  split; [apply length_insert|].
  intros j. destruct (decide (j = Scenario.feed_destination f)) as [->|Hj].
  - rewrite list_lookup_insert_eq by (eapply lookup_lt_Some; exact En).
    rewrite En. cbn [fmap option_fmap option_map]. f_equal.
    eapply node_set_inflow_progress. exact Hn'.
  - rewrite list_lookup_insert_ne by congruence. reflexivity.
Qed.

(** Witness of C6: in the chain of the scenario the two edges and the first
    district are stepped without a flag; the reservoir, fourth in the list,
    runs dry and reports terminated; the district after it is not
    stepped. *)
Lemma step_stops_at_first_flagged_node_witness :
  exists self' out,
    WaterManagementSystem.step 4 Scenario.chain_system
      [("reservoir"%string, [50%Q])] = Ok (self', out)
    /\ WaterManagementSystem.node_progress
         <$> WaterManagementSystem.water_systems self' !! 4%nat
       = WaterManagementSystem.node_progress
           <$> WaterManagementSystem.water_systems Scenario.chain_system
               !! 4%nat
    /\ WaterManagementSystem.timestep self' = 1%nat
    /\ WaterManagementSystem.out_terminated out
       || WaterManagementSystem.out_truncated out = true.
Proof.
  edestruct (step_stops_at_first_flagged_node (ops := Scenario.feed_ops)
               4 Scenario.chain_system [("reservoir"%string, [50%Q])] 3)
    as (self' & out & Hstep & _ & Hprog & Hts & _ & Hflag).
  - exact feed_only_routes.
  - vm_compute. reflexivity.
  - vm_compute. reflexivity.
  - vm_compute. reflexivity.
  - vm_compute. reflexivity.
  - vm_compute. reflexivity.
  - exists self', out. split; [exact Hstep|].
    split; [apply Hprog; lia|]. split; [exact Hts|exact Hflag].
Defined.

(** ** Reset *)

Section ResetFacts.
Import WaterManagementSystem.
Context {Flow FlowInfo : Type} {ops : FlowOps Flow FlowInfo}.

Lemma node_reset_episode_zero (start : datetime) (n n' : node Flow) :
  node_reset (set_current_date start n) = Ok n' ->
  at_episode_zero start n n'.
Proof.
  destruct n as [r|p|d|f]; cbn [set_current_date node_reset]; intros H.
  - inv_bind H as r' Hr'. injection H as <-.
    unfold Reservoir.reset in Hr'. norm in Hr'.
    inv_bind Hr' as s0 Hs0. injection Hr' as <-.
    change 0%Z with (Z.of_nat 0) in Hs0. apply getitem_nat_inv in Hs0.
    cbn [at_episode_zero]. norm.
    destruct (Reservoir.storage_vector r) as [|x l]; [discriminate|].
    injection Hs0 as ->. repeat split.
  - injection H as <-. cbn [at_episode_zero]. repeat split.
  - injection H as <-. cbn [at_episode_zero]. repeat split.
  - injection H as <-. reflexivity.
Qed.

Lemma reset_nodes_episode_zero (start : datetime)
    (nodes nodes' : list (node Flow)) :
  reset_nodes start nodes = Ok nodes' ->
  Forall2 (at_episode_zero start) nodes nodes'.
Proof.
  revert nodes'. induction nodes as [|n nodes IH]; intros nodes' H.
  - injection H as <-. constructor.
  - cbn [reset_nodes] in H. inv_bind H as n' Hn'.
    inv_bind H as rest Hrest. injection H as <-.
    constructor; [apply node_reset_episode_zero; exact Hn'|].
    apply IH. exact Hrest.
Qed.

(** What [reset] does: the nodes are back at episode zero, the clock is at
    the start and the reward buckets are zero; the observation it returns
    is the one the nodes gave before they were reset. *)
Lemma reset_spec (self self' : t Flow) (obs : list Q) :
  reset self = Ok (self', obs) ->
  Forall2 (at_episode_zero (start_date self))
          (water_systems self) (water_systems self')
  /\ timestep self' = 0%nat
  /\ current_date self' = start_date self
  /\ Forall (fun kv => kv.2 = 0%Q) (rewards self')
  /\ obs = _determine_observation (water_systems self).
Proof.
  unfold reset. intros H. inv_bind H as nodes Hnodes.
  injection H as <- <-. cbn [water_systems timestep current_date rewards].
  repeat split.
  - apply reset_nodes_episode_zero. exact Hnodes.
  - apply Forall_forall. intros kv Hkv.
    apply list_elem_of_fmap in Hkv. destruct Hkv as (kv0 & -> & _).
    reflexivity.
Qed.

End ResetFacts.

(** C3, evaluated.  The system around the reservoir of the scenario gives
    the observation [100] after construction.  After one step with the
    action 20 the reservoir stores 36100; [reset] then puts every history
    of the reservoir back to its episode-zero value, but the observation it
    returns is [36100], the one computed before the nodes were reset. *)
Theorem reset_returns_observation_before_reset :
  exists sys1 out sys2 obs,
    WaterManagementSystem.step 4 Scenario.system
      [("reservoir"%string, [20%Q])] = Ok (sys1, out)
    /\ WaterManagementSystem.reset sys1 = Ok (sys2, obs)
    /\ WaterManagementSystem.observation Scenario.system = [100%Q]
    /\ Forall2 Qeq obs [36100%Q]
    /\ ~ Forall2 Qeq obs (WaterManagementSystem.observation Scenario.system)
    /\ WaterManagementSystem._determine_observation
         (WaterManagementSystem.water_systems sys2) = [100%Q]
    /\ Forall2 (WaterManagementSystem.at_episode_zero 0%Z)
         (WaterManagementSystem.water_systems sys1)
         (WaterManagementSystem.water_systems sys2).
Proof.
  destruct (WaterManagementSystem.step 4 Scenario.system
              [("reservoir"%string, [20%Q])]) as [[sys1 out]|e] eqn:E1;
    [|vm_compute in E1; discriminate].
  destruct (WaterManagementSystem.reset sys1) as [[sys2 obs]|e] eqn:E2.
  2:{ vm_compute in E1. injection E1 as <- <-.
      vm_compute in E2. discriminate. }
  exists sys1, out, sys2, obs.
  split; [reflexivity|]. split; [exact E2|]. split; [reflexivity|].
  destruct (reset_spec _ _ _ E2) as (Hzero & _ & _ & _ & Hobs).
  vm_compute in E1. injection E1 as <- <-.
  cbn [WaterManagementSystem.start_date] in Hzero.
  vm_compute in Hobs. subst obs.
  split; [|split; [|split; [|exact Hzero]]].
  - constructor; [vm_compute; reflexivity|constructor].
  - intros Hbad. inversion Hbad as [|x y lx ly Hx Hrest]. subst.
    vm_compute in Hx. discriminate Hx.
  - clear Hzero. vm_compute in E2. injection E2 as <-. reflexivity.
Qed.

(** ** Fuel *)

(** Sub-steps that move the date forward reach the final date, within as
    many turns as there are microseconds to cover. *)
Lemma dates_reach_by_progress (ig : relativedelta) (final_date : datetime)
    (n : nat) (d : datetime) :
  (forall d', (d <= d' < final_date)%Z -> (d' < date_add d' ig)%Z) ->
  (final_date - d <= Z.of_nat n)%Z ->
  dates_reach n ig final_date d = true.
Proof.
  revert d. induction n as [|n IH]; intros d Hprog Hn; simpl.
  - destruct (Z.ltb_spec d final_date); [lia|reflexivity].
  - destruct (Z.ltb_spec d final_date) as [Hlt|Hge]; [|reflexivity].
    pose proof (Hprog d ltac:(lia)) as Hstep.
    apply IH.
    + intros d' Hd'. apply Hprog. lia.
    + lia.
Qed.

(** More fuel changes nothing. *)
Lemma dates_reach_more_fuel (ig : relativedelta) (final_date : datetime)
    (n m : nat) (d : datetime) :
  dates_reach n ig final_date d = true ->
  dates_reach (n + m) ig final_date d = true.
Proof.
  revert d. induction n as [|n IH]; intros d H; simpl in *.
  - destruct (d <? final_date)%Z eqn:E; [discriminate|].
    destruct m; simpl; rewrite E; reflexivity.
  - destruct (d <? final_date)%Z; [|reflexivity]. apply IH. exact H.
Qed.

Lemma integrate_more_fuel (n m : nat) (r : Reservoir.t)
    (final_date : datetime) (rate total : Q)
    (st st' : Reservoir.loop_state) :
  Reservoir.integrate n r final_date rate total st = Ok st' ->
  Reservoir.integrate (n + m) r final_date rate total st = Ok st'.
Proof.
  revert st. induction n as [|n IH]; intros st H.
  - destruct (Z_lt_le_dec (Reservoir.ls_date st) final_date) as [Hlt|Hge].
    + destruct (integrate_unfold_turn 0 r final_date rate total st Hlt)
        as (_ & _ & E). congruence.
    + destruct (integrate_unfold_stop 0 r final_date rate total st Hge)
        as [E _].
      rewrite E in H. injection H as <-.
      apply (integrate_unfold_stop (0 + m) r final_date rate total st Hge).
  - destruct (Z_lt_le_dec (Reservoir.ls_date st) final_date) as [Hlt|Hge].
    + destruct (integrate_unfold_turn n r final_date rate total st Hlt)
        as (E & _ & _).
      rewrite E in H. inv_bind H as st1 Hst1.
      change (S n + m)%nat with (S (n + m)).
      destruct (integrate_unfold_turn (n + m) r final_date rate total st Hlt)
        as (E' & _ & _).
      rewrite E', Hst1. norm. apply IH. exact H.
    + destruct (integrate_unfold_stop (S n) r final_date rate total st Hge)
        as [E _].
      rewrite E in H. injection H as <-.
      apply (integrate_unfold_stop (S n + m) r final_date rate total st Hge).
Qed.

(** ** What [step] leaves alone in a district *)

(** [IrrigationDistrict.step] does not call [determine_deficit]: the
    deficit history and the running total are those the district had. *)
Lemma district_step_keeps_deficits (d d' : IrrigationDistrict.t)
    (res : step_result) :
  IrrigationDistrict.step d = Ok (d', res) ->
  IrrigationDistrict.total_deficit d' = IrrigationDistrict.total_deficit d
  /\ IrrigationDistrict.all_deficit d' = IrrigationDistrict.all_deficit d.
Proof.
  unfold IrrigationDistrict.step, Facility.step. norm. intros H.
  inv_bind H as out Hout. inv_bind H as x Hx. destruct x as [d1 rew].
  inv_bind H as inf Hinf. injection H as <- _.
  unfold IrrigationDistrict.determine_reward in Hx.
  inv_bind Hx as demand Hdemand. inv_bind Hx as inflow Hinflow.
  injection Hx as <- _. split; reflexivity.
Qed.


(* ===================================================================== *)
(** * Further properties of the node classes *)
(* ===================================================================== *)

(** ** Reading back what was written *)

Lemma ledger_set_inflow_nat (l l' : list Q) (t : nat) (v : Q) :
  Ledger.set_inflow l (Z.of_nat t) v = Ok l' ->
  (t <= length l)%nat
  /\ l' = match l !! t with
          | Some old => <[t := (old + v)%Q]> l
          | None => l ++ [v]
          end.
Proof.
  intros H.
  destruct (Nat.lt_trichotomy t (length l)) as [Hlt|[->|Hgt]].
  - destruct (ledger_set_inflow_slot l (Z.of_nat t) t v) as (old & Hold & E).
    + lia.
    + rewrite norm_index_nonneg, Nat2Z.id by lia. reflexivity.
    + rewrite E in H. injection H as <-. rewrite Hold.
      split; [lia|reflexivity].
  - rewrite ledger_set_inflow_append in H. injection H as <-.
    rewrite lookup_ge_None_2 by lia. split; [lia|reflexivity].
  - rewrite ledger_set_inflow_fault in H by lia. discriminate.
Qed.

Lemma ledger_read_back (l l' : list Q) (t : nat) (v : Q) :
  Ledger.set_inflow l (Z.of_nat t) v = Ok l' ->
  Ledger.get l' (Z.of_nat t)
  = Ok (match l !! t with Some old => (old + v)%Q | None => v end)
  /\ (forall j, j <> t -> l' !! j = l !! j)
  /\ length l' = Nat.max (length l) (S t).
Proof.
  intros H. destruct (ledger_set_inflow_nat _ _ _ _ H) as [Hle ->].
  destruct (l !! t) as [old|] eqn:E.
  - pose proof (lookup_lt_Some _ _ _ E) as Hlt. repeat split.
    + apply getitem_nat. apply list_lookup_insert_eq. exact Hlt.
    + intros j Hj. apply list_lookup_insert_ne. congruence.
    + rewrite length_insert. lia.
  - apply lookup_ge_None in E. assert (t = length l) as -> by lia.
    repeat split.
    + apply getitem_nat. rewrite lookup_app_r, Nat.sub_diag by lia.
      reflexivity.
    + intros j Hj. destruct (Nat.lt_ge_cases j (length l)).
      * apply lookup_app_l. exact H0.
      * rewrite !lookup_ge_None_2; [reflexivity|lia|].
        rewrite length_app. simpl. lia.
    + rewrite length_app. simpl. lia.
Qed.

(** X1.  After a successful [set_inflow(t, v)] on a facility,
    [get_inflow(t)] returns [v] when the slot was new and the sum of the
    old content and [v] when it was already written; every other slot
    reads as before, the history has grown by at most the one slot, and
    the outflow history and the step counter are untouched. *)
Theorem get_inflow_reads_back_set_inflow (f f' : Facility.t) (t : nat)
    (v : Q) :
  Facility.set_inflow f (Z.of_nat t) v = Ok f' ->
  Facility.get_inflow f' (Z.of_nat t)
  = Ok (match Facility.all_inflow f !! t with
        | Some old => (old + v)%Q
        | None => v
        end)
  /\ (forall j, j <> t ->
        Facility.all_inflow f' !! j = Facility.all_inflow f !! j)
  /\ length (Facility.all_inflow f')
     = Nat.max (length (Facility.all_inflow f)) (S t)
  /\ Facility.all_outflow f' = Facility.all_outflow f
  /\ Facility.timestep f' = Facility.timestep f.
Proof.
  unfold Facility.set_inflow. intros H. inv_bind H as l Hl.
  injection H as <-.
  destruct (ledger_read_back _ _ _ _ Hl) as (Hget & Hother & Hlen).
  repeat split; assumption.
Qed.

Lemma get_inflow_reads_back_set_inflow_witness :
  exists f',
    Facility.set_inflow
      (Facility.with_all_inflow [1%Q; 2%Q] (Facility.init "n" "")) 1 5%Q
    = Ok f'
    /\ Facility.get_inflow f' 1 = Ok (2 + 5)%Q.
Proof.
  eexists. split; [reflexivity|].
  match goal with
  | |- Facility.get_inflow ?f' _ = _ =>
      destruct (get_inflow_reads_back_set_inflow
                  (Facility.with_all_inflow [1%Q; 2%Q]
                     (Facility.init "n" "")) f' 1%nat 5%Q eq_refl)
        as (Hget & _)
  end.
  exact Hget.
Defined.

(** X2.  Two edges that write [v] and [w] into the same slot of a
    controlled facility leave the same history whichever writes first: both
    orders succeed as soon as the slot is not beyond the end of the
    history, and the two histories are equal entry by entry. *)
Theorem set_inflow_order_is_irrelevant (c : ControlledFacility.t) (t : nat)
    (v w : Q) :
  (t <= length (ControlledFacility.all_inflow c))%nat ->
  exists c1 c2,
    write_twice ControlledFacility.set_inflow c (Z.of_nat t) v w = Ok c1
    /\ write_twice ControlledFacility.set_inflow c (Z.of_nat t) w v = Ok c2
    /\ Forall2 Qeq (ControlledFacility.all_inflow c1)
                   (ControlledFacility.all_inflow c2)
    /\ length (ControlledFacility.all_inflow c1)
       = Nat.max (length (ControlledFacility.all_inflow c)) (S t).
Proof.
  intros Hle. unfold write_twice, ControlledFacility.set_inflow.
  set (l := ControlledFacility.all_inflow c) in *.
  assert (Hboth : forall a b,
            exists l2,
              (Ledger.set_inflow l (Z.of_nat t) a
               ≫= fun l1 => Ledger.set_inflow l1 (Z.of_nat t) b) = Ok l2
              /\ l2 = match l !! t with
                      | Some old => <[t := (old + a + b)%Q]> l
                      | None => l ++ [(a + b)%Q]
                      end).
  { intros a b.
    destruct (l !! t) as [old|] eqn:E.
    - pose proof (lookup_lt_Some _ _ _ E) as Hlt.
      destruct (ledger_set_inflow_slot l (Z.of_nat t) t a)
        as (old' & Hold' & ->).
      { lia. }
      { rewrite norm_index_nonneg, Nat2Z.id by lia. reflexivity. }
      rewrite E in Hold'. injection Hold' as <-. norm.
      destruct (ledger_set_inflow_slot (<[t := (old + a)%Q]> l)
                  (Z.of_nat t) t b) as (old2 & Hold2 & ->).
      { rewrite length_insert. lia. }
      { rewrite norm_index_nonneg, Nat2Z.id; [reflexivity|].
        rewrite length_insert. lia. }
      rewrite list_lookup_insert_eq in Hold2 by exact Hlt.
      injection Hold2 as <-.
      eexists. split; [reflexivity|]. apply list_insert_insert_eq.
    - apply lookup_ge_None in E. assert (t = length l) as -> by lia.
      rewrite ledger_set_inflow_append. norm.
      destruct (ledger_set_inflow_slot (l ++ [a]) (Z.of_nat (length l))
                  (length l) b) as (old2 & Hold2 & ->).
      { rewrite length_app. simpl. lia. }
      { rewrite norm_index_nonneg, Nat2Z.id; [reflexivity|].
        rewrite length_app. simpl. lia. }
      rewrite lookup_app_r, Nat.sub_diag in Hold2 by lia.
      injection Hold2 as <-.
      eexists. split; [reflexivity|].
      replace (length l) with (length l + 0)%nat at 1 by lia.
      rewrite insert_app_r. reflexivity. }
  destruct (Hboth v w) as (l1 & H1 & E1).
  destruct (Hboth w v) as (l2 & H2 & E2).
  apply bind_Ok in H1. destruct H1 as (m1 & Hm1 & H1).
  apply bind_Ok in H2. destruct H2 as (m2 & Hm2 & H2).
  rewrite Hm1, Hm2. norm. rewrite H1, H2. norm.
  eexists _, _. split; [reflexivity|]. split; [reflexivity|]. norm.
  subst l1 l2. destruct (l !! t) as [old|] eqn:E.
  - split.
    + apply Forall2_same_length_lookup. split.
      * rewrite !length_insert. reflexivity.
      * intros i x y Hx Hy.
        destruct (decide (i = t)) as [->|Hi].
        -- pose proof (lookup_lt_Some _ _ _ E) as Hlt.
           rewrite list_lookup_insert_eq in Hx, Hy by exact Hlt.
           injection Hx as <-. injection Hy as <-. ring.
        -- rewrite list_lookup_insert_ne in Hx, Hy by congruence.
           rewrite Hx in Hy. injection Hy as <-. reflexivity.
    + rewrite length_insert. apply lookup_lt_Some in E. lia.
  - split.
    + apply Forall2_app.
      * apply Forall2_same_length_lookup. split; [reflexivity|].
        intros i x y Hx Hy. rewrite Hx in Hy. injection Hy as <-.
        reflexivity.
      * constructor; [ring|constructor].
    + apply lookup_ge_None in E. rewrite length_app. simpl. lia.
Qed.

Lemma set_inflow_order_is_irrelevant_witness :
  exists c1 c2,
    write_twice ControlledFacility.set_inflow
      (Reservoir.cf Scenario.reservoir) 0 5%Q 3%Q = Ok c1
    /\ write_twice ControlledFacility.set_inflow
         (Reservoir.cf Scenario.reservoir) 0 3%Q 5%Q = Ok c2
    /\ Forall2 Qeq (ControlledFacility.all_inflow c1)
                   (ControlledFacility.all_inflow c2).
Proof.
  destruct (set_inflow_order_is_irrelevant (Reservoir.cf Scenario.reservoir)
              0%nat 5%Q 3%Q) as (c1 & c2 & H1 & H2 & Heq & _).
  - simpl. lia.
  - exists c1, c2. repeat split; assumption.
Defined.

(** X3.  A facility of any subclass that is stepped before an edge has
    written the inflow of its current timestep raises [IndexError], before
    any of its methods has run. *)
Theorem facility_step_without_inflow_faults {S : Type}
    (M : Facility.Methods S) (self : S) :
  (length (Facility.all_inflow (Facility.base self))
   <= Facility.timestep (Facility.base self))%nat ->
  Facility.step M self = Raise IndexError.
Proof.
  intros H. unfold Facility.step, Facility.determine_outflow,
    Facility.get_inflow, Ledger.get, Py.getitem.
  rewrite norm_index_out by lia. reflexivity.
Qed.

Lemma facility_step_without_inflow_faults_witness :
  IrrigationDistrict.step Scenario.district = Raise IndexError.
Proof.
  apply (facility_step_without_inflow_faults IrrigationDistrict.methods
           Scenario.district).
  simpl. lia.
Defined.

(** ** Irrigation districts: what is consumed and what is passed on *)

Lemma district_current_demand_inv (d : IrrigationDistrict.t) (demand : Q) :
  IrrigationDistrict.get_current_demand d = Ok demand ->
  IrrigationDistrict.all_demand d
    !! (Facility.timestep (IrrigationDistrict.fac d)
        mod length (IrrigationDistrict.all_demand d))%nat = Some demand.
Proof.
  unfold IrrigationDistrict.get_current_demand.
  destruct (length (IrrigationDistrict.all_demand d)) as [|n] eqn:E;
    [discriminate|].
  apply getitem_nat_inv.
Qed.

(** What a successful step of a district has read and written. *)
Lemma district_step_inv (d d' : IrrigationDistrict.t) (res : step_result) :
  IrrigationDistrict.step d = Ok (d', res) ->
  exists demand inflow,
    IrrigationDistrict.all_demand d
      !! (Facility.timestep (IrrigationDistrict.fac d)
          mod length (IrrigationDistrict.all_demand d))%nat = Some demand
    /\ Facility.all_inflow (IrrigationDistrict.fac d)
         !! Facility.timestep (IrrigationDistrict.fac d) = Some inflow
    /\ Facility.all_outflow (IrrigationDistrict.fac d')
       = Facility.all_outflow (IrrigationDistrict.fac d)
           ++ [(inflow - Qmin demand inflow)%Q]
    /\ Facility.all_inflow (IrrigationDistrict.fac d')
       = Facility.all_inflow (IrrigationDistrict.fac d)
    /\ Facility.timestep (IrrigationDistrict.fac d')
       = S (Facility.timestep (IrrigationDistrict.fac d))
    /\ IrrigationDistrict.all_demand d' = IrrigationDistrict.all_demand d
    /\ sr_reward res = IrrigationDistrict.objective_function d demand inflow
    /\ sr_terminated res = false
    /\ sr_truncated res = IrrigationDistrict.is_truncated d.
Proof.
  unfold IrrigationDistrict.step, Facility.step, Facility.determine_outflow.
  norm. intros H.
  inv_bind H as out Hout. inv_bind Hout as inflow Hin.
  inv_bind Hout as c Hc. injection Hout as <-.
  unfold IrrigationDistrict.determine_consumption in Hc.
  inv_bind Hc as demand Hdem. inv_bind Hc as inflow' Hin'.
  injection Hc as <-.
  rewrite Hin in Hin'. injection Hin' as <-.
  inv_bind H as x Hx. destruct x as [d1 rew].
  unfold IrrigationDistrict.determine_reward in Hx.
  rewrite district_demand_outflow_frame, Hdem in Hx. norm in Hx.
  rewrite facility_get_inflow_outflow_frame, Hin in Hx. norm in Hx.
  injection Hx as <- <-.
  inv_bind H as inf Hinf. injection H as <- <-.
  exists demand, inflow. norm.
  split; [apply district_current_demand_inv; exact Hdem|].
  split; [apply getitem_nat_inv; exact Hin|].
  repeat split.
Qed.

(** X4.  In every successful step of a district the water consumed is at
    most the demand and at most the inflow, consumption and outflow add up
    to the inflow, and the outflow passed downstream is the surplus
    [max(0, inflow - demand)], hence never negative. *)
Theorem district_passes_on_the_surplus (d d' : IrrigationDistrict.t)
    (res : step_result) :
  IrrigationDistrict.step d = Ok (d', res) ->
  exists demand inflow consumption outflow,
    IrrigationDistrict.get_current_demand d = Ok demand
    /\ Facility.get_inflow (IrrigationDistrict.fac d)
         (Z.of_nat (Facility.timestep (IrrigationDistrict.fac d)))
       = Ok inflow
    /\ IrrigationDistrict.determine_consumption d = Ok consumption
    /\ Facility.all_outflow (IrrigationDistrict.fac d')
       = Facility.all_outflow (IrrigationDistrict.fac d) ++ [outflow]
    /\ (consumption <= demand)%Q /\ (consumption <= inflow)%Q
    /\ (consumption + outflow == inflow)%Q
    /\ (outflow == Qmax 0 (inflow - demand))%Q
    /\ (0 <= outflow)%Q.
Proof.
  intros H.
  destruct (district_step_inv _ _ _ H)
    as (demand & inflow & Hdem & Hin & Hout & _).
  pose proof (district_current_demand d demand Hdem) as Hcur.
  assert (Hget : Facility.get_inflow (IrrigationDistrict.fac d)
                   (Z.of_nat (Facility.timestep (IrrigationDistrict.fac d)))
                 = Ok inflow) by (apply getitem_nat; exact Hin).
  assert (Hcons : IrrigationDistrict.determine_consumption d
                  = Ok (Qmin demand inflow)).
  { unfold IrrigationDistrict.determine_consumption.
    rewrite Hcur. norm. rewrite Hget. reflexivity. }
  exists demand, inflow, (Qmin demand inflow),
    (inflow - Qmin demand inflow)%Q.
  split; [exact Hcur|]. split; [exact Hget|]. split; [exact Hcons|].
  split; [exact Hout|].
  pose proof (Q.le_min_l demand inflow) as Hl.
  pose proof (Q.le_min_r demand inflow) as Hr.
  split; [assumption|]. split; [assumption|]. split; [ring|].
  split; [|lra].
  destruct (Q.min_spec demand inflow) as [[H1 H2]|[H1 H2]];
    destruct (Q.max_spec 0 (inflow - demand)) as [[H3 H4]|[H3 H4]];
    rewrite H2, H4; lra.
Qed.

Lemma district_passes_on_the_surplus_witness :
  exists d' res outflow,
    IrrigationDistrict.step Fixtures.district_fed = Ok (d', res)
    /\ Facility.all_outflow (IrrigationDistrict.fac d') = [outflow]
    /\ (outflow == 30)%Q.
Proof.
  destruct (IrrigationDistrict.step Fixtures.district_fed)
    as [[d' res]|e] eqn:E; [|vm_compute in E; discriminate].
  destruct (district_passes_on_the_surplus _ _ _ E)
    as (demand & inflow & consumption & outflow
        & Hdem & Hin & _ & Hout & _ & _ & _ & Hmax & _).
  exists d', res, outflow. split; [reflexivity|]. split; [exact Hout|].
  vm_compute in Hdem. injection Hdem as <-.
  vm_compute in Hin. injection Hin as <-.
  rewrite Hmax. vm_compute. reflexivity.
Defined.

(** X5.  The demand schedule is reused cyclically: two states of a district
    whose step counters differ by a multiple of the schedule length see the
    same demand.  Truncation sticks: once a step has reported truncated,
    every later step of the district reports truncated. *)
Theorem district_schedule_cycles_and_truncation_sticks
    (d : IrrigationDistrict.t) :
  (forall d2 n,
     IrrigationDistrict.all_demand d2 = IrrigationDistrict.all_demand d ->
     Facility.timestep (IrrigationDistrict.fac d2)
     = (Facility.timestep (IrrigationDistrict.fac d)
        + n * length (IrrigationDistrict.all_demand d))%nat ->
     IrrigationDistrict.get_current_demand d2
     = IrrigationDistrict.get_current_demand d)
  /\ (forall d1 res1 d2 res2,
        IrrigationDistrict.step d = Ok (d1, res1) ->
        sr_truncated res1 = true ->
        IrrigationDistrict.step d1 = Ok (d2, res2) ->
        sr_truncated res2 = true).
Proof.
  split.
  - intros d2 n Hsched Hts.
    unfold IrrigationDistrict.get_current_demand. rewrite Hsched, Hts.
    destruct (length (IrrigationDistrict.all_demand d)) as [|len] eqn:E;
      [reflexivity|].
    rewrite Nat.Div0.mod_add. reflexivity.
  - intros d1 res1 d2 res2 H1 Htr H2.
    destruct (district_step_inv _ _ _ H1)
      as (_ & _ & _ & _ & _ & _ & Hts1 & Hdem1 & _ & _ & Htr1).
    destruct (district_step_inv _ _ _ H2)
      as (_ & _ & _ & _ & _ & _ & _ & _ & _ & _ & Htr2).
    rewrite Htr2. rewrite Htr1 in Htr.
    unfold IrrigationDistrict.is_truncated in *.
    rewrite Hts1, Hdem1. apply Nat.leb_le. apply Nat.leb_le in Htr. lia.
Qed.

Lemma district_schedule_cycles_and_truncation_sticks_witness :
  IrrigationDistrict.get_current_demand
    (IrrigationDistrict.with_fac
       (Facility.with_timestep 4
          (IrrigationDistrict.fac Scenario.district)) Scenario.district)
  = IrrigationDistrict.get_current_demand Scenario.district.
Proof.
  destruct (district_schedule_cycles_and_truncation_sticks Scenario.district)
    as [Hcycle _].
  apply (Hcycle _ 2%nat); reflexivity.
Defined.

(** X6.  A district constructed with an empty demand schedule cannot be
    stepped: with its inflow written, the step raises [ZeroDivisionError]
    from the modulo by the schedule length. *)
Theorem district_without_schedule_faults (d : IrrigationDistrict.t) :
  IrrigationDistrict.all_demand d = [] ->
  (Facility.timestep (IrrigationDistrict.fac d)
   < length (Facility.all_inflow (IrrigationDistrict.fac d)))%nat ->
  IrrigationDistrict.step d = Raise ZeroDivisionError
  /\ IrrigationDistrict.get_current_demand d = Raise ZeroDivisionError.
Proof.
  intros Hempty Hin.
  destruct (lookup_lt_is_Some_2 _ _ Hin) as [q Hq].
  assert (Hcur : IrrigationDistrict.get_current_demand d
                 = Raise ZeroDivisionError).
  { unfold IrrigationDistrict.get_current_demand. rewrite Hempty.
    reflexivity. }
  split; [|exact Hcur].
  unfold IrrigationDistrict.step, Facility.step, Facility.determine_outflow,
    Facility.get_inflow, Ledger.get.
  norm. rewrite (getitem_nat _ _ _ Hq). norm.
  unfold IrrigationDistrict.determine_consumption. rewrite Hcur.
  reflexivity.
Qed.

Lemma district_without_schedule_faults_witness :
  IrrigationDistrict.step Fixtures.district_without_schedule
  = Raise ZeroDivisionError.
Proof.
  destruct (district_without_schedule_faults
              Fixtures.district_without_schedule) as [H _].
  - reflexivity.
  - simpl. lia.
  - exact H.
Defined.

(** ** Power plants: bounds, faults and what is passed on *)

(** What a successful step of a power plant has read and written. *)
Lemma power_plant_step_inv (res : option Reservoir.t) (p p' : PowerPlant.t)
    (sr : step_result) :
  PowerPlant.step res p = Ok (p', sr) ->
  exists q r d ts power outflow,
    let t := Facility.timestep (PowerPlant.fac p) in
    let turbine_flow :=
      Qmax (PowerPlant.min_turbine_flow p)
           (Qmin (PowerPlant.max_turbine_flow p) q) in
    let head :=
      Qmax 0 (default 0%Q (last (Reservoir.level_vector r))
              - PowerPlant.head_start_level p)%Q in
    let raw :=
      (turbine_flow * head * 1000 * PowerPlant.g * PowerPlant.efficiency p
       * (1 # 1000000))%Q in
    let hours := (total_seconds (date_add d ts - d)%Z / 3600)%Q in
    Facility.all_inflow (PowerPlant.fac p) !! t = Some q
    /\ res = Some r
    /\ Facility.current_date (PowerPlant.fac p) = Some d
    /\ Facility.timestep_size (PowerPlant.fac p) = Some ts
    /\ PowerPlant.cap (PowerPlant.max_capacity p) raw = Ok power
    /\ (Facility.all_outflow (PowerPlant.fac p)
          ++ [(q - turbine_flow * PowerPlant.water_usage p)%Q]) !! t
       = Some outflow
    /\ PowerPlant.production_vector p'
       = PowerPlant.production_vector p ++ [(power * hours)%Q]
    /\ Facility.all_outflow (PowerPlant.fac p')
       = Facility.all_outflow (PowerPlant.fac p)
           ++ [(q - turbine_flow * PowerPlant.water_usage p)%Q]
    /\ Facility.timestep (PowerPlant.fac p') = S t
    /\ sr_reward sr = PowerPlant.objective_function p (power * hours)%Q
    /\ sr_info sr
       = PowerPlantInfo (Facility.name (PowerPlant.fac p)) q outflow
           (power * hours)%Q (PowerPlant.water_usage p)
           (Py.sum (PowerPlant.production_vector p ++ [(power * hours)%Q]))
    /\ sr_terminated sr = false /\ sr_truncated sr = false.
Proof.
  unfold PowerPlant.step, Facility.step, Facility.determine_outflow,
    PowerPlant.methods.
  norm. intros H.
  inv_bind H as out Hout. inv_bind Hout as q Hq.
  inv_bind Hout as c Hc. injection Hout as <-.
  unfold PowerPlant.determine_consumption,
    PowerPlant.determine_turbine_flow in Hc.
  rewrite Hq in Hc. norm in Hc. injection Hc as <-.
  inv_bind H as x Hx. destruct x as [p1 rew].
  unfold PowerPlant.determine_reward, PowerPlant.determine_production,
    PowerPlant.determine_turbine_flow in Hx.
  norm in Hx. rewrite facility_get_inflow_outflow_frame, Hq in Hx.
  norm in Hx.
  destruct res as [r|]; [|discriminate]. norm in Hx.
  inv_bind Hx as y Hy. destruct y as [p2 production].
  inv_bind Hy as power Hpower.
  inv_bind Hy as d Hd. inv_bind Hy as ts Hts.
  injection Hy as <- <-. injection Hx as <- <-.
  inv_bind H as inf Hinf. injection H as <- <-.
  unfold PowerPlant.determine_info in Hinf. norm in Hinf.
  rewrite facility_get_inflow_outflow_frame, Hq in Hinf. norm in Hinf.
  inv_bind Hinf as outflow Houtflow.
  rewrite getitem_last in Hinf. norm in Hinf. injection Hinf as <-.
  exists q, r, d, ts, power, outflow. cbv zeta. norm.
  destruct (Facility.current_date (PowerPlant.fac p)) as [d0|] eqn:Ed;
    [|discriminate].
  destruct (Facility.timestep_size (PowerPlant.fac p)) as [ts0|] eqn:Ets;
    [|discriminate].
  injection Hd as <-. injection Hts as <-.
  split; [apply getitem_nat_inv; exact Hq|].
  split; [reflexivity|]. split; [reflexivity|]. split; [reflexivity|].
  split; [exact Hpower|].
  split; [apply getitem_nat_inv; exact Houtflow|].
  repeat split.
Qed.

Lemma total_seconds_nonneg (a b : datetime) :
  (a <= b)%Z -> (0 <= total_seconds (b - a)%Z)%Q.
Proof. intros H. unfold total_seconds, Qle. simpl. lia. Qed.

(** X7.  A plant with a finite, non-negative rated capacity [M], a
    non-negative efficiency and a non-negative minimum turbine flow records
    in every step, over a timestep that does not run backwards, a
    production between zero and [M] times the hours of the timestep. *)
Theorem power_plant_production_within_capacity (res : option Reservoir.t)
    (p p' : PowerPlant.t) (sr : step_result) (M : Q) (d : datetime)
    (ts : relativedelta) :
  PowerPlant.step res p = Ok (p', sr) ->
  PowerPlant.max_capacity p = Finite M ->
  Facility.current_date (PowerPlant.fac p) = Some d ->
  Facility.timestep_size (PowerPlant.fac p) = Some ts ->
  (0 <= M)%Q ->
  (0 <= PowerPlant.efficiency p)%Q ->
  (0 <= PowerPlant.min_turbine_flow p)%Q ->
  (d <= date_add d ts)%Z ->
  exists production,
    PowerPlant.production_vector p'
    = PowerPlant.production_vector p ++ [production]
    /\ sr_reward sr = PowerPlant.objective_function p production
    /\ (0 <= production)%Q
    /\ (production
        <= M * (total_seconds (date_add d ts - d)%Z / 3600))%Q.
Proof.
  intros Hstep Hcap Hd Hts HM Heff Hmin Hdates.
  destruct (power_plant_step_inv _ _ _ _ Hstep)
    as (q & r & d' & ts' & power & outflow & _ & _ & Hd' & Hts' & Hpower
        & _ & Hpv & _ & _ & Hrew & _).
  rewrite Hd in Hd'. injection Hd' as <-.
  rewrite Hts in Hts'. injection Hts' as <-.
  rewrite Hcap in Hpower. cbn [PowerPlant.cap] in Hpower.
  injection Hpower as <-.
  eexists. split; [exact Hpv|]. split; [exact Hrew|].
  set (hours := (total_seconds (date_add d ts - d)%Z / 3600)%Q).
  assert (Hhours : (0 <= hours)%Q).
  { subst hours. unfold Qdiv. apply Qmult_le_0_compat.
    - apply total_seconds_nonneg. exact Hdates.
    - apply Qlt_le_weak, Qinv_lt_0_compat. reflexivity. }
  match goal with
  | |- (0 <= Qmin M ?raw * _)%Q /\ _ => set (x := raw)
  end.
  assert (Hraw : (0 <= x)%Q).
  { subst x.
    repeat apply Qmult_le_0_compat; try assumption; try discriminate.
    - pose proof (Q.le_max_l (PowerPlant.min_turbine_flow p)
                    (Qmin (PowerPlant.max_turbine_flow p) q)). lra.
    - apply Q.le_max_l. }
  assert (Hlo : (0 <= Qmin M x)%Q) by (apply Q.min_glb; assumption).
  pose proof (Q.le_min_l M x) as Hhi.
  split.
  - apply Qmult_le_0_compat; assumption.
  - apply Qmult_le_compat_r; assumption.
Qed.

Lemma power_plant_production_within_capacity_witness :
  exists p' sr production,
    PowerPlant.step (Some Scenario.levelled) Scenario.plant = Ok (p', sr)
    /\ PowerPlant.production_vector p' = [production]
    /\ (0 <= production <= 1000000 * 1)%Q.
Proof.
  destruct (PowerPlant.step (Some Scenario.levelled) Scenario.plant)
    as [[p' sr]|e] eqn:E; [|vm_compute in E; discriminate].
  destruct (power_plant_production_within_capacity _ _ _ _
              1000000%Q 0%Z (rd_hours 1) E)
    as (production & Hpv & _ & Hlo & Hhi).
  - reflexivity.
  - reflexivity.
  - reflexivity.
  - discriminate.
  - discriminate.
  - discriminate.
  - discriminate.
  - exists p', sr, production. split; [reflexivity|].
    split; [exact Hpv|]. split; [exact Hlo|].
    eapply Qle_trans; [exact Hhi|]. vm_compute. discriminate.
Defined.

(** X8.  A plant constructed without a reservoir (the default of the
    constructor) cannot be stepped: once its inflow is written, the step
    raises [AttributeError] when the production looks for the level of the
    reservoir. *)
Theorem power_plant_without_reservoir_faults (p : PowerPlant.t) :
  (Facility.timestep (PowerPlant.fac p)
   < length (Facility.all_inflow (PowerPlant.fac p)))%nat ->
  PowerPlant.step None p = Raise AttributeError.
Proof.
  intros Hin. destruct (lookup_lt_is_Some_2 _ _ Hin) as [q Hq].
  apply getitem_nat in Hq.
  unfold PowerPlant.step, Facility.step, Facility.determine_outflow,
    PowerPlant.methods, Facility.get_inflow, Ledger.get.
  norm. rewrite Hq. norm.
  unfold PowerPlant.determine_consumption,
    PowerPlant.determine_turbine_flow, Facility.get_inflow, Ledger.get.
  rewrite Hq. norm.
  unfold PowerPlant.determine_reward, PowerPlant.determine_production,
    PowerPlant.determine_turbine_flow, Facility.get_inflow, Ledger.get.
  norm. rewrite Hq. reflexivity.
Qed.

Lemma power_plant_without_reservoir_faults_witness :
  PowerPlant.step None Scenario.plant = Raise AttributeError.
Proof.
  apply power_plant_without_reservoir_faults. simpl. lia.
Defined.

(** X9.  A plant passes on its inflow less the turbine flow times its
    [water_usage] coefficient, so all of it when the coefficient is zero
    (the default); when the outflow history is in step with the step
    counter, the [info] of the step reports this inflow, this outflow, the
    production just recorded and the sum of the production history. *)
Theorem power_plant_passes_on_unused_water (res : option Reservoir.t)
    (p p' : PowerPlant.t) (sr : step_result) :
  PowerPlant.step res p = Ok (p', sr) ->
  exists q outflow production,
    Facility.all_inflow (PowerPlant.fac p)
      !! Facility.timestep (PowerPlant.fac p) = Some q
    /\ Facility.all_outflow (PowerPlant.fac p')
       = Facility.all_outflow (PowerPlant.fac p) ++ [outflow]
    /\ outflow
       = (q - Qmax (PowerPlant.min_turbine_flow p)
                   (Qmin (PowerPlant.max_turbine_flow p) q)
              * PowerPlant.water_usage p)%Q
    /\ ((PowerPlant.water_usage p == 0)%Q -> (outflow == q)%Q)
    /\ PowerPlant.production_vector p'
       = PowerPlant.production_vector p ++ [production]
    /\ (length (Facility.all_outflow (PowerPlant.fac p))
        = Facility.timestep (PowerPlant.fac p) ->
        sr_info sr
        = PowerPlantInfo (Facility.name (PowerPlant.fac p)) q outflow
            production (PowerPlant.water_usage p)
            (Py.sum (PowerPlant.production_vector p'))).
Proof.
  intros Hstep.
  destruct (power_plant_step_inv _ _ _ _ Hstep)
    as (q & r & d & ts & power & o & Hq & _ & _ & _ & _ & Ho & Hpv & Hout
        & _ & _ & Hinfo & _).
  eexists q, _, _. split; [exact Hq|]. split; [exact Hout|].
  split; [reflexivity|]. split; [|split; [exact Hpv|]].
  - intros Hu. rewrite Hu. ring.
  - intros Hlen. rewrite Hinfo, Hpv.
    rewrite <- Hlen, lookup_app_r, Nat.sub_diag in Ho by lia.
    injection Ho as <-. reflexivity.
Qed.

Lemma power_plant_passes_on_unused_water_witness :
  exists p' sr outflow,
    PowerPlant.step (Some Scenario.levelled) Scenario.plant = Ok (p', sr)
    /\ Facility.all_outflow (PowerPlant.fac p') = [outflow]
    /\ (outflow == 20)%Q.
Proof.
  destruct (PowerPlant.step (Some Scenario.levelled) Scenario.plant)
    as [[p' sr]|e] eqn:E; [|vm_compute in E; discriminate].
  destruct (power_plant_passes_on_unused_water _ _ _ _ E)
    as (q & outflow & production & Hq & Hout & _ & Hzero & _).
  exists p', sr, outflow. split; [reflexivity|]. split; [exact Hout|].
  rewrite Hzero by reflexivity.
  vm_compute in Hq. injection Hq as <-. reflexivity.
Defined.

(** ** Reservoirs: split release, clock and histories *)

Lemma sum_map_div (l : list Q) (T : Q) :
  (Py.sum (map (fun a => a / T) l) == Py.sum l / T)%Q.
Proof.
  unfold Py.sum. induction l as [|a l IH]; simpl.
  - unfold Qdiv. ring.
  - rewrite IH. unfold Qdiv. ring.
Qed.

Lemma Qeq_bool_false (x y : Q) : Qeq_bool x y = false <-> ~ (x == y)%Q.
Proof.
  split.
  - intros H E. apply Qeq_bool_iff in E. congruence.
  - intros H. destruct (Qeq_bool x y) eqn:E; [|reflexivity].
    apply Qeq_bool_iff in E. contradiction.
Qed.

(** The fields of the base object a successful [determine_outflow] has
    written, and the dates it has gone through. *)
Lemma determine_outflow_base (fuel : nat) (r r' : Reservoir.t)
    (actions : list Q) (out : Q) :
  Reservoir.determine_outflow fuel r actions = Ok (r', out) ->
  exists d ts st,
    ControlledFacility.current_date (Reservoir.cf r) = Some d
    /\ ControlledFacility.timestep_size (Reservoir.cf r) = Some ts
    /\ ~ (100 * total_seconds (date_add d ts - d)%Z == 0)%Q
    /\ Reservoir.integrate fuel r (date_add d ts)
         (match Reservoir.setup r actions with
          | Ok su => Reservoir.su_rate su
          | Raise _ => 0%Q
          end) (Py.sum actions)
         {| Reservoir.ls_date := d;
            Reservoir.ls_storage :=
              default 0%Q (last (Reservoir.storage_vector r));
            Reservoir.ls_sub_releases := [] |} = Ok st
    /\ Py.mean (Reservoir.ls_sub_releases st) = Ok out
    /\ ControlledFacility.current_date (Reservoir.cf r')
       = Some (Reservoir.ls_date st)
    /\ ControlledFacility.split_release (Reservoir.cf r')
       = (if ControlledFacility.should_split_release (Reservoir.cf r)
             && negb (Qeq_bool (Py.sum actions) 0)
          then Some (map (fun action => (action / Py.sum actions)%Q) actions)
          else ControlledFacility.split_release (Reservoir.cf r))
    /\ ControlledFacility.timestep (Reservoir.cf r')
       = ControlledFacility.timestep (Reservoir.cf r)
    /\ ControlledFacility.all_outflow (Reservoir.cf r')
       = ControlledFacility.all_outflow (Reservoir.cf r)
    /\ ControlledFacility.all_inflow (Reservoir.cf r')
       = ControlledFacility.all_inflow (Reservoir.cf r).
Proof.
  unfold Reservoir.determine_outflow. intros H.
  inv_bind H as su Hsu. rewrite Hsu.
  unfold Reservoir.setup in Hsu.
  inv_bind Hsu as s0 Hs0. inv_bind Hsu as d Hd. inv_bind Hsu as ts Hts.
  inv_bind Hsu as m Hm. inv_bind Hsu as rate Hrate. injection Hsu as <-.
  norm in H.
  inv_bind H as st Hst. inv_bind H as level Hlevel.
  inv_bind H as avg Havg. injection H as <- <-.
  destruct (ControlledFacility.current_date (Reservoir.cf r)) as [d0|];
    [|discriminate].
  destruct (ControlledFacility.timestep_size (Reservoir.cf r)) as [ts0|];
    [|discriminate].
  injection Hd as <-. injection Hts as <-.
  exists d0, ts0, st. norm.
  apply getitem_last_inv in Hs0. rewrite Hs0. norm.
  unfold Reservoir.evaporation_rate_per_second in Hrate.
  destruct (Qeq_bool (100 * total_seconds (date_add d0 ts0 - d0)%Z) 0)
    eqn:E; [discriminate|].
  apply Qeq_bool_false in E.
  repeat split; try assumption.
Qed.

(** X10.  When the action space of a reservoir has more than one component
    and the components of an action do not sum to zero,
    [determine_outflow] records as [split_release] one fraction per
    component, each the component over the sum, and the fractions add up
    to one.  Otherwise it records nothing: [split_release] keeps the value
    it had, that of an earlier step included. *)
Theorem split_release_fractions_add_up_to_one (fuel : nat)
    (r r' : Reservoir.t) (actions : list Q) (out : Q) :
  Reservoir.determine_outflow fuel r actions = Ok (r', out) ->
  (ControlledFacility.should_split_release (Reservoir.cf r) = true ->
   ~ (Py.sum actions == 0)%Q ->
   exists fractions,
     ControlledFacility.split_release (Reservoir.cf r') = Some fractions
     /\ length fractions = length actions
     /\ (forall i a, actions !! i = Some a ->
           fractions !! i = Some (a / Py.sum actions)%Q)
     /\ (Py.sum fractions == 1)%Q)
  /\ (ControlledFacility.should_split_release (Reservoir.cf r) = false
      \/ (Py.sum actions == 0)%Q ->
      ControlledFacility.split_release (Reservoir.cf r')
      = ControlledFacility.split_release (Reservoir.cf r)).
Proof.
  intros H.
  destruct (determine_outflow_base _ _ _ _ _ H)
    as (d & ts & st & _ & _ & _ & _ & _ & _ & Hsplit & _).
  split.
  - intros Hshould Hsum. rewrite Hshould in Hsplit.
    rewrite (proj2 (Qeq_bool_false _ _) Hsum) in Hsplit.
    cbn [andb negb] in Hsplit.
    eexists. split; [exact Hsplit|]. split; [apply length_map|]. split.
    + intros i a Ha. rewrite list_lookup_fmap, Ha. reflexivity.
    + rewrite sum_map_div. field. exact Hsum.
  - intros [Hshould|Hsum].
    + rewrite Hshould in Hsplit. exact Hsplit.
    + apply Qeq_bool_iff in Hsum. rewrite Hsum in Hsplit.
      rewrite andb_false_r in Hsplit. exact Hsplit.
Qed.

Lemma split_release_fractions_add_up_to_one_witness :
  exists r' out fractions,
    Reservoir.determine_outflow 4 Fixtures2.splitter [15%Q; 5%Q]
    = Ok (r', out)
    /\ ControlledFacility.split_release (Reservoir.cf r') = Some fractions
    /\ fractions !! 0%nat = Some (15 / Py.sum [15; 5])%Q
    /\ (Py.sum fractions == 1)%Q.
Proof.
  destruct (Reservoir.determine_outflow 4 Fixtures2.splitter [15%Q; 5%Q])
    as [[r' out]|e] eqn:E; [|vm_compute in E; discriminate].
  destruct (split_release_fractions_add_up_to_one _ _ _ _ _ E)
    as [Hsplit _].
  destruct Hsplit as (fractions & Hfr & _ & Hnth & Hone).
  - reflexivity.
  - vm_compute. discriminate.
  - exists r', out, fractions. split; [reflexivity|].
    split; [exact Hfr|]. split; [apply Hnth; reflexivity|exact Hone].
Defined.

(** X11.  A call of [determine_outflow] that returns has covered a macro
    timestep of positive length, has run at least one sub-step, and leaves
    the clock of the reservoir exactly on [current_date + timestep_size],
    whether or not the integration step divides the timestep. *)
Theorem determine_outflow_lands_on_the_macro_boundary (fuel : nat)
    (r r' : Reservoir.t) (actions : list Q) (out : Q) :
  Reservoir.determine_outflow fuel r actions = Ok (r', out) ->
  exists d ts,
    ControlledFacility.current_date (Reservoir.cf r) = Some d
    /\ ControlledFacility.timestep_size (Reservoir.cf r) = Some ts
    /\ (d < date_add d ts)%Z
    /\ ControlledFacility.current_date (Reservoir.cf r')
       = Some (date_add d ts).
Proof.
  intros H.
  destruct (determine_outflow_base _ _ _ _ _ H)
    as (d & ts & st & Hd & Hts & Hnz & Hst & Hmean & Hdate & _).
  exists d, ts. split; [exact Hd|]. split; [exact Hts|].
  assert (Hlt : (d < date_add d ts)%Z).
  { destruct (Z_lt_le_dec d (date_add d ts)) as [Hlt|Hge]; [exact Hlt|].
    exfalso.
    match type of Hst with
    | Reservoir.integrate _ _ _ ?rate ?total ?st0 = _ =>
        destruct (integrate_unfold_stop fuel r (date_add d ts) rate total
                    st0 Hge) as [E _]
    end.
    rewrite E in Hst. injection Hst as <-. discriminate Hmean. }
  split; [exact Hlt|].
  rewrite Hdate. f_equal.
  apply (integrate_final_date _ _ _ _ _ _ _ Hst). simpl. lia.
Qed.

Lemma determine_outflow_lands_on_the_macro_boundary_witness :
  exists r' out,
    Reservoir.determine_outflow 3 Fixtures2.uneven [20%Q] = Ok (r', out)
    /\ ControlledFacility.current_date (Reservoir.cf r')
       = Some 3600000000%Z.
Proof.
  destruct (Reservoir.determine_outflow 3 Fixtures2.uneven [20%Q])
    as [[r' out]|e] eqn:E; [|vm_compute in E; discriminate].
  destruct (determine_outflow_lands_on_the_macro_boundary _ _ _ _ _ E)
    as (d & ts & Hd & Hts & _ & Hdate).
  exists r', out. split; [reflexivity|].
  rewrite Hdate. injection Hd as <-. injection Hts as <-. reflexivity.
Defined.

Lemma reservoir_reset_inv (r r' : Reservoir.t) :
  Reservoir.reset r = Ok r' ->
  Reservoir.level_vector r' = []
  /\ Reservoir.release_vector r' = []
  /\ ControlledFacility.all_outflow (Reservoir.cf r') = []
  /\ ControlledFacility.all_inflow (Reservoir.cf r') = []
  /\ ControlledFacility.timestep (Reservoir.cf r') = 0%nat.
Proof.
  unfold Reservoir.reset. intros H. inv_bind H as s0 Hs0.
  injection H as <-. repeat split.
Qed.

(** X12.  In every state a reservoir can reach by construction, clock
    assignment, inflow writes, steps and resets, the outflow ledger and the
    release history are the same list, and the level history and the
    release history have one entry per step taken. *)
Theorem outflow_ledger_is_the_release_history (seed : Q) (r : Reservoir.t) :
  reachable seed r ->
  ControlledFacility.all_outflow (Reservoir.cf r) = Reservoir.release_vector r
  /\ length (Reservoir.release_vector r)
     = ControlledFacility.timestep (Reservoir.cf r)
  /\ length (Reservoir.level_vector r)
     = ControlledFacility.timestep (Reservoir.cf r).
Proof.
  intros Hreach.
  induction Hreach as [ | r d _ IH | r d _ IH | r t v r' _ IH Hset
                        | r fuel action r' res _ IH Hstep
                        | r r' _ IH Hreset ].
  - repeat split.
  - exact IH.
  - exact IH.
  - apply reservoir_set_inflow_inv in Hset.
    destruct Hset as (l & _ & ->). exact IH.
  - destruct IH as (Hout & Hrel & Hlev).
    destruct (reservoir_step_inv _ _ _ _ _ Hstep)
      as (su & st & level & avg & _ & _ & _ & _ & _ & _ & _
          & Hlv & Hrv & Hts & Hao & _).
    rewrite Hlv, Hrv, Hts, Hao, Hout, !length_app, Hrel, Hlev. simpl.
    repeat split; lia.
  - destruct (reservoir_reset_inv _ _ Hreset)
      as (Hlv & Hrv & Hao & _ & Hts).
    rewrite Hlv, Hrv, Hao, Hts. repeat split.
Qed.

Lemma outflow_ledger_is_the_release_history_witness :
  exists r res,
    Reservoir.step 4 Scenario.ready [20%Q] = Ok (r, res)
    /\ ControlledFacility.all_outflow (Reservoir.cf r)
       = Reservoir.release_vector r
    /\ length (Reservoir.level_vector r) = 1%nat.
Proof.
  destruct (Reservoir.step 4 Scenario.ready [20%Q]) as [[r res]|e] eqn:E;
    [|vm_compute in E; discriminate].
  exists r, res. split; [reflexivity|].
  assert (Hr : reachable 100 r).
  { eapply reach_step; [apply scenario_ready_reachable|exact E]. }
  destruct (outflow_ledger_is_the_release_history 100 r Hr)
    as (Hout & _ & Hlev).
  split; [exact Hout|]. rewrite Hlev.
  apply reservoir_step_inv in E.
  destruct E as (su & st & level & avg
                 & _ & _ & _ & _ & _ & _ & _ & _ & _ & Hts & _).
  rewrite Hts. reflexivity.
Defined.

(** ** Reservoirs: bounds on the reported release *)

Lemma inject_Z_succ_nat (n : nat) :
  (inject_Z (Z.of_nat (S n)) == inject_Z (Z.of_nat n) + 1)%Q.
Proof.
  rewrite Nat2Z.inj_succ. unfold Z.succ. rewrite inject_Z_plus. reflexivity.
Qed.

Lemma sum_le_length (l : list Q) (H : Q) :
  Forall (fun x => (x <= H)%Q) l ->
  (Py.sum l <= inject_Z (Z.of_nat (length l)) * H)%Q.
Proof.
  unfold Py.sum. induction 1 as [|x l Hx _ IH].
  - cbn [foldr length]. change (inject_Z (Z.of_nat 0)) with 0%Q. lra.
  - cbn [foldr length]. rewrite inject_Z_succ_nat. lra.
Qed.

Lemma sum_ge_length (l : list Q) (L : Q) :
  Forall (fun x => (L <= x)%Q) l ->
  (inject_Z (Z.of_nat (length l)) * L <= Py.sum l)%Q.
Proof.
  unfold Py.sum. induction 1 as [|x l Hx _ IH].
  - cbn [foldr length]. change (inject_Z (Z.of_nat 0)) with 0%Q. lra.
  - cbn [foldr length]. rewrite inject_Z_succ_nat. lra.
Qed.

Lemma length_positive (l : list Q) :
  l <> [] -> (0 < inject_Z (Z.of_nat (length l)))%Q.
Proof.
  intros H. destruct l as [|x l]; [congruence|].
  change 0%Q with (inject_Z 0). rewrite <- Zlt_Qlt. simpl. lia.
Qed.

Lemma mean_between (l : list Q) (m L H : Q) :
  Py.mean l = Ok m ->
  (Forall (fun x => (x <= H)%Q) l -> (m <= H)%Q)
  /\ (Forall (fun x => (L <= x)%Q) l -> (L <= m)%Q).
Proof.
  intros Hm. destruct (mean_inv _ _ Hm) as [Hne ->].
  pose proof (length_positive l Hne) as Hpos.
  split; intros Hall.
  - apply Qle_shift_div_r; [exact Hpos|].
    pose proof (sum_le_length l H Hall). lra.
  - apply Qle_shift_div_l; [exact Hpos|].
    pose proof (sum_ge_length l L Hall). lra.
Qed.

(** X13.  The release a reservoir reports never exceeds a value [H] that
    caps the upper release bound at every sub-increment, even where the
    lower bound lies above the upper one; and it is at least [L] when at
    every sub-increment the bounds are in order and the lower bound is at
    least [L]. *)
Theorem reported_release_within_the_bounds_met (fuel : nat)
    (r r' : Reservoir.t) (actions : list Q) (out : Q)
    (su : Reservoir.loop_setup) (L H : Q) :
  let incs :=
    Reservoir.increments fuel r (Reservoir.su_final_date su)
      (Reservoir.su_rate su) (Reservoir.su_total_action su)
      (Reservoir.su_start su) in
  Reservoir.determine_outflow fuel r actions = Ok (r', out) ->
  Reservoir.setup r actions = Ok su ->
  (Forall (release_capped r H) incs -> (out <= H)%Q)
  /\ (Forall (release_floored r L) incs -> (L <= out)%Q).
Proof.
  intros incs Hout Hsu.
  destruct (determine_outflow_inv _ _ _ _ _ Hout)
    as (su' & st & level & Hsu' & Hst & _ & Hmean & _).
  rewrite Hsu in Hsu'. injection Hsu' as <-.
  destruct (setup_inv _ _ _ Hsu) as (_ & Hnil & _).
  destruct (integrate_releases _ _ _ _ _ _ _ Hst) as (rels & Hrels & Hall).
  rewrite Hnil in Hrels. simpl in Hrels. rewrite Hrels in Hmean.
  fold incs in Hall.
  destruct (mean_between rels out L H Hmean) as [Hup Hdown].
  split; intros Hb.
  - apply Hup. clear Hup Hdown Hmean Hrels.
    induction Hall as [|s rel ss rels' (lo & hi & Hmm & ->) _ IH].
    + constructor.
    + apply Forall_cons in Hb. destruct Hb as [Hb0 Hb].
      constructor; [|apply IH; exact Hb].
      unfold Reservoir.clamp_release.
      pose proof (Q.le_min_l hi (Qmax lo (Reservoir.su_total_action su))).
      pose proof (Hb0 lo hi Hmm). lra.
  - apply Hdown. clear Hup Hdown Hmean Hrels.
    induction Hall as [|s rel ss rels' (lo & hi & Hmm & ->) _ IH].
    + constructor.
    + apply Forall_cons in Hb. destruct Hb as [Hb0 Hb].
      constructor; [|apply IH; exact Hb].
      unfold Reservoir.clamp_release.
      pose proof (Hb0 lo hi Hmm) as [Hlo Hhi].
      apply Q.min_glb; [lra|].
      pose proof (Q.le_max_l lo (Reservoir.su_total_action su)). lra.
Qed.

(** Decide a property of release bounds at each state of a computed list of
    increments. *)
Ltac increments_by_computation :=
  match goal with
  | |- Forall _ ?l =>
      let l' := eval vm_compute in l in
      change l with l'
  end;
  repeat (constructor;
          [ let lo := fresh "lo" in
            let hi := fresh "hi" in
            let H := fresh "H" in
            intros lo hi H; vm_compute in H; injection H as <- <-;
            first [ split; vm_compute; discriminate
                  | vm_compute; discriminate ] | ]);
  try apply Forall_nil_2.

Lemma reported_release_within_the_bounds_met_witness :
  exists r' out,
    Reservoir.determine_outflow 4 Scenario.ready [70%Q] = Ok (r', out)
    /\ (0 <= out <= 50)%Q.
Proof.
  destruct (Reservoir.determine_outflow 4 Scenario.ready [70%Q])
    as [[r' out]|e] eqn:E; [|vm_compute in E; discriminate].
  destruct (reported_release_within_the_bounds_met 4 Scenario.ready r'
              [70%Q] out
              {| Reservoir.su_final_date := 3600000000%Z;
                 Reservoir.su_timestep_seconds :=
                   total_seconds 3600000000%Z;
                 Reservoir.su_rate :=
                   (0 / (100 * total_seconds 3600000000%Z))%Q;
                 Reservoir.su_total_action := Py.sum [70%Q];
                 Reservoir.su_start :=
                   {| Reservoir.ls_date := 0%Z;
                      Reservoir.ls_storage := 100%Q;
                      Reservoir.ls_sub_releases := [] |} |}
              0%Q 50%Q E eq_refl) as [Hup Hdown].
  exists r', out. split; [reflexivity|]. split.
  - apply Hdown. increments_by_computation.
  - apply Hup. increments_by_computation.
Defined.

(** ** Reservoirs: what stops a step before the loop *)




(** ** Curves go through their breakpoints *)

Lemma chain_lt_lookup (x0 x : Q) (xs : list Q) (i : nat) :
  chain Qlt x0 xs -> xs !! i = Some x -> (x0 < x)%Q.
Proof.
  revert x0 i. induction xs as [|x1 xs IH]; intros x0 i H Hi.
  - discriminate.
  - destruct H as [H01 H]. destruct i as [|i].
    + injection Hi as <-. exact H01.
    + simpl in Hi. specialize (IH x1 i H Hi). lra.
Qed.

Lemma chain_lookup_le_last (x0 x xn : Q) (xs : list Q) (i : nat) :
  chain Qlt x0 xs -> (x0 :: xs) !! i = Some x ->
  last (x0 :: xs) = Some xn -> (x <= xn)%Q.
Proof.
  revert x0 i. induction xs as [|x1 xs IH]; intros x0 i H Hi Hlast.
  - destruct i; [|discriminate]. injection Hi as <-.
    injection Hlast as <-. lra.
  - destruct H as [H01 H]. rewrite last_cons_cons in Hlast.
    destruct i as [|i].
    + injection Hi as <-.
      pose proof (chain_lt_last x1 xn xs H Hlast). lra.
    + apply (IH x1 i H Hi Hlast).
Qed.

Lemma scan_at_breakpoint (x y x0 y0 : Q) (pts : list (Q * Q)) (i : nat) :
  chain Qlt x0 pts.*1 ->
  ((x0, y0) :: pts) !! i = Some (x, y) ->
  Interp.scan x x0 y0 pts = y.
Proof.
  revert x0 y0 i. induction pts as [|[x1 y1] pts IH]; intros x0 y0 i H Hi.
  - destruct i; [|discriminate]. injection Hi as <- <-. reflexivity.
  - destruct H as [H01 H]. cbn [fst snd] in *. simpl.
    destruct i as [|i].
    + injection Hi as <- <-.
      destruct (Qlt_le_dec x0 x1) as [_|Hge]; [|lra].
      unfold Interp.on_segment.
      rewrite (proj2 (Qeq_bool_iff x0 x0)) by reflexivity. reflexivity.
    + simpl in Hi.
      assert (Hge : (x1 <= x)%Q).
      { destruct i as [|i].
        - injection Hi as <- _. lra.
        - simpl in Hi.
          assert (Hx : pts.*1 !! i = Some x)
            by (rewrite list_lookup_fmap, Hi; reflexivity).
          pose proof (chain_lt_lookup x1 x _ i H Hx). lra. }
      destruct (Qlt_le_dec x x1) as [Hlt|_]; [lra|].
      apply (IH x1 y1 i H Hi).
Qed.

(** On a curve with strictly increasing breakpoints, the
    interpolation at a breakpoint is the ordinate of that breakpoint,
    exactly and whatever left and right values are supplied; so
    [storage_to_level] gives back the level of every calibration point. *)
Theorem interpolation_goes_through_the_breakpoints (xp fp : list Q)
    (left right : option Q) (i : nat) (x y : Q) :
  strictly_increasing xp ->
  length xp = length fp ->
  xp !! i = Some x -> fp !! i = Some y ->
  Reservoir.modified_interp x xp fp left right = Ok y
  /\ (forall r : Reservoir.t,
        Reservoir.storage_to_level_rel r = [xp; fp] ->
        Reservoir.storage_to_level r x = Ok y).
Proof.
  intros Hinc Hlen Hx Hy.
  assert (Hinterp : forall l rt,
            Reservoir.modified_interp x xp fp l rt = Ok y).
  { intros l rt.
    destruct xp as [|x0 xs]; [discriminate|].
    destruct fp as [|y0 ys]; [discriminate|].
    cbn [length] in Hlen. injection Hlen as Hlen.
    cbn [strictly_increasing] in Hinc.
    destruct (last (x0 :: xs)) as [xn|] eqn:Exn;
      [|apply last_None in Exn; discriminate].
    destruct (last (y0 :: ys)) as [yn|] eqn:Eyn;
      [|apply last_None in Eyn; discriminate].
    unfold Reservoir.modified_interp.
    rewrite (compiled_interp_regions x x0 y0 xn yn xs ys l rt Hlen Exn Eyn).
    assert (H0 : (x0 <= x)%Q).
    { destruct i as [|i].
      - injection Hx as <-. lra.
      - simpl in Hx. pose proof (chain_lt_lookup x0 x xs i Hinc Hx). lra. }
    pose proof (chain_lookup_le_last x0 x xn xs i Hinc Hx Exn) as Hn.
    destruct (Qlt_le_dec x x0) as [Hlt|_]; [lra|].
    destruct (Qlt_le_dec xn x) as [Hgt|_]; [lra|].
    f_equal. apply (scan_at_breakpoint x y x0 y0 (zip xs ys) i).
    - rewrite fst_zip by lia. exact Hinc.
    - change ((x0, y0) :: zip xs ys) with (zip (x0 :: xs) (y0 :: ys)).
      apply lookup_zip_with_Some. exists x, y. auto. }
  split; [apply Hinterp|].
  intros r Hrel. unfold Reservoir.storage_to_level. rewrite Hrel.
  cbn. apply Hinterp.
Qed.

Lemma interpolation_goes_through_the_breakpoints_witness :
  Reservoir.storage_to_level Scenario.reservoir 1000%Q = Ok 100%Q.
Proof.
  destruct (interpolation_goes_through_the_breakpoints
              [0%Q; 1000%Q] [0%Q; 100%Q] None None 1%nat 1000%Q 100%Q)
    as [_ H].
  - simpl. split; [reflexivity|exact I].
  - reflexivity.
  - reflexivity.
  - reflexivity.
  - apply H. reflexivity.
Defined.

(** ** The dictionaries of a system step *)

Lemma dict_set_present_keys {V : Type} (d : list (string * V)) (k : string)
    (old v : V) :
  Py.dict_get d k = Ok old -> (Py.dict_set d k v).*1 = d.*1.
Proof.
  induction d as [|[k' v'] d IH]; simpl; intros H; [discriminate|].
  destruct (String.eqb k' k); [reflexivity|].
  simpl. f_equal. apply IH. exact H.
Qed.

Lemma dict_get_missing {V : Type} (d : list (string * V)) (k : string) :
  k ∉ d.*1 -> Py.dict_get d k = Raise KeyError.
Proof.
  induction d as [|[k' v'] d IH]; simpl; intros H; [reflexivity|].
  destruct (String.eqb_spec k' k) as [->|Hne].
  - exfalso. apply H. constructor.
  - apply IH. intros Hin. apply H. constructor. exact Hin.
Qed.

Lemma dict_get_present {V : Type} (d : list (string * V)) (k : string) :
  k ∈ d.*1 -> exists v, Py.dict_get d k = Ok v.
Proof.
  induction d as [|[k' v'] d IH]; simpl; intros H.
  - inversion H.
  - destruct (String.eqb_spec k' k) as [->|Hne]; [eauto|].
    apply IH. inversion H; subst; [congruence|assumption].
Qed.

Lemma dict_get_set_same {V : Type} (d : list (string * V)) (k : string)
    (v : V) :
  Py.dict_get (Py.dict_set d k v) k = Ok v.
Proof.
  induction d as [|[k' v'] d IH]; simpl.
  - rewrite String.eqb_refl. reflexivity.
  - destruct (String.eqb k' k) eqn:E; simpl; rewrite E; [reflexivity|].
    exact IH.
Qed.

Lemma dict_get_set_other {V : Type} (d : list (string * V)) (k k0 : string)
    (v : V) :
  k0 <> k -> Py.dict_get (Py.dict_set d k v) k0 = Py.dict_get d k0.
Proof.
  intros Hne. induction d as [|[k' v'] d IH]; simpl.
  - destruct (String.eqb_spec k k0); [congruence|reflexivity].
  - destruct (String.eqb_spec k' k) as [->|Hk]; simpl.
    + destruct (String.eqb_spec k k0); [congruence|reflexivity].
    + destruct (String.eqb k' k0); [reflexivity|exact IH].
Qed.

Section RewardBuckets.
Import WaterManagementSystem.
Context {Flow FlowInfo : Type} {ops : FlowOps Flow FlowInfo}.

Lemma accumulate_reward_keys (acc acc' : accum FlowInfo)
    (o : outcome FlowInfo) :
  accumulate acc o = Ok acc' ->
  (final_reward acc').*1 = (final_reward acc).*1.
Proof.
  unfold accumulate. intros H. inv_bind H as fr Hfr. injection H as <-.
  cbn [final_reward].
  destruct (o_objective o) as [nm|]; [|injection Hfr as <-; reflexivity].
  destruct (negb (String.eqb nm EmptyString));
    [|injection Hfr as <-; reflexivity].
  inv_bind Hfr as old Hold. injection Hfr as <-.
  eapply dict_set_present_keys. exact Hold.
Qed.

(** The loop keeps the keys of [final_reward], in their order. *)
Lemma run_reward_keys (fuel : nat) (action : list (string * list Q))
    (date : datetime) (count i : nat) (nodes nodes' : list (node Flow))
    (acc acc' : accum FlowInfo) :
  run fuel action date i count nodes acc = Ok (nodes', acc') ->
  (final_reward acc').*1 = (final_reward acc).*1.
Proof.
  revert i nodes acc. induction count as [|count IH]; intros i nodes acc H.
  - simpl in H. injection H as _ <-. reflexivity.
  - cbn [run] in H. inv_bind H as x Hx. destruct x as [nodes1 o].
    inv_bind H as acc1 Hacc1.
    pose proof (accumulate_reward_keys _ _ _ Hacc1) as Hkeys.
    destruct (final_terminated acc1 || final_truncated acc1).
    + injection H as _ <-. exact Hkeys.
    + rewrite (IH _ _ _ H). exact Hkeys.
Qed.

Lemma initial_accum_keys (self : t Flow) :
  (final_reward (initial_accum (FlowInfo := FlowInfo) self)).*1
  = (rewards self).*1.
Proof.
  unfold initial_accum. cbn [final_reward].
  rewrite <- list_fmap_compose. reflexivity.
Qed.

(** X15.  The reward vector a successful system step returns has exactly
    one entry for each key of the [rewards] dictionary, the length the
    constructor gives to [reward_space], whichever nodes were stepped and
    whether or not the loop stopped early; and the step leaves the
    [rewards] attribute itself as it was. *)
Theorem step_reward_vector_has_one_entry_per_objective (fuel : nat)
    (self self' : t Flow) (action : list (string * list Q))
    (out : step_output) :
  step fuel self action = Ok (self', out) ->
  length (out_reward out) = length (rewards self)
  /\ rewards self' = rewards self.
Proof.
  unfold step. intros H. inv_bind H as x Hx. destruct x as [nodes acc].
  injection H as <- <-. cbn [out_reward rewards]. split; [|reflexivity].
  pose proof (run_reward_keys _ _ _ _ _ _ _ _ _ Hx) as Hkeys.
  rewrite initial_accum_keys in Hkeys.
  rewrite length_fmap.
  rewrite <- (length_fmap fst (final_reward acc)), Hkeys.
  apply length_fmap.
Qed.

End RewardBuckets.

Lemma step_reward_vector_has_one_entry_per_objective_witness :
  exists self' out,
    WaterManagementSystem.step 4 Scenario.chain_system
      [("reservoir"%string, [50%Q])] = Ok (self', out)
    /\ length (WaterManagementSystem.out_reward out) = 2%nat.
Proof.
  destruct (WaterManagementSystem.step 4 Scenario.chain_system
              [("reservoir"%string, [50%Q])]) as [[self' out]|e] eqn:E;
    [|vm_compute in E; discriminate].
  exists self', out. split; [reflexivity|].
  apply (step_reward_vector_has_one_entry_per_objective
           (ops := Scenario.feed_ops) _ _ _ _ _ E).
Defined.

Section MissingKeys.
Import WaterManagementSystem.
Context {Flow FlowInfo : Type} {ops : FlowOps Flow FlowInfo}.

(** The loop of [step] over the first [k] nodes, continued by a node
    whose step or whose bookkeeping raises. *)
Lemma step_raises_at (fuel : nat) (self : t Flow)
    (action : list (string * list Q)) (k : nat)
    (nodes_k : list (node Flow)) (acc_k : accum FlowInfo) (e : exn) :
  (k < length (water_systems self))%nat ->
  run fuel action (current_date self) 0 k (water_systems self)
      (initial_accum self) = Ok (nodes_k, acc_k) ->
  final_terminated acc_k || final_truncated acc_k = false ->
  ('(nodes, o) ← step_node fuel action (current_date self) k nodes_k;
   accumulate acc_k o) = Raise e ->
  step fuel self action = Raise e.
Proof.
  intros Hlt Hprefix Hno Hraise. unfold step.
  replace (length (water_systems self))
    with (k + S (length (water_systems self) - S k))%nat by lia.
  rewrite (run_continue _ _ _ _ _ _ _ _ _ _ Hprefix Hno).
  cbn [run Nat.add].
  destruct (step_node fuel action (current_date self) k nodes_k)
    as [[nodes1 o]|e1]; norm in Hraise; norm.
  - rewrite Hraise. reflexivity.
  - injection Hraise as ->. reflexivity.
Qed.

(** X16.  The action of a system step is indexed by the name of each
    reservoir the loop reaches.  If the loop has gone through the first [k]
    nodes without a flag, node [k] is a reservoir, and the action has no
    entry under its name, the step raises [KeyError]; the names of nodes
    the loop does not reach are not looked up. *)
Theorem step_without_action_for_reached_reservoir_faults (fuel : nat)
    (self : t Flow) (action : list (string * list Q)) (k : nat)
    (nodes_k : list (node Flow)) (acc_k : accum FlowInfo)
    (r : Reservoir.t) :
  flows_only_route ->
  run fuel action (current_date self) 0 k (water_systems self)
      (initial_accum self) = Ok (nodes_k, acc_k) ->
  final_terminated acc_k || final_truncated acc_k = false ->
  nodes_k !! k = Some (NReservoir r) ->
  ControlledFacility.name (Reservoir.cf r) ∉ action.*1 ->
  step fuel self action = Raise KeyError.
Proof.
  intros Hflows Hprefix Hno Hk Hmiss.
  destruct (run_frame Hflows _ _ _ _ _ _ _ _ _ Hprefix) as [Hlen _].
  pose proof (lookup_lt_Some _ _ _ Hk) as Hlt. rewrite Hlen in Hlt.
  apply (step_raises_at _ _ _ _ _ _ _ Hlt Hprefix Hno).
  unfold step_node. rewrite Hk.
  cbn [fmap option_fmap option_map set_current_date]. norm.
  rewrite (dict_get_missing _ _ Hmiss). reflexivity.
Qed.

(** X17.  A node's reward goes into the bucket of its objective name and
    into no other.  If [final_reward] has the bucket, the bookkeeping of
    the loop adds the reward to it and leaves every other bucket as it was.
    If the [rewards] dictionary of the system has no key of that name, the
    step in which the loop reaches the node raises [KeyError], a node with
    the empty objective name apart. *)
Theorem reward_goes_to_the_bucket_of_the_objective (fuel : nat)
    (self : t Flow) (action : list (string * list Q)) (k : nat)
    (nodes_k nodes' : list (node Flow)) (acc_k : accum FlowInfo)
    (o : outcome FlowInfo) (nm : string) :
  flows_only_route ->
  run fuel action (current_date self) 0 k (water_systems self)
      (initial_accum self) = Ok (nodes_k, acc_k) ->
  final_terminated acc_k || final_truncated acc_k = false ->
  step_node fuel action (current_date self) k nodes_k = Ok (nodes', o) ->
  o_objective o = Some nm ->
  nm <> EmptyString ->
  (nm ∈ (rewards self).*1 ->
     exists old acc',
       Py.dict_get (final_reward acc_k) nm = Ok old
       /\ accumulate acc_k o = Ok acc'
       /\ Py.dict_get (final_reward acc') nm = Ok (old + o_reward o)%Q
       /\ forall key, key <> nm ->
            Py.dict_get (final_reward acc') key
            = Py.dict_get (final_reward acc_k) key)
  /\ (nm ∉ (rewards self).*1 -> step fuel self action = Raise KeyError).
Proof.
  intros Hflows Hprefix Hno Hnode Hobj Hnm.
  pose proof (run_reward_keys _ _ _ _ _ _ _ _ _ Hprefix) as Hkeys.
  rewrite initial_accum_keys in Hkeys.
  assert (Hneq : negb (String.eqb nm EmptyString) = true).
  { destruct (String.eqb_spec nm EmptyString); [congruence|reflexivity]. }
  split.
  - intros Hin. rewrite <- Hkeys in Hin.
    destruct (dict_get_present _ _ Hin) as [old Hold].
    exists old. unfold accumulate. rewrite Hobj, Hneq, Hold. norm.
    eexists. split; [reflexivity|]. split; [reflexivity|].
    cbn [final_reward]. split.
    + apply dict_get_set_same.
    + intros key Hkey. apply dict_get_set_other. exact Hkey.
  - intros Hmiss. rewrite <- Hkeys in Hmiss.
    destruct (run_frame Hflows _ _ _ _ _ _ _ _ _ Hprefix) as [Hlen _].
    destruct (step_node_frame Hflows _ _ _ _ _ _ _ Hnode) as (_ & Hlt & _).
    rewrite Hlen in Hlt.
    apply (step_raises_at _ _ _ _ _ _ _ Hlt Hprefix Hno).
    rewrite Hnode. norm. unfold accumulate. rewrite Hobj, Hneq.
    rewrite (dict_get_missing _ _ Hmiss). reflexivity.
Qed.

End MissingKeys.

Lemma step_without_action_for_reached_reservoir_faults_witness :
  WaterManagementSystem.step 4 Scenario.chain_system
    [("district"%string, [50%Q])] = Raise KeyError.
Proof.
  eapply (step_without_action_for_reached_reservoir_faults
            (ops := Scenario.feed_ops) 4 Scenario.chain_system
            [("district"%string, [50%Q])] 3).
  - exact feed_only_routes.
  - vm_compute. reflexivity.
  - reflexivity.
  - vm_compute. reflexivity.
  - vm_compute. intros H.
    inversion H as [|? ? ? H']; subst. inversion H'.
Defined.

Lemma reward_goes_to_the_bucket_of_the_objective_witness :
  WaterManagementSystem.step (ops := Scenario.no_flows) 4
    (WaterManagementSystem.init
       [WaterManagementSystem.NReservoir Scenario.fed]
       [("energy"%string, 0%Q)] 0%Z (rd_hours 1))
    [("reservoir"%string, [20%Q])] = Raise KeyError.
Proof.
  edestruct (reward_goes_to_the_bucket_of_the_objective
               (ops := Scenario.no_flows) 4
               (WaterManagementSystem.init
                  [WaterManagementSystem.NReservoir Scenario.fed]
                  [("energy"%string, 0%Q)] 0%Z (rd_hours 1))
               [("reservoir"%string, [20%Q])] 0) as [_ Hmiss].
  - intros f. destruct f.
  - reflexivity.
  - reflexivity.
  - vm_compute. reflexivity.
  - reflexivity.
  - discriminate.
  - apply Hmiss. vm_compute. intros H.
    inversion H as [|? ? ? H']; subst. inversion H'.
Defined.

(** ** A pass over all the nodes *)

Section FullPass.
Import WaterManagementSystem.
Context {Flow FlowInfo : Type} {ops : FlowOps Flow FlowInfo}.
Hypothesis Hflows : flows_only_route.

(** The node whose [step] is called is stepped once. *)
Lemma step_node_advance (fuel : nat) (action : list (string * list Q))
    (date : datetime) (i : nat) (nodes nodes' : list (node Flow))
    (o : outcome FlowInfo) :
  step_node fuel action date i nodes = Ok (nodes', o) ->
  exists p p',
    node_progress <$> nodes !! i = Some p
    /\ node_progress <$> nodes' !! i = Some p'
    /\ stepped_once p p'.
Proof using Hflows.
  unfold step_node. intros H.
  destruct (nodes !! i) as [n|] eqn:En; [|discriminate].
  pose proof (lookup_lt_Some _ _ _ En) as Hlt.
  destruct n as [r|p|d|f]; cbn [fmap option_fmap option_map
                                 set_current_date] in H.
  - inv_bind H as a Ha. inv_bind H as x Hx. destruct x as [r' res].
    injection H as <- _.
    apply reservoir_step_inv in Hx.
    destruct Hx as (su & st & level & avg & _ & _ & _ & _ & _ & _ & _ & _
                    & _ & Hts & Hout & _).
    norm in Hts. norm in Hout.
    rewrite list_lookup_insert_eq by exact Hlt.
    eexists _, _. split; [reflexivity|]. split; [reflexivity|].
    cbn [node_progress stepped_once]. rewrite Hts, Hout. eauto.
  - inv_bind H as x Hx. destruct x as [p' res].
    injection H as <- _.
    apply power_plant_step_inv in Hx.
    destruct Hx as (q & r & d & ts & power & outflow & _ & _ & _ & _ & _
                    & _ & _ & Hout & Hts & _).
    norm in Hts. norm in Hout.
    rewrite list_lookup_insert_eq by exact Hlt.
    eexists _, _. split; [reflexivity|]. split; [reflexivity|].
    cbn [node_progress stepped_once]. rewrite Hts, Hout. eauto.
  - inv_bind H as x Hx. destruct x as [d' res].
    injection H as <- _.
    apply district_step_inv in Hx.
    destruct Hx as (demand & inflow & _ & _ & Hout & _ & Hts & _).
    norm in Hts. norm in Hout.
    rewrite list_lookup_insert_eq by exact Hlt.
    eexists _, _. split; [reflexivity|]. split; [reflexivity|].
    cbn [node_progress stepped_once]. rewrite Hts, Hout. eauto.
  - inv_bind H as x Hx. destruct x as [[f' nodes1] [[term trunc] inf]].
    injection H as <- _.
    destruct (Hflows _ _ _ _ _ Hx) as [Hlen _].
    rewrite length_insert in Hlen.
    rewrite list_lookup_insert_eq by (rewrite Hlen; exact Hlt).
    eexists _, _. split; [reflexivity|]. split; [reflexivity|].
    exact I.
Qed.

(** A loop that ends without a flag has stepped each node of the positions
    it covers once, and no other. *)
Lemma run_advance (fuel : nat) (action : list (string * list Q))
    (date : datetime) (count i : nat) (nodes nodes' : list (node Flow))
    (acc acc' : accum FlowInfo) :
  run fuel action date i count nodes acc = Ok (nodes', acc') ->
  final_terminated acc' || final_truncated acc' = false ->
  forall j,
    ((j < i)%nat ->
       node_progress <$> nodes' !! j = node_progress <$> nodes !! j)
    /\ ((i <= j < i + count)%nat ->
         exists p p',
           node_progress <$> nodes !! j = Some p
           /\ node_progress <$> nodes' !! j = Some p'
           /\ stepped_once p p').
Proof using Hflows.
  revert i nodes acc. induction count as [|count IH];
    intros i nodes acc H Hno j.
  - simpl in H. injection H as <- <-. split; [reflexivity|lia].
  - cbn [run] in H. inv_bind H as x Hx. destruct x as [nodes1 o].
    inv_bind H as acc1 Hacc1.
    destruct (step_node_frame Hflows _ _ _ _ _ _ _ Hx) as (_ & _ & Hframe).
    destruct (step_node_advance _ _ _ _ _ _ _ Hx)
      as (p & p1 & Hp & Hp1 & Hadv).
    destruct (final_terminated acc1 || final_truncated acc1) eqn:E.
    { injection H as _ <-. congruence. }
    destruct (IH _ _ _ H Hno j) as [Hbefore Hin].
    split.
    + intros Hj. rewrite Hbefore by lia. apply Hframe. lia.
    + intros Hj. destruct (decide (j = i)) as [->|Hne].
      * exists p, p1. split; [exact Hp|]. split; [|exact Hadv].
        rewrite Hbefore by lia. exact Hp1.
      * destruct Hin as (q & q' & Hq & Hq' & Hqadv); [lia|].
        exists q, q'. split; [|split; [exact Hq'|exact Hqadv]].
        rewrite <- Hframe by exact Hne. exact Hq.
Qed.

(** X18.  A system step that returns without a flag has called the step
    of every node exactly once: each facility, controlled or not, has one
    more outflow in its history and a local step counter one higher than
    before, and no node was added or removed; the step counter of the
    system is then one higher too. *)
Theorem unflagged_step_advances_every_facility_once (fuel : nat)
    (self self' : t Flow) (action : list (string * list Q))
    (out : step_output) :
  step fuel self action = Ok (self', out) ->
  out_terminated out || out_truncated out = false ->
  Forall2 (fun n n' => stepped_once (node_progress n) (node_progress n'))
          (water_systems self) (water_systems self')
  /\ timestep self' = S (timestep self).
Proof using Hflows.
  unfold step. intros H Hno. inv_bind H as x Hx. destruct x as [nodes acc].
  injection H as <- <-. cbn [water_systems timestep] in *.
  cbn [out_terminated out_truncated] in Hno.
  split; [|reflexivity].
  destruct (run_frame Hflows _ _ _ _ _ _ _ _ _ Hx) as [Hlen _].
  apply Forall2_same_length_lookup_2; [congruence|].
  intros j n n' Hn Hn'.
  destruct (run_advance _ _ _ _ _ _ _ _ _ Hx Hno j) as [_ Hin].
  destruct Hin as (p & p' & Hp & Hp' & Hadv).
  { split; [lia|]. apply lookup_lt_Some in Hn. simpl. exact Hn. }
  rewrite Hn in Hp. rewrite Hn' in Hp'.
  injection Hp as <-. injection Hp' as <-. exact Hadv.
Qed.

End FullPass.

Lemma unflagged_step_advances_every_facility_once_witness :
  exists self' out,
    WaterManagementSystem.step 4 Scenario.system
      [("reservoir"%string, [20%Q])] = Ok (self', out)
    /\ Forall2 (fun n n' =>
                  stepped_once (WaterManagementSystem.node_progress n)
                               (WaterManagementSystem.node_progress n'))
         (WaterManagementSystem.water_systems Scenario.system)
         (WaterManagementSystem.water_systems self')
    /\ WaterManagementSystem.timestep self' = 1%nat.
Proof.
  destruct (WaterManagementSystem.step 4 Scenario.system
              [("reservoir"%string, [20%Q])]) as [[self' out]|e] eqn:E;
    [|vm_compute in E; discriminate].
  exists self', out. split; [reflexivity|].
  apply (unflagged_step_advances_every_facility_once
           (ops := Scenario.no_flows) (fun f : Empty_set => match f with end)
           _ _ _ _ _ E).
  vm_compute in E. injection E as _ <-. reflexivity.
Defined.

(** ** Resetting twice *)

Section SecondReset.
Import WaterManagementSystem.
Context {Flow FlowInfo : Type} {ops : FlowOps Flow FlowInfo}.

(** Nodes at episode zero can be reset again, and they show the first
    storages of the nodes they were reset from. *)
Lemma episode_zero_resets_again (start : datetime)
    (nodes nodes1 : list (node Flow)) :
  Forall2 (at_episode_zero start) nodes nodes1 ->
  (exists nodes2, reset_nodes start nodes1 = Ok nodes2)
  /\ _determine_observation nodes1 = first_storages nodes.
Proof.
  induction 1 as [|n n1 nodes nodes1 Hn _ [[nodes2 IH] IHobs]].
  - split; [exists []; reflexivity|reflexivity].
  - unfold _determine_observation, first_storages in *.
    cbn [reset_nodes omap list_omap].
    destruct n as [r|p|d|f], n1 as [r1|p1|d1|f1];
      cbn [at_episode_zero] in Hn; try contradiction;
      cbn [set_current_date node_reset]; rewrite IH; norm.
    + destruct Hn as (Hsv & Hsw & _).
      destruct (Reservoir.storage_vector r) as [|s0 sv] eqn:Er;
        [discriminate|].
      cbn [head take] in *. injection Hsw as Hsw.
      unfold Reservoir.reset. norm. rewrite Hsv.
      change (Py.getitem [s0] 0%Z) with (Ok s0). norm.
      split; [eexists; reflexivity|].
      unfold Reservoir.determine_observation.
      f_equal; [exact Hsw|exact IHobs].
    + split; [eexists; reflexivity|exact IHobs].
    + split; [eexists; reflexivity|exact IHobs].
    + split; [eexists; reflexivity|exact IHobs].
Qed.

(** X19.  [reset] hands back the observation taken before the nodes are
    reset; a second [reset] right after it succeeds as well, and what it
    returns is the first entry of the storage history of each reservoir, in
    the order of the nodes, which is also what the reservoirs then hold. *)
Theorem second_reset_returns_the_first_storages (self s1 : t Flow)
    (obs1 : list Q) :
  reset self = Ok (s1, obs1) ->
  exists s2 obs2,
    reset s1 = Ok (s2, obs2)
    /\ obs2 = first_storages (water_systems self)
    /\ _determine_observation (water_systems s2) = obs2
    /\ length obs2 = length obs1.
Proof.
  intros H.
  destruct (reset_spec _ _ _ H) as (Hzero & _ & _ & _ & Hobs1).
  assert (Hstart : start_date s1 = start_date self).
  { unfold reset in H. inv_bind H as nodes Hnodes. injection H as <- _.
    reflexivity. }
  destruct (episode_zero_resets_again _ _ _ Hzero) as [[nodes2 Hre] Hobs].
  unfold reset at 1. rewrite Hstart, Hre. norm.
  eexists _, _. split; [reflexivity|]. split; [exact Hobs|].
  cbn [water_systems].
  pose proof (reset_nodes_episode_zero _ _ _ Hre) as Hzero2.
  destruct (episode_zero_resets_again _ _ _ Hzero2) as [_ Hobs2].
  split.
  - rewrite Hobs2. rewrite Hobs. clear - Hzero.
    induction Hzero as [|n n1 nodes nodes1 Hn _ IH]; [reflexivity|].
    unfold first_storages in *. cbn [omap list_omap].
    destruct n as [r|p|d|f], n1 as [r1|p1|d1|f1];
      cbn [at_episode_zero] in Hn; try contradiction;
      try exact IH.
    destruct Hn as (Hsv & Hsw & _). rewrite Hsv.
    destruct (Reservoir.storage_vector r) as [|s0 sv]; [discriminate|].
    cbn [head take]. f_equal. exact IH.
  - rewrite Hobs, Hobs1. clear - Hzero.
    induction Hzero as [|n n1 nodes nodes1 Hn _ IH]; [reflexivity|].
    unfold first_storages, _determine_observation in *.
    cbn [omap list_omap].
    destruct n as [r|p|d|f], n1 as [r1|p1|d1|f1];
      cbn [at_episode_zero] in Hn; try contradiction;
      try exact IH.
    destruct Hn as (_ & Hsw & _).
    destruct (Reservoir.storage_vector r) as [|s0 sv]; [discriminate|].
    cbn [head length]. f_equal. exact IH.
Qed.

End SecondReset.

Lemma second_reset_returns_the_first_storages_witness :
  exists sys1 out s1 obs1 s2 obs2,
    WaterManagementSystem.step 4 Scenario.system
      [("reservoir"%string, [20%Q])] = Ok (sys1, out)
    /\ WaterManagementSystem.reset sys1 = Ok (s1, obs1)
    /\ WaterManagementSystem.reset s1 = Ok (s2, obs2)
    /\ obs2 = [100%Q].
Proof.
  destruct (WaterManagementSystem.step 4 Scenario.system
              [("reservoir"%string, [20%Q])]) as [[sys1 out]|e] eqn:E1;
    [|vm_compute in E1; discriminate].
  destruct (WaterManagementSystem.reset sys1) as [[s1 obs1]|e] eqn:E2.
  2:{ vm_compute in E1. injection E1 as <- <-.
      vm_compute in E2. discriminate. }
  destruct (second_reset_returns_the_first_storages
              (ops := Scenario.no_flows) _ _ _ E2)
    as (s2 & obs2 & Hre & Hobs & _).
  exists sys1, out, s1, obs1, s2, obs2.
  split; [reflexivity|]. split; [exact E2|]. split; [exact Hre|].
  rewrite Hobs. vm_compute in E1. injection E1 as <- _. reflexivity.
Defined.

(** ** The tuple of a reservoir step *)

(** X20.  The tuple a reservoir step returns describes the reservoir as
    the step leaves it.  The observation is the stored water, which is the
    last entry of the storage history; the reward is the objective function
    applied to the level just appended to the level history; the [info]
    carries that level and the release just appended to the release
    history, which is also the outflow just appended to the ledger.  A
    step can only return when the objective function is callable. *)
Theorem reservoir_step_reports_the_state_it_leaves (fuel : nat)
    (r r' : Reservoir.t) (action : list Q) (res : step_result) :
  Reservoir.step fuel r action = Ok (r', res) ->
  exists level release f,
    last (Reservoir.storage_vector r') = Some (Reservoir.stored_water r')
    /\ last (Reservoir.level_vector r') = Some level
    /\ last (Reservoir.release_vector r') = Some release
    /\ last (ControlledFacility.all_outflow (Reservoir.cf r'))
       = Some release
    /\ ControlledFacility.objective_function (Reservoir.cf r) = PyFunction f
    /\ sr_observation res = Some (Reservoir.stored_water r')
    /\ sr_reward res = f level
    /\ sr_info res
       = ReservoirInfo (ControlledFacility.name (Reservoir.cf r))
           (Reservoir.stored_water r') (Some level) (Some release)
           (Reservoir.evap_rates r).
Proof.
  unfold Reservoir.step, ControlledFacility.step.
  cbn [ControlledFacility.base ControlledFacility.with_base
       ControlledFacility.determine_reward
       ControlledFacility.determine_outflow
       ControlledFacility.determine_observation
       ControlledFacility.is_terminated ControlledFacility.is_truncated
       ControlledFacility.determine_info Reservoir.methods].
  intros H. inv_bind H as x Hout. destruct x as [r1 out].
  inv_bind H as rew Hrew. inv_bind H as inf Hinf. injection H as <- <-.
  unfold Reservoir.determine_outflow in Hout.
  inv_bind Hout as su Hsu. inv_bind Hout as st Hst.
  inv_bind Hout as level Hlevel. inv_bind Hout as avg Havg.
  injection Hout as <- <-.
  unfold Reservoir.determine_reward in Hrew. inv_bind Hrew as lvl Hlvl.
  unfold Reservoir.storage_to_level in Hlvl, Hlevel. norm in Hlvl.
  rewrite Hlevel in Hlvl. injection Hlvl as <-.
  norm in Hrew.
  destruct (ControlledFacility.objective_function (Reservoir.cf r))
    as [f|x] eqn:Ef; [|discriminate].
  injection Hrew as <-.
  unfold Reservoir.determine_info in Hinf. norm in Hinf.
  unfold Py.last_or_none in Hinf. rewrite !last_snoc in Hinf.
  injection Hinf as <-.
  exists level, avg, f. norm. rewrite !last_snoc.
  unfold Reservoir.determine_observation. norm.
  repeat split; reflexivity.
Qed.

Lemma reservoir_step_reports_the_state_it_leaves_witness :
  exists r' res,
    Reservoir.step 4 Scenario.ready [20%Q] = Ok (r', res)
    /\ sr_observation res = Some (Reservoir.stored_water r')
    /\ last (Reservoir.storage_vector r') = Some (Reservoir.stored_water r').
Proof.
  destruct (Reservoir.step 4 Scenario.ready [20%Q]) as [[r' res]|e] eqn:E;
    [|vm_compute in E; discriminate].
  exists r', res. split; [reflexivity|].
  destruct (reservoir_step_reports_the_state_it_leaves _ _ _ _ _ E)
    as (level & release & f & Hsv & _ & _ & _ & _ & Hobs & _).
  split; [exact Hobs|exact Hsv].
Defined.
